(** * Race Game (Flipper Zero): a shallow embedding of [race_game.c]

    The simulation core of the game is embedded function by function:
    the C struct [RaceGameState] becomes a record, the fixed-size pools
    become lists addressed by index, every fixed-width integer is a [Z]
    with its wrap-around written out at each store, and the ambient
    effects (the C library generator behind [rand()], the periodic timer,
    sound, vibration and the high-score file) are threaded through the
    same record.  Drawing code has no influence on the state and is not
    embedded. *)

From stdpp Require Import base list.
From Stdlib Require Import ZArith Lia Bool.

Local Open Scope Z_scope.

(** ** Fixed-width integers *)

Definition u8 (z : Z) : Z := z mod 2 ^ 8.
Definition u16 (z : Z) : Z := z mod 2 ^ 16.
Definition u32 (z : Z) : Z := z mod 2 ^ 32.
Definition i8 (z : Z) : Z := (z + 2 ^ 7) mod 2 ^ 8 - 2 ^ 7.
Definition i16 (z : Z) : Z := (z + 2 ^ 15) mod 2 ^ 16 - 2 ^ 15.

(** ** Layout constants *)

Definition SCREEN_W : Z := 64.
Definition SCREEN_H : Z := 128.
Definition ROAD_LEFT : Z := 10.
Definition ROAD_RIGHT : Z := 53.
Definition ROAD_WIDTH : Z := ROAD_RIGHT - ROAD_LEFT.
Definition LANE_COUNT : Z := 3.
Definition LANE_WIDTH : Z := ROAD_WIDTH ÷ LANE_COUNT.
Definition CAR_W : Z := 10.
Definition CAR_H : Z := 13.
Definition PLAYER_Y : Z := 105.
Definition MAX_OBS : nat := 5.
Definition MAX_COINS : nat := 3.
Definition MAX_POWERUPS : nat := 2.
Definition MAX_SCENERY : nat := 6.
Definition MAX_PARTICLES : nat := 12.
Definition INITIAL_LIVES : Z := 3.
Definition MAX_LIVES : Z := 5.
Definition DASH_LEN : Z := 8.
Definition DASH_GAP : Z := 8.
Definition DASH_TOTAL : Z := DASH_LEN + DASH_GAP.

(** ** Types *)

Inductive GameState := StateMenu | StatePlaying | StateGameOver.
Inductive ObsType := ObsMoto | ObsSedan | ObsTruck.
Inductive PowerUpType := PwShield | PwMagnet | PwFuel.
Inductive Difficulty := DiffEasy | DiffNormal | DiffHard.

#[global] Instance GameState_eq_dec : EqDecision GameState.
Proof. solve_decision. Defined.
#[global] Instance ObsType_eq_dec : EqDecision ObsType.
Proof. solve_decision. Defined.
#[global] Instance PowerUpType_eq_dec : EqDecision PowerUpType.
Proof. solve_decision. Defined.
#[global] Instance Difficulty_eq_dec : EqDecision Difficulty.
Proof. solve_decision. Defined.

Record Obstacle := {
  obs_lane : Z; obs_y : Z; obs_alive : bool; obs_type : ObsType }.
Record Coin := { coin_lane : Z; coin_y : Z; coin_alive : bool }.
Record PowerUp := {
  pw_lane : Z; pw_y : Z; pw_alive : bool; pw_type : PowerUpType }.
Record Scenery := { sc_y : Z; sc_side : Z; sc_type : Z }.
Record Particle := {
  pt_x : Z; pt_y : Z; pt_dx : Z; pt_dy : Z; pt_life : Z }.

(** What the core sends to its collaborators: a tone (frequency in Hz,
    duration in ms; the volume is a float and is left out), a vibration
    and a write of the best score to the high-score file. *)
Inductive Cue :=
| Tone (freq ms : Z)
| Vibro (ms : Z)
| SaveBest (v : Z).

(** The C struct, followed by the ambient state the C code reaches through
    library calls: [timer] is the period of the running [FuriTimer]
    ([None] when stopped), [rand_src] and [rand_pos] are the sequence that
    [rand()] will return and how far it has been consumed, [cues] is the
    log of emitted cues, most recent first, [file] is the content of the
    high-score file ([None] when there is no file), [open_src] and
    [open_pos] are the outcomes of the calls of [storage_file_open], in
    order, and how many calls have been made. *)
Record RaceGameState := {
  state : GameState;
  player_lane : Z;
  score : Z;
  high_score : Z;
  level : Z;
  lives : Z;
  speed : Z;
  tick_count : Z;
  road_scroll : Z;
  night_mode : bool;
  sound_on : bool;
  menu_idx : Z;
  difficulty : Difficulty;
  invincible_ticks : Z;
  shield_ticks : Z;
  magnet_ticks : Z;
  combo : Z;
  combo_display : Z;
  obstacles : list Obstacle;
  coins : list Coin;
  powerups : list PowerUp;
  scenery : list Scenery;
  particles : list Particle;
  timer : option Z;
  rand_src : nat -> N;
  rand_pos : nat;
  cues : list Cue;
  file : option Z;
  open_src : nat -> bool;
  open_pos : nat }.

(** Field assignments [s->f = v]. *)

Definition set_state (v : GameState) (s : RaceGameState) : RaceGameState :=
  {| state := v; player_lane := player_lane s; score := score s;
     high_score := high_score s; level := level s; lives := lives s;
     speed := speed s; tick_count := tick_count s;
     road_scroll := road_scroll s; night_mode := night_mode s;
     sound_on := sound_on s; menu_idx := menu_idx s;
     difficulty := difficulty s; invincible_ticks := invincible_ticks s;
     shield_ticks := shield_ticks s; magnet_ticks := magnet_ticks s;
     combo := combo s; combo_display := combo_display s;
     obstacles := obstacles s; coins := coins s; powerups := powerups s;
     scenery := scenery s; particles := particles s; timer := timer s;
     rand_src := rand_src s; rand_pos := rand_pos s; cues := cues s;
     file := file s; open_src := open_src s; open_pos := open_pos s |}.

Definition set_player_lane (v : Z) (s : RaceGameState) : RaceGameState :=
  {| state := state s; player_lane := v; score := score s;
     high_score := high_score s; level := level s; lives := lives s;
     speed := speed s; tick_count := tick_count s;
     road_scroll := road_scroll s; night_mode := night_mode s;
     sound_on := sound_on s; menu_idx := menu_idx s;
     difficulty := difficulty s; invincible_ticks := invincible_ticks s;
     shield_ticks := shield_ticks s; magnet_ticks := magnet_ticks s;
     combo := combo s; combo_display := combo_display s;
     obstacles := obstacles s; coins := coins s; powerups := powerups s;
     scenery := scenery s; particles := particles s; timer := timer s;
     rand_src := rand_src s; rand_pos := rand_pos s; cues := cues s;
     file := file s; open_src := open_src s; open_pos := open_pos s |}.

Definition set_score (v : Z) (s : RaceGameState) : RaceGameState :=
  {| state := state s; player_lane := player_lane s; score := v;
     high_score := high_score s; level := level s; lives := lives s;
     speed := speed s; tick_count := tick_count s;
     road_scroll := road_scroll s; night_mode := night_mode s;
     sound_on := sound_on s; menu_idx := menu_idx s;
     difficulty := difficulty s; invincible_ticks := invincible_ticks s;
     shield_ticks := shield_ticks s; magnet_ticks := magnet_ticks s;
     combo := combo s; combo_display := combo_display s;
     obstacles := obstacles s; coins := coins s; powerups := powerups s;
     scenery := scenery s; particles := particles s; timer := timer s;
     rand_src := rand_src s; rand_pos := rand_pos s; cues := cues s;
     file := file s; open_src := open_src s; open_pos := open_pos s |}.

Definition set_high_score (v : Z) (s : RaceGameState) : RaceGameState :=
  {| state := state s; player_lane := player_lane s; score := score s;
     high_score := v; level := level s; lives := lives s; speed := speed s;
     tick_count := tick_count s; road_scroll := road_scroll s;
     night_mode := night_mode s; sound_on := sound_on s;
     menu_idx := menu_idx s; difficulty := difficulty s;
     invincible_ticks := invincible_ticks s; shield_ticks := shield_ticks s;
     magnet_ticks := magnet_ticks s; combo := combo s;
     combo_display := combo_display s; obstacles := obstacles s;
     coins := coins s; powerups := powerups s; scenery := scenery s;
     particles := particles s; timer := timer s; rand_src := rand_src s;
     rand_pos := rand_pos s; cues := cues s; file := file s;
     open_src := open_src s; open_pos := open_pos s |}.

Definition set_level (v : Z) (s : RaceGameState) : RaceGameState :=
  {| state := state s; player_lane := player_lane s; score := score s;
     high_score := high_score s; level := v; lives := lives s;
     speed := speed s; tick_count := tick_count s;
     road_scroll := road_scroll s; night_mode := night_mode s;
     sound_on := sound_on s; menu_idx := menu_idx s;
     difficulty := difficulty s; invincible_ticks := invincible_ticks s;
     shield_ticks := shield_ticks s; magnet_ticks := magnet_ticks s;
     combo := combo s; combo_display := combo_display s;
     obstacles := obstacles s; coins := coins s; powerups := powerups s;
     scenery := scenery s; particles := particles s; timer := timer s;
     rand_src := rand_src s; rand_pos := rand_pos s; cues := cues s;
     file := file s; open_src := open_src s; open_pos := open_pos s |}.

Definition set_lives (v : Z) (s : RaceGameState) : RaceGameState :=
  {| state := state s; player_lane := player_lane s; score := score s;
     high_score := high_score s; level := level s; lives := v;
     speed := speed s; tick_count := tick_count s;
     road_scroll := road_scroll s; night_mode := night_mode s;
     sound_on := sound_on s; menu_idx := menu_idx s;
     difficulty := difficulty s; invincible_ticks := invincible_ticks s;
     shield_ticks := shield_ticks s; magnet_ticks := magnet_ticks s;
     combo := combo s; combo_display := combo_display s;
     obstacles := obstacles s; coins := coins s; powerups := powerups s;
     scenery := scenery s; particles := particles s; timer := timer s;
     rand_src := rand_src s; rand_pos := rand_pos s; cues := cues s;
     file := file s; open_src := open_src s; open_pos := open_pos s |}.

Definition set_speed (v : Z) (s : RaceGameState) : RaceGameState :=
  {| state := state s; player_lane := player_lane s; score := score s;
     high_score := high_score s; level := level s; lives := lives s;
     speed := v; tick_count := tick_count s; road_scroll := road_scroll s;
     night_mode := night_mode s; sound_on := sound_on s;
     menu_idx := menu_idx s; difficulty := difficulty s;
     invincible_ticks := invincible_ticks s; shield_ticks := shield_ticks s;
     magnet_ticks := magnet_ticks s; combo := combo s;
     combo_display := combo_display s; obstacles := obstacles s;
     coins := coins s; powerups := powerups s; scenery := scenery s;
     particles := particles s; timer := timer s; rand_src := rand_src s;
     rand_pos := rand_pos s; cues := cues s; file := file s;
     open_src := open_src s; open_pos := open_pos s |}.

Definition set_tick_count (v : Z) (s : RaceGameState) : RaceGameState :=
  {| state := state s; player_lane := player_lane s; score := score s;
     high_score := high_score s; level := level s; lives := lives s;
     speed := speed s; tick_count := v; road_scroll := road_scroll s;
     night_mode := night_mode s; sound_on := sound_on s;
     menu_idx := menu_idx s; difficulty := difficulty s;
     invincible_ticks := invincible_ticks s; shield_ticks := shield_ticks s;
     magnet_ticks := magnet_ticks s; combo := combo s;
     combo_display := combo_display s; obstacles := obstacles s;
     coins := coins s; powerups := powerups s; scenery := scenery s;
     particles := particles s; timer := timer s; rand_src := rand_src s;
     rand_pos := rand_pos s; cues := cues s; file := file s;
     open_src := open_src s; open_pos := open_pos s |}.

Definition set_road_scroll (v : Z) (s : RaceGameState) : RaceGameState :=
  {| state := state s; player_lane := player_lane s; score := score s;
     high_score := high_score s; level := level s; lives := lives s;
     speed := speed s; tick_count := tick_count s; road_scroll := v;
     night_mode := night_mode s; sound_on := sound_on s;
     menu_idx := menu_idx s; difficulty := difficulty s;
     invincible_ticks := invincible_ticks s; shield_ticks := shield_ticks s;
     magnet_ticks := magnet_ticks s; combo := combo s;
     combo_display := combo_display s; obstacles := obstacles s;
     coins := coins s; powerups := powerups s; scenery := scenery s;
     particles := particles s; timer := timer s; rand_src := rand_src s;
     rand_pos := rand_pos s; cues := cues s; file := file s;
     open_src := open_src s; open_pos := open_pos s |}.

Definition set_night_mode (v : bool) (s : RaceGameState) : RaceGameState :=
  {| state := state s; player_lane := player_lane s; score := score s;
     high_score := high_score s; level := level s; lives := lives s;
     speed := speed s; tick_count := tick_count s;
     road_scroll := road_scroll s; night_mode := v; sound_on := sound_on s;
     menu_idx := menu_idx s; difficulty := difficulty s;
     invincible_ticks := invincible_ticks s; shield_ticks := shield_ticks s;
     magnet_ticks := magnet_ticks s; combo := combo s;
     combo_display := combo_display s; obstacles := obstacles s;
     coins := coins s; powerups := powerups s; scenery := scenery s;
     particles := particles s; timer := timer s; rand_src := rand_src s;
     rand_pos := rand_pos s; cues := cues s; file := file s;
     open_src := open_src s; open_pos := open_pos s |}.

Definition set_sound_on (v : bool) (s : RaceGameState) : RaceGameState :=
  {| state := state s; player_lane := player_lane s; score := score s;
     high_score := high_score s; level := level s; lives := lives s;
     speed := speed s; tick_count := tick_count s;
     road_scroll := road_scroll s; night_mode := night_mode s; sound_on := v;
     menu_idx := menu_idx s; difficulty := difficulty s;
     invincible_ticks := invincible_ticks s; shield_ticks := shield_ticks s;
     magnet_ticks := magnet_ticks s; combo := combo s;
     combo_display := combo_display s; obstacles := obstacles s;
     coins := coins s; powerups := powerups s; scenery := scenery s;
     particles := particles s; timer := timer s; rand_src := rand_src s;
     rand_pos := rand_pos s; cues := cues s; file := file s;
     open_src := open_src s; open_pos := open_pos s |}.

Definition set_menu_idx (v : Z) (s : RaceGameState) : RaceGameState :=
  {| state := state s; player_lane := player_lane s; score := score s;
     high_score := high_score s; level := level s; lives := lives s;
     speed := speed s; tick_count := tick_count s;
     road_scroll := road_scroll s; night_mode := night_mode s;
     sound_on := sound_on s; menu_idx := v; difficulty := difficulty s;
     invincible_ticks := invincible_ticks s; shield_ticks := shield_ticks s;
     magnet_ticks := magnet_ticks s; combo := combo s;
     combo_display := combo_display s; obstacles := obstacles s;
     coins := coins s; powerups := powerups s; scenery := scenery s;
     particles := particles s; timer := timer s; rand_src := rand_src s;
     rand_pos := rand_pos s; cues := cues s; file := file s;
     open_src := open_src s; open_pos := open_pos s |}.

Definition set_difficulty (v : Difficulty) (s : RaceGameState) : RaceGameState :=
  {| state := state s; player_lane := player_lane s; score := score s;
     high_score := high_score s; level := level s; lives := lives s;
     speed := speed s; tick_count := tick_count s;
     road_scroll := road_scroll s; night_mode := night_mode s;
     sound_on := sound_on s; menu_idx := menu_idx s; difficulty := v;
     invincible_ticks := invincible_ticks s; shield_ticks := shield_ticks s;
     magnet_ticks := magnet_ticks s; combo := combo s;
     combo_display := combo_display s; obstacles := obstacles s;
     coins := coins s; powerups := powerups s; scenery := scenery s;
     particles := particles s; timer := timer s; rand_src := rand_src s;
     rand_pos := rand_pos s; cues := cues s; file := file s;
     open_src := open_src s; open_pos := open_pos s |}.

Definition set_invincible_ticks (v : Z) (s : RaceGameState) : RaceGameState :=
  {| state := state s; player_lane := player_lane s; score := score s;
     high_score := high_score s; level := level s; lives := lives s;
     speed := speed s; tick_count := tick_count s;
     road_scroll := road_scroll s; night_mode := night_mode s;
     sound_on := sound_on s; menu_idx := menu_idx s;
     difficulty := difficulty s; invincible_ticks := v;
     shield_ticks := shield_ticks s; magnet_ticks := magnet_ticks s;
     combo := combo s; combo_display := combo_display s;
     obstacles := obstacles s; coins := coins s; powerups := powerups s;
     scenery := scenery s; particles := particles s; timer := timer s;
     rand_src := rand_src s; rand_pos := rand_pos s; cues := cues s;
     file := file s; open_src := open_src s; open_pos := open_pos s |}.

Definition set_shield_ticks (v : Z) (s : RaceGameState) : RaceGameState :=
  {| state := state s; player_lane := player_lane s; score := score s;
     high_score := high_score s; level := level s; lives := lives s;
     speed := speed s; tick_count := tick_count s;
     road_scroll := road_scroll s; night_mode := night_mode s;
     sound_on := sound_on s; menu_idx := menu_idx s;
     difficulty := difficulty s; invincible_ticks := invincible_ticks s;
     shield_ticks := v; magnet_ticks := magnet_ticks s; combo := combo s;
     combo_display := combo_display s; obstacles := obstacles s;
     coins := coins s; powerups := powerups s; scenery := scenery s;
     particles := particles s; timer := timer s; rand_src := rand_src s;
     rand_pos := rand_pos s; cues := cues s; file := file s;
     open_src := open_src s; open_pos := open_pos s |}.

Definition set_magnet_ticks (v : Z) (s : RaceGameState) : RaceGameState :=
  {| state := state s; player_lane := player_lane s; score := score s;
     high_score := high_score s; level := level s; lives := lives s;
     speed := speed s; tick_count := tick_count s;
     road_scroll := road_scroll s; night_mode := night_mode s;
     sound_on := sound_on s; menu_idx := menu_idx s;
     difficulty := difficulty s; invincible_ticks := invincible_ticks s;
     shield_ticks := shield_ticks s; magnet_ticks := v; combo := combo s;
     combo_display := combo_display s; obstacles := obstacles s;
     coins := coins s; powerups := powerups s; scenery := scenery s;
     particles := particles s; timer := timer s; rand_src := rand_src s;
     rand_pos := rand_pos s; cues := cues s; file := file s;
     open_src := open_src s; open_pos := open_pos s |}.

Definition set_combo (v : Z) (s : RaceGameState) : RaceGameState :=
  {| state := state s; player_lane := player_lane s; score := score s;
     high_score := high_score s; level := level s; lives := lives s;
     speed := speed s; tick_count := tick_count s;
     road_scroll := road_scroll s; night_mode := night_mode s;
     sound_on := sound_on s; menu_idx := menu_idx s;
     difficulty := difficulty s; invincible_ticks := invincible_ticks s;
     shield_ticks := shield_ticks s; magnet_ticks := magnet_ticks s;
     combo := v; combo_display := combo_display s; obstacles := obstacles s;
     coins := coins s; powerups := powerups s; scenery := scenery s;
     particles := particles s; timer := timer s; rand_src := rand_src s;
     rand_pos := rand_pos s; cues := cues s; file := file s;
     open_src := open_src s; open_pos := open_pos s |}.

Definition set_combo_display (v : Z) (s : RaceGameState) : RaceGameState :=
  {| state := state s; player_lane := player_lane s; score := score s;
     high_score := high_score s; level := level s; lives := lives s;
     speed := speed s; tick_count := tick_count s;
     road_scroll := road_scroll s; night_mode := night_mode s;
     sound_on := sound_on s; menu_idx := menu_idx s;
     difficulty := difficulty s; invincible_ticks := invincible_ticks s;
     shield_ticks := shield_ticks s; magnet_ticks := magnet_ticks s;
     combo := combo s; combo_display := v; obstacles := obstacles s;
     coins := coins s; powerups := powerups s; scenery := scenery s;
     particles := particles s; timer := timer s; rand_src := rand_src s;
     rand_pos := rand_pos s; cues := cues s; file := file s;
     open_src := open_src s; open_pos := open_pos s |}.

Definition set_obstacles (v : list Obstacle) (s : RaceGameState) : RaceGameState :=
  {| state := state s; player_lane := player_lane s; score := score s;
     high_score := high_score s; level := level s; lives := lives s;
     speed := speed s; tick_count := tick_count s;
     road_scroll := road_scroll s; night_mode := night_mode s;
     sound_on := sound_on s; menu_idx := menu_idx s;
     difficulty := difficulty s; invincible_ticks := invincible_ticks s;
     shield_ticks := shield_ticks s; magnet_ticks := magnet_ticks s;
     combo := combo s; combo_display := combo_display s; obstacles := v;
     coins := coins s; powerups := powerups s; scenery := scenery s;
     particles := particles s; timer := timer s; rand_src := rand_src s;
     rand_pos := rand_pos s; cues := cues s; file := file s;
     open_src := open_src s; open_pos := open_pos s |}.

Definition set_coins (v : list Coin) (s : RaceGameState) : RaceGameState :=
  {| state := state s; player_lane := player_lane s; score := score s;
     high_score := high_score s; level := level s; lives := lives s;
     speed := speed s; tick_count := tick_count s;
     road_scroll := road_scroll s; night_mode := night_mode s;
     sound_on := sound_on s; menu_idx := menu_idx s;
     difficulty := difficulty s; invincible_ticks := invincible_ticks s;
     shield_ticks := shield_ticks s; magnet_ticks := magnet_ticks s;
     combo := combo s; combo_display := combo_display s;
     obstacles := obstacles s; coins := v; powerups := powerups s;
     scenery := scenery s; particles := particles s; timer := timer s;
     rand_src := rand_src s; rand_pos := rand_pos s; cues := cues s;
     file := file s; open_src := open_src s; open_pos := open_pos s |}.

Definition set_powerups (v : list PowerUp) (s : RaceGameState) : RaceGameState :=
  {| state := state s; player_lane := player_lane s; score := score s;
     high_score := high_score s; level := level s; lives := lives s;
     speed := speed s; tick_count := tick_count s;
     road_scroll := road_scroll s; night_mode := night_mode s;
     sound_on := sound_on s; menu_idx := menu_idx s;
     difficulty := difficulty s; invincible_ticks := invincible_ticks s;
     shield_ticks := shield_ticks s; magnet_ticks := magnet_ticks s;
     combo := combo s; combo_display := combo_display s;
     obstacles := obstacles s; coins := coins s; powerups := v;
     scenery := scenery s; particles := particles s; timer := timer s;
     rand_src := rand_src s; rand_pos := rand_pos s; cues := cues s;
     file := file s; open_src := open_src s; open_pos := open_pos s |}.

Definition set_scenery (v : list Scenery) (s : RaceGameState) : RaceGameState :=
  {| state := state s; player_lane := player_lane s; score := score s;
     high_score := high_score s; level := level s; lives := lives s;
     speed := speed s; tick_count := tick_count s;
     road_scroll := road_scroll s; night_mode := night_mode s;
     sound_on := sound_on s; menu_idx := menu_idx s;
     difficulty := difficulty s; invincible_ticks := invincible_ticks s;
     shield_ticks := shield_ticks s; magnet_ticks := magnet_ticks s;
     combo := combo s; combo_display := combo_display s;
     obstacles := obstacles s; coins := coins s; powerups := powerups s;
     scenery := v; particles := particles s; timer := timer s;
     rand_src := rand_src s; rand_pos := rand_pos s; cues := cues s;
     file := file s; open_src := open_src s; open_pos := open_pos s |}.

Definition set_particles (v : list Particle) (s : RaceGameState) : RaceGameState :=
  {| state := state s; player_lane := player_lane s; score := score s;
     high_score := high_score s; level := level s; lives := lives s;
     speed := speed s; tick_count := tick_count s;
     road_scroll := road_scroll s; night_mode := night_mode s;
     sound_on := sound_on s; menu_idx := menu_idx s;
     difficulty := difficulty s; invincible_ticks := invincible_ticks s;
     shield_ticks := shield_ticks s; magnet_ticks := magnet_ticks s;
     combo := combo s; combo_display := combo_display s;
     obstacles := obstacles s; coins := coins s; powerups := powerups s;
     scenery := scenery s; particles := v; timer := timer s;
     rand_src := rand_src s; rand_pos := rand_pos s; cues := cues s;
     file := file s; open_src := open_src s; open_pos := open_pos s |}.

Definition set_timer (v : option Z) (s : RaceGameState) : RaceGameState :=
  {| state := state s; player_lane := player_lane s; score := score s;
     high_score := high_score s; level := level s; lives := lives s;
     speed := speed s; tick_count := tick_count s;
     road_scroll := road_scroll s; night_mode := night_mode s;
     sound_on := sound_on s; menu_idx := menu_idx s;
     difficulty := difficulty s; invincible_ticks := invincible_ticks s;
     shield_ticks := shield_ticks s; magnet_ticks := magnet_ticks s;
     combo := combo s; combo_display := combo_display s;
     obstacles := obstacles s; coins := coins s; powerups := powerups s;
     scenery := scenery s; particles := particles s; timer := v;
     rand_src := rand_src s; rand_pos := rand_pos s; cues := cues s;
     file := file s; open_src := open_src s; open_pos := open_pos s |}.

Definition set_rand_pos (v : nat) (s : RaceGameState) : RaceGameState :=
  {| state := state s; player_lane := player_lane s; score := score s;
     high_score := high_score s; level := level s; lives := lives s;
     speed := speed s; tick_count := tick_count s;
     road_scroll := road_scroll s; night_mode := night_mode s;
     sound_on := sound_on s; menu_idx := menu_idx s;
     difficulty := difficulty s; invincible_ticks := invincible_ticks s;
     shield_ticks := shield_ticks s; magnet_ticks := magnet_ticks s;
     combo := combo s; combo_display := combo_display s;
     obstacles := obstacles s; coins := coins s; powerups := powerups s;
     scenery := scenery s; particles := particles s; timer := timer s;
     rand_src := rand_src s; rand_pos := v; cues := cues s; file := file s;
     open_src := open_src s; open_pos := open_pos s |}.

Definition set_cues (v : list Cue) (s : RaceGameState) : RaceGameState :=
  {| state := state s; player_lane := player_lane s; score := score s;
     high_score := high_score s; level := level s; lives := lives s;
     speed := speed s; tick_count := tick_count s;
     road_scroll := road_scroll s; night_mode := night_mode s;
     sound_on := sound_on s; menu_idx := menu_idx s;
     difficulty := difficulty s; invincible_ticks := invincible_ticks s;
     shield_ticks := shield_ticks s; magnet_ticks := magnet_ticks s;
     combo := combo s; combo_display := combo_display s;
     obstacles := obstacles s; coins := coins s; powerups := powerups s;
     scenery := scenery s; particles := particles s; timer := timer s;
     rand_src := rand_src s; rand_pos := rand_pos s; cues := v;
     file := file s; open_src := open_src s; open_pos := open_pos s |}.

Definition set_file (v : option Z) (s : RaceGameState) : RaceGameState :=
  {| state := state s; player_lane := player_lane s; score := score s;
     high_score := high_score s; level := level s; lives := lives s;
     speed := speed s; tick_count := tick_count s;
     road_scroll := road_scroll s; night_mode := night_mode s;
     sound_on := sound_on s; menu_idx := menu_idx s;
     difficulty := difficulty s; invincible_ticks := invincible_ticks s;
     shield_ticks := shield_ticks s; magnet_ticks := magnet_ticks s;
     combo := combo s; combo_display := combo_display s;
     obstacles := obstacles s; coins := coins s; powerups := powerups s;
     scenery := scenery s; particles := particles s; timer := timer s;
     rand_src := rand_src s; rand_pos := rand_pos s; cues := cues s;
     file := v; open_src := open_src s; open_pos := open_pos s |}.

Definition set_open_pos (v : nat) (s : RaceGameState) : RaceGameState :=
  {| state := state s; player_lane := player_lane s; score := score s;
     high_score := high_score s; level := level s; lives := lives s;
     speed := speed s; tick_count := tick_count s;
     road_scroll := road_scroll s; night_mode := night_mode s;
     sound_on := sound_on s; menu_idx := menu_idx s;
     difficulty := difficulty s; invincible_ticks := invincible_ticks s;
     shield_ticks := shield_ticks s; magnet_ticks := magnet_ticks s;
     combo := combo s; combo_display := combo_display s;
     obstacles := obstacles s; coins := coins s; powerups := powerups s;
     scenery := scenery s; particles := particles s; timer := timer s;
     rand_src := rand_src s; rand_pos := rand_pos s; cues := cues s;
     file := file s; open_src := open_src s; open_pos := v |}.

(** ** Difficulty settings *)

Definition diff_speed (d : Difficulty) : Z :=
  match d with DiffEasy => 140 | DiffNormal => 120 | DiffHard => 90 end.
Definition diff_min_speed (d : Difficulty) : Z :=
  match d with DiffEasy => 70 | DiffNormal => 50 | DiffHard => 35 end.
Definition diff_spawn (d : Difficulty) : Z :=
  match d with DiffEasy => 15 | DiffNormal => 12 | DiffHard => 9 end.

(** ** Library calls *)

(** [rand()]: the next element of the sequence, never negative. *)
Definition rand (s : RaceGameState) : Z * RaceGameState :=
  (Z.of_N (rand_src s (rand_pos s)), set_rand_pos (S (rand_pos s)) s).

Definition emit (c : Cue) (s : RaceGameState) : RaceGameState :=
  set_cues (c :: cues s) s.

Definition play_sound (freq ms : Z) (s : RaceGameState) : RaceGameState :=
  if sound_on s then emit (Tone freq ms) s else s.

Definition vibrate (ms : Z) (s : RaceGameState) : RaceGameState :=
  emit (Vibro ms) s.

Definition furi_timer_stop (s : RaceGameState) : RaceGameState :=
  set_timer None s.
Definition furi_timer_start (period : Z) (s : RaceGameState) : RaceGameState :=
  set_timer (Some period) s.

(** [for (int i = 0; i < n; i++) body], without [break] or [return]. *)
Definition for_loop (n : nat) (body : nat -> RaceGameState -> RaceGameState)
    (s : RaceGameState) : RaceGameState :=
  foldl (fun acc i => body i acc) s (seq 0 n).

(** ** High score *)

(** [storage_file_open]: the next outcome of the sequence.  The call is
    counted whether the file could be opened or not. *)
Definition storage_file_open (s : RaceGameState) : bool * RaceGameState :=
  (open_src s (open_pos s), set_open_pos (S (open_pos s)) s).

(** [storage_file_write] of the 32-bit value [v] to the file just opened
    with [FSOM_CREATE_ALWAYS]. *)
Definition storage_file_write (v : Z) (s : RaceGameState) : RaceGameState :=
  emit (SaveBest v) (set_file (Some v) s).

Definition save_high_score (s : RaceGameState) : RaceGameState :=
  if score s <=? high_score s then s
  else let s := set_high_score (score s) s in
       let '(opened, s) := storage_file_open s in
       if opened then storage_file_write (high_score s) s else s.

(** ** Helpers *)

Definition lane_cx (lane : Z) : Z :=
  i16 (ROAD_LEFT + LANE_WIDTH ÷ 2 + lane * LANE_WIDTH).
Definition car_lx (lane : Z) : Z :=
  i16 (lane_cx lane - CAR_W ÷ 2).

(** ** Particles *)

Definition spawn_particles (cx cy : Z) (s : RaceGameState) : RaceGameState :=
  for_loop MAX_PARTICLES (fun i s =>
    let '(r1, s) := rand s in
    let '(r2, s) := rand s in
    let '(r3, s) := rand s in
    set_particles
      (<[i := {| pt_x := cx; pt_y := cy;
                 pt_dx := i8 (Z.rem r1 7 - 3);
                 pt_dy := i8 (Z.rem r2 7 - 3);
                 pt_life := u8 (8 + Z.rem r3 5) |}]> (particles s)) s) s.

Definition update_particles (s : RaceGameState) : RaceGameState :=
  for_loop MAX_PARTICLES (fun i s =>
    match particles s !! i with
    | Some p =>
        if 0 <? pt_life p then
          set_particles
            (<[i := {| pt_x := i16 (pt_x p + pt_dx p);
                       pt_y := i16 (pt_y p + pt_dy p);
                       pt_dx := pt_dx p; pt_dy := pt_dy p;
                       pt_life := u8 (pt_life p - 1) |}]> (particles s)) s
        else s
    | None => s
    end) s.

(** ** Init *)

Definition init_scenery (s : RaceGameState) : RaceGameState :=
  for_loop MAX_SCENERY (fun i s =>
    let '(r1, s) := rand s in
    let '(r2, s) := rand s in
    let '(r3, s) := rand s in
    set_scenery
      (<[i := {| sc_y := i16 (Z.rem r1 SCREEN_H);
                 sc_side := i8 (Z.rem r2 2);
                 sc_type := i8 (Z.rem r3 2) |}]> (scenery s)) s) s.

Definition kill_obstacle (o : Obstacle) : Obstacle :=
  {| obs_lane := obs_lane o; obs_y := obs_y o; obs_alive := false;
     obs_type := obs_type o |}.
Definition kill_coin (c : Coin) : Coin :=
  {| coin_lane := coin_lane c; coin_y := coin_y c; coin_alive := false |}.
Definition kill_powerup (p : PowerUp) : PowerUp :=
  {| pw_lane := pw_lane p; pw_y := pw_y p; pw_alive := false;
     pw_type := pw_type p |}.
Definition kill_particle (p : Particle) : Particle :=
  {| pt_x := pt_x p; pt_y := pt_y p; pt_dx := pt_dx p; pt_dy := pt_dy p;
     pt_life := 0 |}.

Definition game_init (s : RaceGameState) : RaceGameState :=
  let s := set_state StatePlaying s in
  let s := set_player_lane 1 s in
  let s := set_score 0 s in
  let s := set_level 0 s in
  let s := set_lives INITIAL_LIVES s in
  let s := set_speed (diff_speed (difficulty s)) s in
  let s := set_tick_count 0 s in
  let s := set_road_scroll 0 s in
  let s := set_invincible_ticks 0 s in
  let s := set_shield_ticks 0 s in
  let s := set_magnet_ticks 0 s in
  let s := set_combo 0 s in
  let s := set_combo_display 0 s in
  let s := for_loop MAX_OBS (fun i s =>
    set_obstacles (alter kill_obstacle i (obstacles s)) s) s in
  let s := for_loop MAX_COINS (fun i s =>
    set_coins (alter kill_coin i (coins s)) s) s in
  let s := for_loop MAX_POWERUPS (fun i s =>
    set_powerups (alter kill_powerup i (powerups s)) s) s in
  let s := for_loop MAX_PARTICLES (fun i s =>
    set_particles (alter kill_particle i (particles s)) s) s in
  let s := init_scenery s in
  furi_timer_start (speed s) s.

(** ** Collision *)

(** The hitbox of an obstacle, as [check_collision] computes it: left
    edge [ox], width [ow], height [oh]. *)
Definition obs_ox (o : Obstacle) : Z :=
  match obs_type o with
  | ObsTruck => i16 (car_lx (obs_lane o) - 5)
  | ObsMoto => i16 (car_lx (obs_lane o) + 2)
  | ObsSedan => car_lx (obs_lane o)
  end.
Definition obs_ow (t : ObsType) : Z :=
  match t with ObsTruck => 20 | ObsMoto => 6 | ObsSedan => CAR_W end.
Definition obs_oh (t : ObsType) : Z :=
  match t with ObsTruck => 16 | ObsMoto => 10 | ObsSedan => 12 end.

Definition hits (px : Z) (o : Obstacle) : bool :=
  (px <? obs_ox o + obs_ow (obs_type o)) && (obs_ox o <? px + CAR_W) &&
  (PLAYER_Y <? obs_y o + obs_oh (obs_type o)) &&
  (obs_y o <? PLAYER_Y + CAR_H).

(** The loop returns [true] at the first live obstacle that overlaps. *)
Definition check_collision (s : RaceGameState) : bool :=
  let px := car_lx (player_lane s) in
  existsb (fun i =>
    match obstacles s !! i with
    | Some o => obs_alive o && hits px o
    | None => false
    end) (seq 0 MAX_OBS).

(** ** Coin / power-up collection *)

(** Overlap of the player with an 8x8 box whose corner is at lane [lane],
    offset [y]. *)
Definition touches (px lane y : Z) : bool :=
  let cx := car_lx lane in
  (px <? cx + 8) && (cx <? px + CAR_W) &&
  (PLAYER_Y <? y + 8) && (y <? PLAYER_Y + CAR_H).

Definition magnet_pull (s : RaceGameState) (c : Coin) : bool :=
  (0 <? magnet_ticks s) && (Z.abs (coin_y c - PLAYER_Y) <? 30).

(** One iteration of the coin loop. *)
Definition coin_step (px : Z) (i : nat) (s : RaceGameState) : RaceGameState :=
  match coins s !! i with
  | None => s
  | Some c =>
      if negb (coin_alive c) then s
      else
        let pull := magnet_pull s c in
        let touch := touches px (coin_lane c) (coin_y c) in
        if touch || pull then
          if pull && negb touch then
            let y := i16 (coin_y c + (if coin_y c <? PLAYER_Y then 4 else -4)) in
            let lane :=
              if coin_lane c <? player_lane s then i8 (coin_lane c + 1)
              else if player_lane s <? coin_lane c then i8 (coin_lane c - 1)
              else coin_lane c in
            set_coins
              (<[i := {| coin_lane := lane; coin_y := y;
                         coin_alive := coin_alive c |}]> (coins s)) s
          else
            let s := set_coins (<[i := kill_coin c]> (coins s)) s in
            let s := set_combo (u8 (combo s + 1)) s in
            let s := set_combo_display 15 s in
            let pts := u32 (25 * (if 1 <? combo s then combo s else 1)) in
            let s := set_score (u32 (score s + pts)) s in
            play_sound (1200 + combo s * 100) 25 s
        else s
  end.

(** One iteration of the power-up loop. *)
Definition powerup_step (px : Z) (i : nat) (s : RaceGameState)
    : RaceGameState :=
  match powerups s !! i with
  | None => s
  | Some p =>
      if negb (pw_alive p) then s
      else if touches px (pw_lane p) (pw_y p) then
        let s := set_powerups (<[i := kill_powerup p]> (powerups s)) s in
        let s := play_sound 660 40 s in
        match pw_type p with
        | PwShield => set_shield_ticks 50 s
        | PwMagnet => set_magnet_ticks 60 s
        | PwFuel =>
            if lives s <? MAX_LIVES then set_lives (u8 (lives s + 1)) s
            else s
        end
      else s
  end.

Definition check_collections (s : RaceGameState) : RaceGameState :=
  let px := car_lx (player_lane s) in
  let s := for_loop MAX_COINS (coin_step px) s in
  for_loop MAX_POWERUPS (powerup_step px) s.

(** ** Spawning *)

Definition PowerUpType_of_Z (z : Z) : PowerUpType :=
  if z =? 0 then PwShield else if z =? 1 then PwMagnet else PwFuel.

(** The attributes [spawn_obstacle] gives the slot it has found: the lane
    draw first, then the boss draw only when the level allows a boss, then
    the class draw only when no boss was chosen. *)
Definition new_obstacle (s : RaceGameState) : Obstacle * RaceGameState :=
  let '(r1, s) := rand s in
  let lane := i8 (Z.rem r1 LANE_COUNT) in
  if (0 <? level s) && (Z.rem (level s) 5 =? 0) then
    let '(r2, s) := rand s in
    if Z.rem r2 4 =? 0 then
      ({| obs_lane := 1; obs_y := -18; obs_alive := true;
          obs_type := ObsTruck |}, s)
    else
      let '(r3, s) := rand s in
      ({| obs_lane := lane; obs_y := -18; obs_alive := true;
          obs_type := if Z.rem r3 3 =? 0 then ObsMoto else ObsSedan |}, s)
  else
    let '(r3, s) := rand s in
    ({| obs_lane := lane; obs_y := -18; obs_alive := true;
        obs_type := if Z.rem r3 3 =? 0 then ObsMoto else ObsSedan |}, s).

(** The slot scan with its [break]: [idx] is the list of indices still to
    visit. *)
Fixpoint spawn_obstacle_from (idx : list nat) (s : RaceGameState)
    : RaceGameState :=
  match idx with
  | [] => s
  | i :: rest =>
      match obstacles s !! i with
      | Some o =>
          if obs_alive o then spawn_obstacle_from rest s
          else
            let '(o', s) := new_obstacle s in
            set_obstacles (<[i := o']> (obstacles s)) s
      | None => s
      end
  end.

Definition spawn_obstacle (s : RaceGameState) : RaceGameState :=
  spawn_obstacle_from (seq 0 MAX_OBS) s.

Definition new_coin (s : RaceGameState) : Coin * RaceGameState :=
  let '(r, s) := rand s in
  ({| coin_lane := i8 (Z.rem r LANE_COUNT); coin_y := -12;
      coin_alive := true |}, s).

Fixpoint spawn_coin_from (idx : list nat) (s : RaceGameState)
    : RaceGameState :=
  match idx with
  | [] => s
  | i :: rest =>
      match coins s !! i with
      | Some c =>
          if coin_alive c then spawn_coin_from rest s
          else
            let '(c', s) := new_coin s in
            set_coins (<[i := c']> (coins s)) s
      | None => s
      end
  end.

Definition spawn_coin (s : RaceGameState) : RaceGameState :=
  spawn_coin_from (seq 0 MAX_COINS) s.

Definition new_powerup (s : RaceGameState) : PowerUp * RaceGameState :=
  let '(r1, s) := rand s in
  let '(r2, s) := rand s in
  ({| pw_lane := i8 (Z.rem r1 LANE_COUNT); pw_y := -12; pw_alive := true;
      pw_type := PowerUpType_of_Z (Z.rem r2 3) |}, s).

Fixpoint spawn_powerup_from (idx : list nat) (s : RaceGameState)
    : RaceGameState :=
  match idx with
  | [] => s
  | i :: rest =>
      match powerups s !! i with
      | Some p =>
          if pw_alive p then spawn_powerup_from rest s
          else
            let '(p', s) := new_powerup s in
            set_powerups (<[i := p']> (powerups s)) s
      | None => s
      end
  end.

Definition spawn_powerup (s : RaceGameState) : RaceGameState :=
  spawn_powerup_from (seq 0 MAX_POWERUPS) s.

(** ** Game tick *)

(** Tick counter, road scroll and the four countdowns. *)
Definition tick_counters (s : RaceGameState) : RaceGameState :=
  let s := set_tick_count (u32 (tick_count s + 1)) s in
  let s := set_road_scroll (i8 (road_scroll s + 3)) s in
  let s := if DASH_TOTAL <=? road_scroll s
           then set_road_scroll (i8 (road_scroll s - DASH_TOTAL)) s else s in
  let s := if 0 <? invincible_ticks s
           then set_invincible_ticks (u8 (invincible_ticks s - 1)) s else s in
  let s := if 0 <? shield_ticks s
           then set_shield_ticks (u8 (shield_ticks s - 1)) s else s in
  let s := if 0 <? magnet_ticks s
           then set_magnet_ticks (u8 (magnet_ticks s - 1)) s else s in
  if 0 <? combo_display s
  then set_combo_display (u8 (combo_display s - 1)) s else s.

Definition scenery_step (i : nat) (s : RaceGameState) : RaceGameState :=
  match scenery s !! i with
  | None => s
  | Some sc =>
      let y := i16 (sc_y sc + 2) in
      if SCREEN_H + 5 <? y then
        let '(r1, s) := rand s in
        let '(r2, s) := rand s in
        let '(r3, s) := rand s in
        set_scenery
          (<[i := {| sc_y := i16 (- Z.rem r1 20);
                     sc_side := i8 (Z.rem r2 2);
                     sc_type := i8 (Z.rem r3 2) |}]> (scenery s)) s
      else
        set_scenery
          (<[i := {| sc_y := y; sc_side := sc_side sc;
                     sc_type := sc_type sc |}]> (scenery s)) s
  end.

Definition move_scenery (s : RaceGameState) : RaceGameState :=
  for_loop MAX_SCENERY scenery_step s.

(** Per-tick displacement of an obstacle and the height used by the
    retirement test of the motion loop. *)
Definition obs_move (spd : Z) (t : ObsType) : Z :=
  let move := spd in
  let move := match t with ObsMoto => move + 1 | _ => move end in
  match t with ObsTruck => move - 1 | _ => move end.
Definition obs_exit_h (t : ObsType) : Z :=
  match t with ObsTruck => 16 | _ => 12 end.

Definition obstacle_step (spd : Z) (i : nat) (s : RaceGameState)
    : RaceGameState :=
  match obstacles s !! i with
  | None => s
  | Some o =>
      if negb (obs_alive o) then s
      else
        let y := i16 (obs_y o + obs_move spd (obs_type o)) in
        if SCREEN_H + obs_exit_h (obs_type o) <? y then
          let s := set_obstacles
            (<[i := {| obs_lane := obs_lane o; obs_y := y;
                       obs_alive := false; obs_type := obs_type o |}]>
               (obstacles s)) s in
          set_score (u32 (score s + 10)) s
        else
          set_obstacles
            (<[i := {| obs_lane := obs_lane o; obs_y := y;
                       obs_alive := obs_alive o; obs_type := obs_type o |}]>
               (obstacles s)) s
  end.

Definition coin_move_step (spd : Z) (i : nat) (s : RaceGameState)
    : RaceGameState :=
  match coins s !! i with
  | None => s
  | Some c =>
      if coin_alive c then
        let y := i16 (coin_y c + spd) in
        set_coins
          (<[i := {| coin_lane := coin_lane c; coin_y := y;
                     coin_alive := if SCREEN_H <? y then false
                                   else coin_alive c |}]> (coins s)) s
      else s
  end.

Definition powerup_move_step (spd : Z) (i : nat) (s : RaceGameState)
    : RaceGameState :=
  match powerups s !! i with
  | None => s
  | Some p =>
      if pw_alive p then
        let y := i16 (pw_y p + spd) in
        set_powerups
          (<[i := {| pw_lane := pw_lane p; pw_y := y;
                     pw_alive := if SCREEN_H <? y then false else pw_alive p;
                     pw_type := pw_type p |}]> (powerups s)) s
      else s
  end.

(** The three motion loops; [spd] is computed once, before the first. *)
Definition move_entities (s : RaceGameState) : RaceGameState :=
  let spd := 3 + level s ÷ 2 in
  let s := for_loop MAX_OBS (obstacle_step spd) s in
  let s := for_loop MAX_COINS (coin_move_step spd) s in
  for_loop MAX_POWERUPS (powerup_move_step spd) s.

Definition spawn_phase (s : RaceGameState) : RaceGameState :=
  let si := diff_spawn (difficulty s) in
  let s := if tick_count s mod si =? 0 then spawn_obstacle s else s in
  let s := if tick_count s mod 18 =? 0 then spawn_coin s else s in
  if tick_count s mod 60 =? 0 then spawn_powerup s else s.

(** The collision block, in three pieces: what every registered collision
    does, what the game-over branch adds, and the block itself.  The
    boolean is [true] when the block ends with the [return] of the
    game-over branch. *)
Definition crash (s : RaceGameState) : RaceGameState :=
  let s := set_lives (u8 (lives s - 1)) s in
  let s := set_combo 0 s in
  let s := spawn_particles (i16 (car_lx (player_lane s) + CAR_W ÷ 2))
                           (i16 (PLAYER_Y + CAR_H ÷ 2)) s in
  let s := vibrate 80 s in
  play_sound 100 80 s.

Definition game_over (s : RaceGameState) : RaceGameState :=
  let s := set_state StateGameOver s in
  let s := furi_timer_stop s in
  let s := vibrate 200 s in
  let s := play_sound 80 200 s in
  save_high_score s.

Definition collision_block (s : RaceGameState) : RaceGameState * bool :=
  if (invincible_ticks s =? 0) && (shield_ticks s =? 0) && check_collision s
  then
    let s := crash s in
    if lives s =? 0 then (game_over s, true)
    else (set_invincible_ticks 20 s, false)
  else (s, false).

Definition level_up (s : RaceGameState) : RaceGameState :=
  let nl := u8 (score s / 200) in
  let nl := if 9 <? nl then 9 else nl in
  if level s <? nl then
    let s := set_level nl s in
    let min_spd := diff_min_speed (difficulty s) in
    let s := set_speed (u16 (diff_speed (difficulty s) - level s * 8)) s in
    let s := if speed s <? min_spd then set_speed min_spd s else s in
    let s := furi_timer_stop s in
    let s := furi_timer_start (speed s) s in
    play_sound 880 40 s
  else s.

(** Everything [game_tick] does before the collision block. *)
Definition tick_prefix (s : RaceGameState) : RaceGameState :=
  let s := tick_counters s in
  let s := update_particles s in
  let s := move_scenery s in
  let s := move_entities s in
  let s := spawn_phase s in
  check_collections s.

Definition game_tick (s : RaceGameState) : RaceGameState :=
  match state s with
  | StatePlaying =>
      let '(s, returned) := collision_block (tick_prefix s) in
      if returned then s else level_up s
  | _ => s
  end.

(** ** Main loop *)

Inductive InputKey :=
| InputKeyUp | InputKeyDown | InputKeyRight | InputKeyLeft
| InputKeyOk | InputKeyBack.
Inductive InputType :=
| InputTypePress | InputTypeRelease | InputTypeShort | InputTypeLong
| InputTypeRepeat.
Inductive GameEvent :=
| EventTypeTick
| EventTypeKey (ty : InputType) (key : InputKey).

Definition next_difficulty (d : Difficulty) : Difficulty :=
  match d with
  | DiffEasy => DiffNormal | DiffNormal => DiffHard | DiffHard => DiffEasy
  end.

Definition is_playing (s : RaceGameState) : bool :=
  match state s with StatePlaying => true | _ => false end.

(** A pressed or repeated key.  [None] is [running = false]. *)
Definition handle_key (key : InputKey) (s : RaceGameState)
    : option RaceGameState :=
  match key with
  | InputKeyBack =>
      match state s with
      | StatePlaying => Some (set_state StateMenu (furi_timer_stop s))
      | _ => None
      end
  | InputKeyOk =>
      match state s with
      | StateMenu =>
          if menu_idx s =? 0 then Some (game_init s)
          else if menu_idx s =? 1 then Some (set_sound_on (negb (sound_on s)) s)
          else if menu_idx s =? 2
               then Some (set_night_mode (negb (night_mode s)) s)
          else if menu_idx s =? 3
               then Some (set_difficulty (next_difficulty (difficulty s)) s)
          else Some s
      | StateGameOver => Some (set_state StateMenu s)
      | StatePlaying => Some s
      end
  | InputKeyUp =>
      match state s with
      | StateMenu =>
          let s := set_menu_idx (i8 (menu_idx s - 1)) s in
          Some (if menu_idx s <? 0 then set_menu_idx 3 s else s)
      | _ => Some s
      end
  | InputKeyDown =>
      match state s with
      | StateMenu => Some (set_menu_idx (i8 (Z.rem (menu_idx s + 1) 4)) s)
      | _ => Some s
      end
  | InputKeyLeft =>
      if is_playing s && (0 <? player_lane s) then
        Some (play_sound 440 12 (set_player_lane (i8 (player_lane s - 1)) s))
      else Some s
  | InputKeyRight =>
      if is_playing s && (player_lane s <? LANE_COUNT - 1) then
        Some (play_sound 440 12 (set_player_lane (i8 (player_lane s + 1)) s))
      else Some s
  end.

(** One turn of the event loop of [race_game_app]. *)
Definition handle_event (ev : GameEvent) (s : RaceGameState)
    : option RaceGameState :=
  match ev with
  | EventTypeTick => Some (game_tick s)
  | EventTypeKey InputTypePress key | EventTypeKey InputTypeRepeat key =>
      handle_key key s
  | EventTypeKey _ _ => Some s
  end.

(** The state [race_game_app] enters its loop with: the struct zeroed by
    [memset], the defaults assigned, and [load_high_score] run, which
    leaves the high score at 0 unless the file exists and could be opened
    and then reads it from the file.  [stored] is the content of the
    file, [None] when the file does not exist; [opens] gives the outcomes
    of the calls of [storage_file_open], the first of which is the call of
    [load_high_score]. *)
Definition race_game_start (stored : option Z) (opens : nat -> bool)
    (src : nat -> N) : RaceGameState :=
  {| state := StateMenu; player_lane := 0; score := 0;
     high_score := match stored with
                   | Some v => if opens 0%nat then v else 0
                   | None => 0
                   end;
     level := 0; lives := INITIAL_LIVES; speed := 0; tick_count := 0;
     road_scroll := 0; night_mode := false; sound_on := true; menu_idx := 0;
     difficulty := DiffNormal; invincible_ticks := 0; shield_ticks := 0;
     magnet_ticks := 0; combo := 0; combo_display := 0;
     obstacles := replicate MAX_OBS
       {| obs_lane := 0; obs_y := 0; obs_alive := false;
          obs_type := ObsMoto |};
     coins := replicate MAX_COINS
       {| coin_lane := 0; coin_y := 0; coin_alive := false |};
     powerups := replicate MAX_POWERUPS
       {| pw_lane := 0; pw_y := 0; pw_alive := false; pw_type := PwShield |};
     scenery := replicate MAX_SCENERY
       {| sc_y := 0; sc_side := 0; sc_type := 0 |};
     particles := replicate MAX_PARTICLES
       {| pt_x := 0; pt_y := 0; pt_dx := 0; pt_dy := 0; pt_life := 0 |};
     timer := None; rand_src := src; rand_pos := 0; cues := [];
     file := stored; open_src := opens; open_pos := 1 |}.

(** The states the event loop can be in. *)
Inductive reachable : RaceGameState -> Prop :=
| reach_start stored opens src :
    reachable (race_game_start stored opens src)
| reach_event ev s s' :
    reachable s -> handle_event ev s = Some s' -> reachable s'.

(** * Vocabulary of the statements *)

(** Every slot of a pool is in use. *)
Definition pool_full {A} (alive : A -> bool) (pool : list A) : Prop :=
  forall i x, pool !! i = Some x -> alive x = true.

(** Slot [i] is the first free slot of a pool. *)
Definition first_free {A} (alive : A -> bool) (pool : list A) (i : nat)
    : Prop :=
  (exists x, pool !! i = Some x /\ alive x = false) /\
  forall j, (j < i)%nat -> exists y, pool !! j = Some y /\ alive y = true.

(** The value [rand()] returns on its [k]-th next call. *)
Definition draw (s : RaceGameState) (k : nat) : Z :=
  Z.of_N (rand_src s (rand_pos s + k)%nat).

(** ** Sample states *)

Definition sedan (lane y : Z) (alive : bool) : Obstacle :=
  {| obs_lane := lane; obs_y := y; obs_alive := alive; obs_type := ObsSedan |}.
Definition coin_at (lane y : Z) (alive : bool) : Coin :=
  {| coin_lane := lane; coin_y := y; coin_alive := alive |}.
Definition powerup_at (lane y : Z) (alive : bool) (t : PowerUpType)
    : PowerUp :=
  {| pw_lane := lane; pw_y := y; pw_alive := alive; pw_type := t |}.

(** A session in play as [game_init] leaves it (normal difficulty, the
    generator returning 0 forever, no high-score file yet and a storage
    that can always be opened), with the given pools. *)
Definition playing (os : list Obstacle) (cs : list Coin) (ps : list PowerUp)
    : RaceGameState :=
  {| state := StatePlaying; player_lane := 1; score := 0; high_score := 0;
     level := 0; lives := INITIAL_LIVES; speed := 120; tick_count := 0;
     road_scroll := 0; night_mode := false; sound_on := true; menu_idx := 0;
     difficulty := DiffNormal; invincible_ticks := 0; shield_ticks := 0;
     magnet_ticks := 0; combo := 0; combo_display := 0;
     obstacles := os; coins := cs; powerups := ps;
     scenery := replicate MAX_SCENERY {| sc_y := 0; sc_side := 0; sc_type := 0 |};
     particles := replicate MAX_PARTICLES
       {| pt_x := 0; pt_y := 0; pt_dx := 0; pt_dy := 0; pt_life := 0 |};
     timer := Some 120; rand_src := fun _ => 0%N; rand_pos := 0; cues := [];
     file := None; open_src := fun _ => true; open_pos := 0 |}.

Definition no_obstacles : list Obstacle := replicate MAX_OBS (sedan 0 0 false).
Definition no_coins : list Coin := replicate MAX_COINS (coin_at 0 0 false).
Definition no_powerups : list PowerUp :=
  replicate MAX_POWERUPS (powerup_at 0 0 false PwShield).

(** The level allows a boss truck. *)
Definition boss_allowed (s : RaceGameState) : bool :=
  (0 <? level s) && (Z.rem (level s) 5 =? 0).

(** Every live truck of a pool is in the center lane. *)
Definition centered (os : list Obstacle) : Prop :=
  forall i o, os !! i = Some o ->
    obs_alive o = true -> obs_type o = ObsTruck -> obs_lane o = 1.

Definition truck (lane y : Z) : Obstacle :=
  {| obs_lane := lane; obs_y := y; obs_alive := true; obs_type := ObsTruck |}.

(** "A hitbox spanning two lane-widths", read as a width. *)
Definition spans_two_lane_widths (o : Obstacle) : Prop :=
  obs_ow (obs_type o) = 2 * LANE_WIDTH.

(** A session at level 5, where the boss may appear; every draw is 0. *)
Definition level_five : RaceGameState :=
  set_level 5 (set_score 1000 (playing no_obstacles no_coins no_powerups)).

(** A road with all five obstacle slots in use, and one whose first free
    slot is slot 1. *)
Definition busy_road : RaceGameState :=
  playing (replicate MAX_OBS (sedan 0 0 true)) no_coins no_powerups.
Definition gap_road : RaceGameState :=
  playing [sedan 0 0 true; sedan 0 0 false; sedan 0 0 false; sedan 2 40 true;
           sedan 1 9 true] no_coins no_powerups.

(** The test that guards the collision block. *)
Definition collision_registered (s : RaceGameState) : bool :=
  (invincible_ticks s =? 0) && (shield_ticks s =? 0) && check_collision s.

(** A particle of a burst centred at ([cx], [cy]). *)
Definition burst_at (cx cy : Z) (p : Particle) : Prop :=
  pt_x p = cx /\ pt_y p = cy /\
  -3 <= pt_dx p <= 3 /\ -3 <= pt_dy p <= 3 /\ 8 <= pt_life p <= 12.

(** Lives stay within bounds, and a session in play has a life left. *)
Definition lives_ok (s : RaceGameState) : Prop :=
  0 <= lives s <= MAX_LIVES /\ (state s = StatePlaying -> 1 <= lives s).

(** One life left, 190 points, an obstacle about to leave the screen and
    another one about to reach the player. *)
Definition last_life : RaceGameState :=
  set_lives 1 (set_score 190
    (playing [sedan 0 140 true; sedan 1 100 true; sedan 0 0 false;
              sedan 0 0 false; sedan 0 0 false] no_coins no_powerups)).

(** Three lives and two obstacles on the player at once. *)
Definition pile_up : RaceGameState :=
  playing [sedan 1 100 true; sedan 1 104 true; sedan 0 0 false;
           sedan 0 0 false; sedan 0 0 false] no_coins no_powerups.

(** The claim that every registered collision opens the grace window. *)
Definition grace_after_collision (s : RaceGameState) : Prop :=
  collision_registered s = true ->
  invincible_ticks (fst (collision_block s)) = 20.

(** An obstacle on the player, with three lives left. *)
Definition on_player : RaceGameState :=
  playing [sedan 1 103 true; sedan 0 0 false; sedan 0 0 false;
           sedan 0 0 false; sedan 0 0 false] no_coins no_powerups.

(** What the coin loop does to a coin the magnet pulls, and the points a
    collected coin is worth once the combo counter has been stepped. *)
Definition pulled (s : RaceGameState) (c : Coin) : Coin :=
  {| coin_lane :=
       if coin_lane c <? player_lane s then i8 (coin_lane c + 1)
       else if player_lane s <? coin_lane c then i8 (coin_lane c - 1)
       else coin_lane c;
     coin_y := i16 (coin_y c + (if coin_y c <? PLAYER_Y then 4 else -4));
     coin_alive := coin_alive c |}.

Definition coin_points (combo_after : Z) : Z :=
  25 * Z.max combo_after 1.

(** [s'] has the score of [s] plus a gain of at most [bound], in 32-bit
    arithmetic. *)
Definition score_gain (bound : Z) (s s' : RaceGameState) : Prop :=
  exists g, 0 <= g <= bound /\ score s' = u32 (score s + g).

(** The largest gain of one tick: five retirements and three coins at the
    highest combo. *)
Definition MAX_TICK_GAIN : Z := 10 * 5 + 25 * 255 * 3.

(** A coin on the player; two coins on the player; a coin level with the
    player in the next lane, and a coin above the player in the player's
    lane, both with the magnet on. *)
Definition coin_here : RaceGameState :=
  playing no_obstacles
    [coin_at 1 100 true; coin_at 0 0 false; coin_at 0 0 false] no_powerups.
Definition two_coins : RaceGameState :=
  playing no_obstacles
    [coin_at 1 100 true; coin_at 1 104 true; coin_at 0 0 false] no_powerups.
Definition magnet_level : RaceGameState :=
  set_magnet_ticks 5 (playing no_obstacles
    [coin_at 0 105 true; coin_at 0 0 false; coin_at 0 0 false] no_powerups).
Definition magnet_above : RaceGameState :=
  set_magnet_ticks 5 (playing no_obstacles
    [coin_at 1 80 true; coin_at 0 0 false; coin_at 0 0 false] no_powerups).
Definition magnet_side : RaceGameState :=
  set_magnet_ticks 5 (playing no_obstacles
    [coin_at 0 90 true; coin_at 0 0 false; coin_at 0 0 false] no_powerups).

(** The pull as the claim words it: four pixels toward the player's row
    and exactly one lane toward the player's lane. *)
Definition pulled_as_claimed (s : RaceGameState) (c c' : Coin) : Prop :=
  (coin_y c < PLAYER_Y /\ coin_y c' = coin_y c + 4 \/
   PLAYER_Y < coin_y c /\ coin_y c' = coin_y c - 4) /\
  (coin_lane c < player_lane s /\ coin_lane c' = coin_lane c + 1 \/
   player_lane s < coin_lane c /\ coin_lane c' = coin_lane c - 1).

(** What one pass of the motion loops does to an obstacle, a coin and a
    power-up, and whether it retires the obstacle. *)
Definition moved_obstacle (spd : Z) (o : Obstacle) : Obstacle :=
  if obs_alive o then
    let y := i16 (obs_y o + obs_move spd (obs_type o)) in
    {| obs_lane := obs_lane o; obs_y := y;
       obs_alive := negb (SCREEN_H + obs_exit_h (obs_type o) <? y);
       obs_type := obs_type o |}
  else o.

Definition moved_coin (spd : Z) (c : Coin) : Coin :=
  if coin_alive c then
    let y := i16 (coin_y c + spd) in
    {| coin_lane := coin_lane c; coin_y := y;
       coin_alive := negb (SCREEN_H <? y) |}
  else c.

Definition moved_powerup (spd : Z) (p : PowerUp) : PowerUp :=
  if pw_alive p then
    let y := i16 (pw_y p + spd) in
    {| pw_lane := pw_lane p; pw_y := y; pw_alive := negb (SCREEN_H <? y);
       pw_type := pw_type p |}
  else p.

Definition retires (spd : Z) (o : Obstacle) : bool :=
  obs_alive o &&
  (SCREEN_H + obs_exit_h (obs_type o) <?
   i16 (obs_y o + obs_move spd (obs_type o))).

Fixpoint retired_count (spd : Z) (os : list Obstacle) : Z :=
  match os with
  | [] => 0
  | o :: rest => (if retires spd o then 1 else 0) + retired_count spd rest
  end.

(** The retirement rule as the claim words it: the leading edge is past
    the bottom of the screen by the entity's own height. *)
Definition retires_as_claimed (edge height : Z) : bool :=
  SCREEN_H + height <? edge.

(** A coin and a sedan near the bottom of the screen. *)
Definition coin_low : RaceGameState :=
  playing no_obstacles
    [coin_at 0 126 true; coin_at 0 0 false; coin_at 0 0 false] no_powerups.
Definition sedan_low : RaceGameState :=
  playing [sedan 0 127 true; sedan 0 0 false; sedan 0 0 false;
           sedan 0 0 false; sedan 0 0 false] no_coins no_powerups.
Definition traffic : RaceGameState :=
  set_level 4 (set_score 800
    (playing [sedan 0 50 true; truck 1 143; sedan 0 0 false;
              {| obs_lane := 2; obs_y := 137; obs_alive := true;
                 obs_type := ObsMoto |}; sedan 2 10 true]
       [coin_at 0 126 true; coin_at 2 20 true; coin_at 0 0 false]
       [powerup_at 1 60 true PwFuel; powerup_at 0 0 false PwShield])).

(** 255 coins collected since the last hit, and one more on the player. *)
Definition long_combo : RaceGameState :=
  set_combo 255 (set_score 816000 (set_level 9 coin_here)).

(** An obstacle on the player and one tick of invincibility left. *)
Definition grace_ending : RaceGameState :=
  set_invincible_ticks 1
    (playing [sedan 1 100 true; sedan 0 0 false; sedan 0 0 false;
              sedan 0 0 false; sedan 0 0 false] no_coins no_powerups).

(** The application as it starts with no high-score file, and the first
    episode, entered with OK on the START item. *)
Definition fresh_start : RaceGameState :=
  race_game_start None (fun _ => true) (fun _ => 0%N).
Definition first_episode : RaceGameState := game_init fresh_start.

(** ** The event loop, case by case *)

(** The menu index after Up. *)
Definition menu_up (s : RaceGameState) : RaceGameState :=
  let s := set_menu_idx (i8 (menu_idx s - 1)) s in
  if menu_idx s <? 0 then set_menu_idx 3 s else s.

(** What a pressed or repeated key can do. *)
Inductive key_step (s : RaceGameState) : InputKey -> RaceGameState -> Prop :=
| key_pause :
    state s = StatePlaying ->
    key_step s InputKeyBack (set_state StateMenu (furi_timer_stop s))
| key_start :
    state s = StateMenu -> menu_idx s = 0 ->
    key_step s InputKeyOk (game_init s)
| key_sound :
    state s = StateMenu -> menu_idx s = 1 ->
    key_step s InputKeyOk (set_sound_on (negb (sound_on s)) s)
| key_night :
    state s = StateMenu -> menu_idx s = 2 ->
    key_step s InputKeyOk (set_night_mode (negb (night_mode s)) s)
| key_difficulty :
    state s = StateMenu -> menu_idx s = 3 ->
    key_step s InputKeyOk (set_difficulty (next_difficulty (difficulty s)) s)
| key_to_menu :
    state s = StateGameOver ->
    key_step s InputKeyOk (set_state StateMenu s)
| key_up :
    state s = StateMenu -> key_step s InputKeyUp (menu_up s)
| key_down :
    state s = StateMenu ->
    key_step s InputKeyDown (set_menu_idx (i8 (Z.rem (menu_idx s + 1) 4)) s)
| key_left :
    state s = StatePlaying -> 0 < player_lane s ->
    key_step s InputKeyLeft
      (play_sound 440 12 (set_player_lane (i8 (player_lane s - 1)) s))
| key_right :
    state s = StatePlaying -> player_lane s < LANE_COUNT - 1 ->
    key_step s InputKeyRight
      (play_sound 440 12 (set_player_lane (i8 (player_lane s + 1)) s))
| key_ignored key : key_step s key s.

Definition is_press (ty : InputType) : bool :=
  match ty with InputTypePress | InputTypeRepeat => true | _ => false end.

(** The tick interval the progression gives a level. *)
Definition speed_for (d : Difficulty) (lvl : Z) : Z :=
  Z.max (diff_speed d - 8 * lvl) (diff_min_speed d).

(** The moves of the session state machine, with their triggers. *)
Inductive session_move (ev : GameEvent) (s s' : RaceGameState) : Prop :=
| move_stay : state s' = state s -> session_move ev s s'
| move_start ty :
    state s = StateMenu -> state s' = StatePlaying -> menu_idx s = 0 ->
    s' = game_init s -> ev = EventTypeKey ty InputKeyOk ->
    is_press ty = true -> session_move ev s s'
| move_pause ty :
    state s = StatePlaying -> state s' = StateMenu -> timer s' = None ->
    ev = EventTypeKey ty InputKeyBack -> is_press ty = true ->
    session_move ev s s'
| move_game_over :
    state s = StatePlaying -> state s' = StateGameOver -> lives s' = 0 ->
    timer s' = None -> ev = EventTypeTick -> session_move ev s s'
| move_to_menu ty :
    state s = StateGameOver -> state s' = StateMenu ->
    ev = EventTypeKey ty InputKeyOk -> is_press ty = true ->
    session_move ev s s'.

(** The timer runs exactly while the session is in play, at the interval
    the level asks for. *)
Definition scheduled (s : RaceGameState) : Prop :=
  match state s with
  | StatePlaying =>
      timer s = Some (speed s) /\
      speed s = speed_for (difficulty s) (level s)
  | _ => timer s = None
  end.

(** The four countdowns within the values the code gives them. *)
Definition timers_ok (s : RaceGameState) : Prop :=
  0 <= invincible_ticks s <= 20 /\ 0 <= shield_ticks s <= 50 /\
  0 <= magnet_ticks s <= 60 /\ 0 <= combo_display s <= 15.

(** A countdown after one more tick. *)
Definition counted_down (t : Z) : Z := Z.max 0 (t - 1).

(** A countdown after a tick: one less, or restarted at [full]. *)
Definition restarts (full t t' : Z) : Prop :=
  t' = counted_down t \/ t' = full.

(** No slot among the first [n] of a pool is in use. *)
Definition pool_empty {A} (alive : A -> bool) (n : nat) (pool : list A)
    : Prop :=
  forall i x, (i < n)%nat -> pool !! i = Some x -> alive x = false.

Definition particle_alive (p : Particle) : bool := 0 <? pt_life p.

(** The lanes in which an obstacle overlaps a player in lane [pl]: its
    own lane, and for the truck the lanes next to it as well. *)
Definition lane_overlap (pl : Z) (o : Obstacle) : Prop :=
  match obs_type o with
  | ObsTruck => Z.abs (obs_lane o - pl) <= 1
  | _ => obs_lane o = pl
  end.

(** The state of a tick just before the pickups are looked at. *)
Definition before_pickups (s : RaceGameState) : RaceGameState :=
  spawn_phase (move_entities (move_scenery (update_particles
    (tick_counters s)))).

(** A shield about to reach the player, on an otherwise empty road with
    a car right on the player. *)
Definition shield_ahead : RaceGameState :=
  playing [sedan 1 100 true; sedan 0 0 false; sedan 0 0 false;
           sedan 0 0 false; sedan 0 0 false]
          no_coins
          [powerup_at 1 100 true PwShield; powerup_at 0 0 false PwShield].

Definition is_tone (c : Cue) : bool :=
  match c with Tone _ _ => true | _ => false end.

(** [s'] has the cues of [s] and before them the cues [new]. *)
Definition plays (new : list Cue) (s s' : RaceGameState) : Prop :=
  cues s' = new ++ cues s.

(** A pool of [n] slots whose entries all satisfy [ok]. *)
Definition pool_ok {A} (n : nat) (ok : A -> Prop) (pool : list A) : Prop :=
  length pool = n /\ Forall ok pool.

(** Where the entities of the road can be: in one of the three lanes,
    between their spawn offset above the screen and the offset at which
    the motion loop retires them plus one last move; a live one has not
    yet passed its retirement offset. *)
Definition obstacle_ok (o : Obstacle) : Prop :=
  0 <= obs_lane o < LANE_COUNT /\ -18 <= obs_y o <= 152 /\
  (obs_alive o = true -> obs_y o <= SCREEN_H + obs_exit_h (obs_type o)).
Definition coin_ok (c : Coin) : Prop :=
  0 <= coin_lane c < LANE_COUNT /\ -12 <= coin_y c <= 135 /\
  (coin_alive c = true -> coin_y c <= SCREEN_H).
Definition powerup_ok (p : PowerUp) : Prop :=
  0 <= pw_lane p < LANE_COUNT /\ -12 <= pw_y p <= 135 /\
  (pw_alive p = true -> pw_y p <= SCREEN_H).

(** A particle has at most 12 ticks to live and drifts by at most 3
    pixels per tick on each axis. *)
Definition particle_ok (p : Particle) : Prop :=
  0 <= pt_life p <= 12 /\ -3 <= pt_dx p <= 3 /\ -3 <= pt_dy p <= 3.

(** A roadside object is between 19 pixels above the screen and 5 below
    it, on one of the two sides, of one of the two kinds. *)
Definition scenery_ok (sc : Scenery) : Prop :=
  -19 <= sc_y sc <= SCREEN_H + 5 /\ 0 <= sc_side sc <= 1 /\
  0 <= sc_type sc <= 1.

(** A particle one tick later: a live one has moved by its drift and
    has one tick less to live, a spent one stays as it is. *)
Definition aged (p : Particle) : Particle :=
  if 0 <? pt_life p then
    {| pt_x := i16 (pt_x p + pt_dx p); pt_y := i16 (pt_y p + pt_dy p);
       pt_dx := pt_dx p; pt_dy := pt_dy p; pt_life := u8 (pt_life p - 1) |}
  else p.

(** A roadside object one tick later, unless it is put back above the
    screen: 2 pixels further down. *)
Definition scrolled (sc : Scenery) : Scenery :=
  {| sc_y := sc_y sc + 2; sc_side := sc_side sc; sc_type := sc_type sc |}.

(** The session [n] ticks later, with no key pressed in between. *)
Definition after_ticks (n : nat) (s : RaceGameState) : RaceGameState :=
  Nat.iter n game_tick s.

(** A car on the player, who has three ticks of invincibility left. *)
Definition just_hit : RaceGameState :=
  set_invincible_ticks 3
    (playing [sedan 1 100 true; sedan 0 0 false; sedan 0 0 false;
              sedan 0 0 false; sedan 0 0 false] no_coins no_powerups).

(** The application started with no high-score file on a storage that
    cannot be opened; a game started, the car moved to the left lane, and
    88 ticks played.  And the same run started with a best score of 500 in
    the file, on a storage that cannot be opened when the application
    starts but can be later. *)
Definition no_storage : RaceGameState :=
  race_game_start None (fun _ => false) (fun _ => 0%N).
Definition late_storage : RaceGameState :=
  race_game_start (Some 500) (fun k => negb (k =? 0)%nat) (fun _ => 0%N).
Definition left_lane_run (start : RaceGameState) : RaceGameState :=
  after_ticks 88 (play_sound 440 12 (set_player_lane 0 (game_init start))).

(** * Properties *)

(** ** Fixed-width arithmetic *)

Arguments u8 : simpl never.
Arguments u16 : simpl never.
Arguments u32 : simpl never.
Arguments i8 : simpl never.
Arguments i16 : simpl never.
Arguments for_loop : simpl never.

Lemma u8_range z : 0 <= u8 z <= 255.
Proof. unfold u8. pose proof (Z.mod_pos_bound z (2 ^ 8)). lia. Qed.

Lemma u8_small z : 0 <= z <= 255 -> u8 z = z.
Proof. intros. unfold u8. apply Z.mod_small. lia. Qed.

Lemma u32_range z : 0 <= u32 z < 2 ^ 32.
Proof. unfold u32. apply Z.mod_pos_bound. lia. Qed.

Lemma u32_small z : 0 <= z < 2 ^ 32 -> u32 z = z.
Proof. intros. unfold u32. apply Z.mod_small. lia. Qed.

Lemma u32_add_l a b : u32 (u32 a + b) = u32 (a + b).
Proof. unfold u32. apply Z.add_mod_idemp_l. lia. Qed.

Lemma i8_small z : -128 <= z <= 127 -> i8 z = z.
Proof. intros. unfold i8. rewrite Z.mod_small; lia. Qed.

Lemma i16_small z : -32768 <= z <= 32767 -> i16 z = z.
Proof. intros. unfold i16. rewrite Z.mod_small; lia. Qed.

(** ** Loops *)

Lemma for_loop_0 body s : for_loop 0 body s = s.
Proof. reflexivity. Qed.

Lemma for_loop_S n body s :
  for_loop (S n) body s = body n (for_loop n body s).
Proof. unfold for_loop. rewrite seq_S, foldl_app. reflexivity. Qed.

(** Induction over the iterations of a loop, with an invariant that may
    mention the number of iterations done. *)
Lemma for_loop_ind (P : nat -> RaceGameState -> Prop) n body s :
  P 0%nat s ->
  (forall i s', (i < n)%nat -> P i s' -> P (S i) (body i s')) ->
  P n (for_loop n body s).
Proof.
  intros H0 Hstep. induction n as [|n IH].
  - exact H0.
  - rewrite for_loop_S. apply Hstep; [lia|]. apply IH.
    intros i s' Hi. apply Hstep. lia.
Qed.

Lemma for_loop_inv (P : RaceGameState -> Prop) n body s :
  P s -> (forall i s', P s' -> P (body i s')) -> P (for_loop n body s).
Proof.
  intros H0 Hstep. apply (for_loop_ind (fun _ => P)); [exact H0|].
  intros i s' _. apply Hstep.
Qed.

(** A field that no iteration changes is unchanged by the loop. *)
Lemma for_loop_frame {A} (get : RaceGameState -> A) n body s :
  (forall i s', get (body i s') = get s') ->
  get (for_loop n body s) = get s.
Proof.
  intros Hstep. apply (for_loop_inv (fun s' => get s' = get s)); [done|].
  intros i s' <-. apply Hstep.
Qed.

Ltac step_cases := repeat (cbn in *; case_match); cbn in *.

Ltac unfold_steps :=
  unfold coin_step, powerup_step, scenery_step, obstacle_step,
    coin_move_step, powerup_move_step, new_obstacle, new_coin, new_powerup,
    save_high_score, storage_file_write, storage_file_open, play_sound,
    vibrate, emit, furi_timer_stop,
    furi_timer_start, rand in *.

Ltac frame_step := intros; unfold_steps; step_cases; try done.

Lemma fst_pair {A B} (a : A) (b : B) : fst (a, b) = a.
Proof. reflexivity. Qed.
Lemma snd_pair {A B} (a : A) (b : B) : snd (a, b) = b.
Proof. reflexivity. Qed.

(** ** Spawning into pools *)

Lemma new_obstacle_state s :
  exists k, snd (new_obstacle s) = set_rand_pos (rand_pos s + k)%nat s.
Proof.
  unfold new_obstacle, rand. simpl.
  repeat case_match; simpl;
    solve [ exists 2%nat; unfold set_rand_pos; simpl; f_equal; lia
          | exists 3%nat; unfold set_rand_pos; simpl; f_equal; lia ].
Qed.

Lemma new_obstacle_alive s : obs_alive (fst (new_obstacle s)) = true.
Proof. unfold new_obstacle, rand. simpl. repeat case_match; reflexivity. Qed.

Lemma new_coin_state s :
  snd (new_coin s) = set_rand_pos (rand_pos s + 1)%nat s.
Proof. unfold new_coin, rand, set_rand_pos. simpl. f_equal. lia. Qed.

Lemma new_powerup_state s :
  snd (new_powerup s) = set_rand_pos (rand_pos s + 2)%nat s.
Proof. unfold new_powerup, rand, set_rand_pos. simpl. f_equal. lia. Qed.

Lemma spawn_obstacle_from_full idx s :
  pool_full obs_alive (obstacles s) -> spawn_obstacle_from idx s = s.
Proof.
  intros Hfull. induction idx as [|i rest IH]; simpl; [done|].
  destruct (obstacles s !! i) as [o|] eqn:Hi; [|done].
  rewrite (Hfull i o Hi). exact IH.
Qed.

Lemma spawn_obstacle_from_first a n i s :
  first_free obs_alive (obstacles s) i -> (a <= i < a + n)%nat ->
  spawn_obstacle_from (seq a n) s =
  set_obstacles (<[i := fst (new_obstacle s)]> (obstacles s))
                (snd (new_obstacle s)).
Proof.
  intros [[x [Hx Hdead]] Hbefore]. revert a.
  induction n as [|n IH]; intros a Hrange; [lia|]. simpl.
  destruct (decide (a = i)) as [->|Hne].
  - rewrite Hx, Hdead. destruct (new_obstacle s) as [o' s'] eqn:Hnew. simpl.
    destruct (new_obstacle_state s) as [k Hk]. rewrite Hnew in Hk.
    simpl in Hk. subst s'. reflexivity.
  - destruct (Hbefore a) as [y [Hy Hlive]]; [lia|].
    rewrite Hy, Hlive. apply IH. lia.
Qed.

Lemma spawn_coin_from_full idx s :
  pool_full coin_alive (coins s) -> spawn_coin_from idx s = s.
Proof.
  intros Hfull. induction idx as [|i rest IH]; simpl; [done|].
  destruct (coins s !! i) as [c|] eqn:Hi; [|done].
  rewrite (Hfull i c Hi). exact IH.
Qed.

Lemma spawn_coin_from_first a n i s :
  first_free coin_alive (coins s) i -> (a <= i < a + n)%nat ->
  spawn_coin_from (seq a n) s =
  set_coins (<[i := fst (new_coin s)]> (coins s)) (snd (new_coin s)).
Proof.
  intros [[x [Hx Hdead]] Hbefore]. revert a.
  induction n as [|n IH]; intros a Hrange; [lia|]. simpl.
  destruct (decide (a = i)) as [->|Hne].
  - rewrite Hx, Hdead. reflexivity.
  - destruct (Hbefore a) as [y [Hy Hlive]]; [lia|].
    rewrite Hy, Hlive. apply IH. lia.
Qed.

Lemma spawn_powerup_from_full idx s :
  pool_full pw_alive (powerups s) -> spawn_powerup_from idx s = s.
Proof.
  intros Hfull. induction idx as [|i rest IH]; simpl; [done|].
  destruct (powerups s !! i) as [p|] eqn:Hi; [|done].
  rewrite (Hfull i p Hi). exact IH.
Qed.

Lemma spawn_powerup_from_first a n i s :
  first_free pw_alive (powerups s) i -> (a <= i < a + n)%nat ->
  spawn_powerup_from (seq a n) s =
  set_powerups (<[i := fst (new_powerup s)]> (powerups s))
               (snd (new_powerup s)).
Proof.
  intros [[x [Hx Hdead]] Hbefore]. revert a.
  induction n as [|n IH]; intros a Hrange; [lia|]. simpl.
  destruct (decide (a = i)) as [->|Hne].
  - rewrite Hx, Hdead. reflexivity.
  - destruct (Hbefore a) as [y [Hy Hlive]]; [lia|].
    rewrite Hy, Hlive. apply IH. lia.
Qed.

Lemma spawn_phase_full s :
  pool_full obs_alive (obstacles s) -> pool_full coin_alive (coins s) ->
  pool_full pw_alive (powerups s) -> spawn_phase s = s.
Proof.
  intros Ho Hc Hp. unfold spawn_phase, spawn_obstacle, spawn_coin,
    spawn_powerup.
  rewrite (spawn_obstacle_from_full _ s Ho).
  replace (if tick_count s `mod` diff_spawn (difficulty s) =? 0 then s else s)
    with s by (by case_match).
  rewrite (spawn_coin_from_full _ s Hc).
  replace (if tick_count s `mod` 18 =? 0 then s else s)
    with s by (by case_match).
  rewrite (spawn_powerup_from_full _ s Hp). by case_match.
Qed.

Lemma tick_count_spawn_obstacle_from idx s :
  tick_count (spawn_obstacle_from idx s) = tick_count s.
Proof.
  induction idx as [|i rest IH]; simpl; [done|].
  destruct (obstacles s !! i) as [o|]; [|done].
  destruct (obs_alive o); [exact IH|].
  destruct (new_obstacle_state s) as [k Hk].
  destruct (new_obstacle s) as [o' s']. simpl in Hk. by subst s'.
Qed.

(** On a tick that is due for an obstacle only, the spawn phase is the
    obstacle spawn, whatever the pools hold. *)
Lemma spawn_phase_obstacle_only s :
  tick_count s mod diff_spawn (difficulty s) = 0 ->
  tick_count s mod 18 <> 0 -> tick_count s mod 60 <> 0 ->
  spawn_phase s = spawn_obstacle s.
Proof.
  intros Ho Hc Hp. unfold spawn_phase, spawn_obstacle. cbv zeta.
  apply Z.eqb_eq in Ho. apply Z.eqb_neq in Hc, Hp.
  rewrite Ho. cbv iota. rewrite tick_count_spawn_obstacle_from, Hc.
  cbv iota. by rewrite tick_count_spawn_obstacle_from, Hp.
Qed.

(** C9. In each of the three pools a spawn attempt fills the first slot
    whose active flag is clear: that slot receives the new, active entity
    and nothing else changes but the position of the random generator.
    When every slot of the pool is active the attempt returns the state it
    was given, generator included, and a whole spawn phase over three full
    pools does the same; the functions are total and have no error
    result, and whether a tick attempts a spawn depends on the tick
    counter alone. *)
Theorem spawn_fills_first_free_slot s :
  (pool_full obs_alive (obstacles s) -> spawn_obstacle s = s) /\
  (pool_full coin_alive (coins s) -> spawn_coin s = s) /\
  (pool_full pw_alive (powerups s) -> spawn_powerup s = s) /\
  (pool_full obs_alive (obstacles s) -> pool_full coin_alive (coins s) ->
   pool_full pw_alive (powerups s) -> spawn_phase s = s) /\
  (tick_count s mod diff_spawn (difficulty s) = 0 ->
   tick_count s mod 18 <> 0 -> tick_count s mod 60 <> 0 ->
   spawn_phase s = spawn_obstacle s) /\
  (forall i, (i < MAX_OBS)%nat -> first_free obs_alive (obstacles s) i ->
     exists o k, obs_alive o = true /\
       spawn_obstacle s =
       set_obstacles (<[i := o]> (obstacles s))
                     (set_rand_pos (rand_pos s + k)%nat s)) /\
  (forall i, (i < MAX_COINS)%nat -> first_free coin_alive (coins s) i ->
     exists c k, coin_alive c = true /\
       spawn_coin s =
       set_coins (<[i := c]> (coins s))
                 (set_rand_pos (rand_pos s + k)%nat s)) /\
  (forall i, (i < MAX_POWERUPS)%nat -> first_free pw_alive (powerups s) i ->
     exists p k, pw_alive p = true /\
       spawn_powerup s =
       set_powerups (<[i := p]> (powerups s))
                    (set_rand_pos (rand_pos s + k)%nat s)).
Proof.
  repeat split.
  - apply spawn_obstacle_from_full.
  - apply spawn_coin_from_full.
  - apply spawn_powerup_from_full.
  - apply spawn_phase_full.
  - apply spawn_phase_obstacle_only.
  - intros i Hi Hfree. destruct (new_obstacle_state s) as [k Hk].
    exists (fst (new_obstacle s)), k. split; [apply new_obstacle_alive|].
    rewrite <- Hk. apply spawn_obstacle_from_first; [done|]. lia.
  - intros i Hi Hfree. exists (fst (new_coin s)), 1%nat. split; [done|].
    rewrite <- new_coin_state. apply spawn_coin_from_first; [done|]. lia.
  - intros i Hi Hfree. exists (fst (new_powerup s)), 2%nat. split; [done|].
    rewrite <- new_powerup_state. apply spawn_powerup_from_first; [done|].
    lia.
Qed.

Lemma spawn_fills_first_free_slot_witness :
  spawn_obstacle busy_road = busy_road /\
  exists o k, obs_alive o = true /\
    spawn_obstacle gap_road =
    set_obstacles (<[1%nat := o]> (obstacles gap_road))
                  (set_rand_pos (rand_pos gap_road + k)%nat gap_road).
Proof.
  split.
  - apply (proj1 (spawn_fills_first_free_slot busy_road)).
    intros i x Hi. unfold busy_road, playing, obstacles in Hi.
    apply lookup_replicate_1 in Hi. destruct Hi as [-> _]. reflexivity.
  - apply (proj1 (proj2 (proj2 (proj2 (proj2 (proj2
             (spawn_fills_first_free_slot gap_road))))))).
    + unfold MAX_OBS. lia.
    + split.
      * exists (sedan 0 0 false). split; reflexivity.
      * intros j Hj. assert (j = 0%nat) as -> by lia.
        exists (sedan 0 0 true). split; reflexivity.
Defined.

(** ** Frame lemmas: what each phase leaves alone *)

Lemma spawn_obstacle_from_frame {A} (get : RaceGameState -> A) idx s :
  (forall v s', get (set_obstacles v s') = get s') ->
  (forall v s', get (set_rand_pos v s') = get s') ->
  get (spawn_obstacle_from idx s) = get s.
Proof.
  intros Ho Hr. induction idx as [|i rest IH]; simpl; [done|].
  destruct (obstacles s !! i) as [o|]; [|done].
  destruct (obs_alive o); [exact IH|].
  destruct (new_obstacle_state s) as [k Hk].
  destruct (new_obstacle s) as [o' s']. simpl in Hk. subst s'.
  by rewrite Ho, Hr.
Qed.

Lemma spawn_coin_from_frame {A} (get : RaceGameState -> A) idx s :
  (forall v s', get (set_coins v s') = get s') ->
  (forall v s', get (set_rand_pos v s') = get s') ->
  get (spawn_coin_from idx s) = get s.
Proof.
  intros Ho Hr. induction idx as [|i rest IH]; simpl; [done|].
  destruct (coins s !! i) as [c|]; [|done].
  destruct (coin_alive c); [exact IH|].
  by rewrite Ho, Hr.
Qed.

Lemma spawn_powerup_from_frame {A} (get : RaceGameState -> A) idx s :
  (forall v s', get (set_powerups v s') = get s') ->
  (forall v s', get (set_rand_pos v s') = get s') ->
  get (spawn_powerup_from idx s) = get s.
Proof.
  intros Ho Hr. induction idx as [|i rest IH]; simpl; [done|].
  destruct (powerups s !! i) as [p|]; [|done].
  destruct (pw_alive p); [exact IH|].
  by rewrite Ho, !Hr.
Qed.

Lemma spawn_obstacle_from_cons i rest s :
  spawn_obstacle_from (i :: rest) s =
  match obstacles s !! i with
  | Some o =>
      if obs_alive o then spawn_obstacle_from rest s
      else set_obstacles (<[i := fst (new_obstacle s)]>
                            (obstacles (snd (new_obstacle s))))
                         (snd (new_obstacle s))
  | None => s
  end.
Proof.
  cbn [spawn_obstacle_from]. destruct (obstacles s !! i) as [o|]; [|done].
  destruct (obs_alive o); [done|]. by destruct (new_obstacle s).
Qed.

Arguments car_lx : simpl never.
Arguments lane_cx : simpl never.
Arguments touches : simpl never.
Arguments magnet_pull : simpl never.
Arguments hits : simpl never.
Arguments check_collision : simpl never.
Arguments spawn_particles : simpl never.
Arguments update_particles : simpl never.
Arguments init_scenery : simpl never.
Arguments check_collections : simpl never.
Arguments move_scenery : simpl never.
Arguments move_entities : simpl never.
Arguments spawn_phase : simpl never.
Arguments tick_counters : simpl never.
Arguments tick_prefix : simpl never.
Arguments level_up : simpl never.
Arguments crash : simpl never.
Arguments game_over : simpl never.
Arguments collision_block : simpl never.
Arguments game_tick : simpl never.
Arguments game_init : simpl never.
Arguments spawn_obstacle_from : simpl never.
Arguments spawn_coin_from : simpl never.
Arguments spawn_powerup_from : simpl never.

(** *** Reading a field through assignments, by rewriting

    A field read [g (set_f v x)] is simplified with an equation proved for
    a variable [x] and then instantiated, so that the state expression it
    is applied to is never inspected. *)

Ltac is_setter f :=
  lazymatch f with
  | set_state => idtac
  | set_player_lane => idtac
  | set_score => idtac
  | set_high_score => idtac
  | set_level => idtac
  | set_lives => idtac
  | set_speed => idtac
  | set_tick_count => idtac
  | set_road_scroll => idtac
  | set_night_mode => idtac
  | set_sound_on => idtac
  | set_menu_idx => idtac
  | set_difficulty => idtac
  | set_invincible_ticks => idtac
  | set_shield_ticks => idtac
  | set_magnet_ticks => idtac
  | set_combo => idtac
  | set_combo_display => idtac
  | set_obstacles => idtac
  | set_coins => idtac
  | set_powerups => idtac
  | set_scenery => idtac
  | set_particles => idtac
  | set_timer => idtac
  | set_rand_pos => idtac
  | set_cues => idtac
  | set_file => idtac
  | set_open_pos => idtac
  end.

Ltac proj_set :=
  match goal with
  | |- context [?g (?set ?v ?x)] =>
      is_setter set;
      let H := fresh in
      first [ assert (H : forall v' x', g (set v' x') = g x') by reflexivity
            | assert (H : forall v' x', g (set v' x') = v') by reflexivity ];
      rewrite !H; clear H
  end.

Ltac helper_tac :=
  intros; unfold save_high_score, storage_file_write, storage_file_open,
    play_sound, vibrate, emit, furi_timer_stop, furi_timer_start;
  repeat case_match;
  solve [reflexivity | cbn in *; congruence].

(** The same for the library calls, when they do not write the field. *)
Ltac helper_frame :=
  match goal with
  | |- context [?g (play_sound ?f ?m ?x)] =>
      let H := fresh in
      assert (H : forall f' m' x', g (play_sound f' m' x') = g x')
        by helper_tac;
      rewrite !H; clear H
  | |- context [?g (vibrate ?m ?x)] =>
      let H := fresh in
      assert (H : forall m' x', g (vibrate m' x') = g x') by helper_tac;
      rewrite !H; clear H
  | |- context [?g (emit ?c ?x)] =>
      let H := fresh in
      assert (H : forall c' x', g (emit c' x') = g x') by helper_tac;
      rewrite !H; clear H
  | |- context [?g (furi_timer_stop ?x)] =>
      let H := fresh in
      assert (H : forall x', g (furi_timer_stop x') = g x') by helper_tac;
      rewrite !H; clear H
  | |- context [?g (furi_timer_start ?p ?x)] =>
      let H := fresh in
      assert (H : forall p' x', g (furi_timer_start p' x') = g x')
        by helper_tac;
      rewrite !H; clear H
  | |- context [?g (save_high_score ?x)] =>
      let H := fresh in
      assert (H : forall x', g (save_high_score x') = g x') by helper_tac;
      rewrite !H; clear H
  end.

Create Rewrite HintDb frame.

Ltac frame_rw :=
  repeat first [ proj_set | helper_frame | progress autorewrite with frame ].

(** Proves [get (phase s) = get s] when no assignment of the phase
    writes the field [get]. *)
Ltac solve_frame :=
  intros; cbv zeta;
  repeat first
    [ match goal with
      | |- ?x = ?y => constr_eq x y; reflexivity
      | |- ?get (for_loop ?n ?b ?s) = _ =>
          rewrite (for_loop_frame get n b s) by frame_step
      | |- ?get (spawn_particles ?x ?y ?s) = _ => unfold spawn_particles
      | |- ?get (spawn_obstacle_from ?idx ?s) = _ =>
          rewrite (spawn_obstacle_from_frame get idx s) by done
      | |- ?get (spawn_coin_from ?idx ?s) = _ =>
          rewrite (spawn_coin_from_frame get idx s) by done
      | |- ?get (spawn_powerup_from ?idx ?s) = _ =>
          rewrite (spawn_powerup_from_frame get idx s) by done
      end
    | progress unfold spawn_obstacle, spawn_coin, spawn_powerup
    | proj_set
    | helper_frame
    | case_match ].


Lemma state_tick_counters s : state (tick_counters s) = state s.
Proof. unfold tick_counters. solve_frame. Qed.
#[local] Hint Rewrite state_tick_counters : frame.

Lemma state_update_particles s : state (update_particles s) = state s.
Proof. unfold update_particles. solve_frame. Qed.
#[local] Hint Rewrite state_update_particles : frame.

Lemma state_move_scenery s : state (move_scenery s) = state s.
Proof. unfold move_scenery. solve_frame. Qed.
#[local] Hint Rewrite state_move_scenery : frame.

Lemma state_move_entities s : state (move_entities s) = state s.
Proof. unfold move_entities. solve_frame. Qed.
#[local] Hint Rewrite state_move_entities : frame.

Lemma state_spawn_phase s : state (spawn_phase s) = state s.
Proof. unfold spawn_phase. solve_frame. Qed.
#[local] Hint Rewrite state_spawn_phase : frame.

Lemma state_check_collections s : state (check_collections s) = state s.
Proof. unfold check_collections. solve_frame. Qed.
#[local] Hint Rewrite state_check_collections : frame.

Lemma state_level_up s : state (level_up s) = state s.
Proof. unfold level_up. solve_frame. Qed.
#[local] Hint Rewrite state_level_up : frame.

Lemma state_spawn_particles cx cy s : state (spawn_particles cx cy s) = state s.
Proof. unfold spawn_particles. solve_frame. Qed.
#[local] Hint Rewrite state_spawn_particles : frame.

Lemma state_init_scenery s : state (init_scenery s) = state s.
Proof. unfold init_scenery. solve_frame. Qed.
#[local] Hint Rewrite state_init_scenery : frame.

Lemma state_crash s : state (crash s) = state s.
Proof. unfold crash. solve_frame. Qed.
#[local] Hint Rewrite state_crash : frame.

Lemma lives_tick_counters s : lives (tick_counters s) = lives s.
Proof. unfold tick_counters. solve_frame. Qed.
#[local] Hint Rewrite lives_tick_counters : frame.

Lemma lives_update_particles s : lives (update_particles s) = lives s.
Proof. unfold update_particles. solve_frame. Qed.
#[local] Hint Rewrite lives_update_particles : frame.

Lemma lives_move_scenery s : lives (move_scenery s) = lives s.
Proof. unfold move_scenery. solve_frame. Qed.
#[local] Hint Rewrite lives_move_scenery : frame.

Lemma lives_move_entities s : lives (move_entities s) = lives s.
Proof. unfold move_entities. solve_frame. Qed.
#[local] Hint Rewrite lives_move_entities : frame.

Lemma lives_spawn_phase s : lives (spawn_phase s) = lives s.
Proof. unfold spawn_phase. solve_frame. Qed.
#[local] Hint Rewrite lives_spawn_phase : frame.

Lemma lives_level_up s : lives (level_up s) = lives s.
Proof. unfold level_up. solve_frame. Qed.
#[local] Hint Rewrite lives_level_up : frame.

Lemma lives_spawn_particles cx cy s : lives (spawn_particles cx cy s) = lives s.
Proof. unfold spawn_particles. solve_frame. Qed.
#[local] Hint Rewrite lives_spawn_particles : frame.

Lemma lives_init_scenery s : lives (init_scenery s) = lives s.
Proof. unfold init_scenery. solve_frame. Qed.
#[local] Hint Rewrite lives_init_scenery : frame.

Lemma lives_game_over s : lives (game_over s) = lives s.
Proof. unfold game_over. solve_frame. Qed.
#[local] Hint Rewrite lives_game_over : frame.

Lemma level_tick_counters s : level (tick_counters s) = level s.
Proof. unfold tick_counters. solve_frame. Qed.
#[local] Hint Rewrite level_tick_counters : frame.

Lemma level_update_particles s : level (update_particles s) = level s.
Proof. unfold update_particles. solve_frame. Qed.
#[local] Hint Rewrite level_update_particles : frame.

Lemma level_move_scenery s : level (move_scenery s) = level s.
Proof. unfold move_scenery. solve_frame. Qed.
#[local] Hint Rewrite level_move_scenery : frame.

Lemma level_move_entities s : level (move_entities s) = level s.
Proof. unfold move_entities. solve_frame. Qed.
#[local] Hint Rewrite level_move_entities : frame.

Lemma level_spawn_phase s : level (spawn_phase s) = level s.
Proof. unfold spawn_phase. solve_frame. Qed.
#[local] Hint Rewrite level_spawn_phase : frame.

Lemma level_check_collections s : level (check_collections s) = level s.
Proof. unfold check_collections. solve_frame. Qed.
#[local] Hint Rewrite level_check_collections : frame.

Lemma level_spawn_particles cx cy s : level (spawn_particles cx cy s) = level s.
Proof. unfold spawn_particles. solve_frame. Qed.
#[local] Hint Rewrite level_spawn_particles : frame.

Lemma level_init_scenery s : level (init_scenery s) = level s.
Proof. unfold init_scenery. solve_frame. Qed.
#[local] Hint Rewrite level_init_scenery : frame.

Lemma level_crash s : level (crash s) = level s.
Proof. unfold crash. solve_frame. Qed.
#[local] Hint Rewrite level_crash : frame.

Lemma level_game_over s : level (game_over s) = level s.
Proof. unfold game_over. solve_frame. Qed.
#[local] Hint Rewrite level_game_over : frame.

Lemma score_tick_counters s : score (tick_counters s) = score s.
Proof. unfold tick_counters. solve_frame. Qed.
#[local] Hint Rewrite score_tick_counters : frame.

Lemma score_update_particles s : score (update_particles s) = score s.
Proof. unfold update_particles. solve_frame. Qed.
#[local] Hint Rewrite score_update_particles : frame.

Lemma score_move_scenery s : score (move_scenery s) = score s.
Proof. unfold move_scenery. solve_frame. Qed.
#[local] Hint Rewrite score_move_scenery : frame.

Lemma score_spawn_phase s : score (spawn_phase s) = score s.
Proof. unfold spawn_phase. solve_frame. Qed.
#[local] Hint Rewrite score_spawn_phase : frame.

Lemma score_spawn_particles cx cy s : score (spawn_particles cx cy s) = score s.
Proof. unfold spawn_particles. solve_frame. Qed.
#[local] Hint Rewrite score_spawn_particles : frame.

Lemma score_init_scenery s : score (init_scenery s) = score s.
Proof. unfold init_scenery. solve_frame. Qed.
#[local] Hint Rewrite score_init_scenery : frame.

Lemma score_crash s : score (crash s) = score s.
Proof. unfold crash. solve_frame. Qed.
#[local] Hint Rewrite score_crash : frame.

Lemma score_game_over s : score (game_over s) = score s.
Proof. unfold game_over. solve_frame. Qed.
#[local] Hint Rewrite score_game_over : frame.

Lemma score_level_up s : score (level_up s) = score s.
Proof. unfold level_up. solve_frame. Qed.
#[local] Hint Rewrite score_level_up : frame.

Lemma obstacles_tick_counters s : obstacles (tick_counters s) = obstacles s.
Proof. unfold tick_counters. solve_frame. Qed.
#[local] Hint Rewrite obstacles_tick_counters : frame.

Lemma obstacles_update_particles s : obstacles (update_particles s) = obstacles s.
Proof. unfold update_particles. solve_frame. Qed.
#[local] Hint Rewrite obstacles_update_particles : frame.

Lemma obstacles_move_scenery s : obstacles (move_scenery s) = obstacles s.
Proof. unfold move_scenery. solve_frame. Qed.
#[local] Hint Rewrite obstacles_move_scenery : frame.

Lemma obstacles_check_collections s : obstacles (check_collections s) = obstacles s.
Proof. unfold check_collections. solve_frame. Qed.
#[local] Hint Rewrite obstacles_check_collections : frame.

Lemma obstacles_level_up s : obstacles (level_up s) = obstacles s.
Proof. unfold level_up. solve_frame. Qed.
#[local] Hint Rewrite obstacles_level_up : frame.

Lemma obstacles_spawn_particles cx cy s : obstacles (spawn_particles cx cy s) = obstacles s.
Proof. unfold spawn_particles. solve_frame. Qed.
#[local] Hint Rewrite obstacles_spawn_particles : frame.

Lemma obstacles_init_scenery s : obstacles (init_scenery s) = obstacles s.
Proof. unfold init_scenery. solve_frame. Qed.
#[local] Hint Rewrite obstacles_init_scenery : frame.

Lemma obstacles_crash s : obstacles (crash s) = obstacles s.
Proof. unfold crash. solve_frame. Qed.
#[local] Hint Rewrite obstacles_crash : frame.

Lemma obstacles_game_over s : obstacles (game_over s) = obstacles s.
Proof. unfold game_over. solve_frame. Qed.
#[local] Hint Rewrite obstacles_game_over : frame.

Lemma combo_level_up s : combo (level_up s) = combo s.
Proof. unfold level_up. solve_frame. Qed.
#[local] Hint Rewrite combo_level_up : frame.

Lemma combo_spawn_particles cx cy s : combo (spawn_particles cx cy s) = combo s.
Proof. unfold spawn_particles. solve_frame. Qed.
#[local] Hint Rewrite combo_spawn_particles : frame.

Lemma combo_game_over s : combo (game_over s) = combo s.
Proof. unfold game_over. solve_frame. Qed.
#[local] Hint Rewrite combo_game_over : frame.

Lemma invincible_ticks_level_up s : invincible_ticks (level_up s) = invincible_ticks s.
Proof. unfold level_up. solve_frame. Qed.
#[local] Hint Rewrite invincible_ticks_level_up : frame.

Lemma invincible_ticks_spawn_particles cx cy s : invincible_ticks (spawn_particles cx cy s) = invincible_ticks s.
Proof. unfold spawn_particles. solve_frame. Qed.
#[local] Hint Rewrite invincible_ticks_spawn_particles : frame.

Lemma invincible_ticks_crash s : invincible_ticks (crash s) = invincible_ticks s.
Proof. unfold crash. solve_frame. Qed.
#[local] Hint Rewrite invincible_ticks_crash : frame.

Lemma invincible_ticks_game_over s : invincible_ticks (game_over s) = invincible_ticks s.
Proof. unfold game_over. solve_frame. Qed.
#[local] Hint Rewrite invincible_ticks_game_over : frame.

Lemma particles_level_up s : particles (level_up s) = particles s.
Proof. unfold level_up. solve_frame. Qed.
#[local] Hint Rewrite particles_level_up : frame.

Lemma particles_game_over s : particles (game_over s) = particles s.
Proof. unfold game_over. solve_frame. Qed.
#[local] Hint Rewrite particles_game_over : frame.

Lemma high_score_level_up s : high_score (level_up s) = high_score s.
Proof. unfold level_up. solve_frame. Qed.
#[local] Hint Rewrite high_score_level_up : frame.

Lemma high_score_spawn_particles cx cy s : high_score (spawn_particles cx cy s) = high_score s.
Proof. unfold spawn_particles. solve_frame. Qed.
#[local] Hint Rewrite high_score_spawn_particles : frame.

Lemma high_score_crash s : high_score (crash s) = high_score s.
Proof. unfold crash. solve_frame. Qed.
#[local] Hint Rewrite high_score_crash : frame.

Lemma player_lane_spawn_particles cx cy s : player_lane (spawn_particles cx cy s) = player_lane s.
Proof. unfold spawn_particles. solve_frame. Qed.
#[local] Hint Rewrite player_lane_spawn_particles : frame.

Lemma player_lane_crash s : player_lane (crash s) = player_lane s.
Proof. unfold crash. solve_frame. Qed.
#[local] Hint Rewrite player_lane_crash : frame.

Lemma timer_spawn_particles cx cy s : timer (spawn_particles cx cy s) = timer s.
Proof. unfold spawn_particles. solve_frame. Qed.
#[local] Hint Rewrite timer_spawn_particles : frame.

Lemma timer_crash s : timer (crash s) = timer s.
Proof. unfold crash. solve_frame. Qed.
#[local] Hint Rewrite timer_crash : frame.

Lemma sound_on_spawn_particles cx cy s : sound_on (spawn_particles cx cy s) = sound_on s.
Proof. unfold spawn_particles. solve_frame. Qed.
#[local] Hint Rewrite sound_on_spawn_particles : frame.

Lemma cues_spawn_particles cx cy s : cues (spawn_particles cx cy s) = cues s.
Proof. unfold spawn_particles. solve_frame. Qed.
#[local] Hint Rewrite cues_spawn_particles : frame.

Lemma high_score_tick_counters s : high_score (tick_counters s) = high_score s.
Proof. unfold tick_counters. solve_frame. Qed.
#[local] Hint Rewrite high_score_tick_counters : frame.

Lemma high_score_update_particles s : high_score (update_particles s) = high_score s.
Proof. unfold update_particles. solve_frame. Qed.
#[local] Hint Rewrite high_score_update_particles : frame.

Lemma high_score_move_scenery s : high_score (move_scenery s) = high_score s.
Proof. unfold move_scenery. solve_frame. Qed.
#[local] Hint Rewrite high_score_move_scenery : frame.

Lemma high_score_move_entities s : high_score (move_entities s) = high_score s.
Proof. unfold move_entities. solve_frame. Qed.
#[local] Hint Rewrite high_score_move_entities : frame.

Lemma high_score_spawn_phase s : high_score (spawn_phase s) = high_score s.
Proof. unfold spawn_phase. solve_frame. Qed.
#[local] Hint Rewrite high_score_spawn_phase : frame.

Lemma high_score_check_collections s : high_score (check_collections s) = high_score s.
Proof. unfold check_collections. solve_frame. Qed.
#[local] Hint Rewrite high_score_check_collections : frame.

Lemma player_lane_tick_counters s : player_lane (tick_counters s) = player_lane s.
Proof. unfold tick_counters. solve_frame. Qed.
#[local] Hint Rewrite player_lane_tick_counters : frame.

Lemma player_lane_update_particles s : player_lane (update_particles s) = player_lane s.
Proof. unfold update_particles. solve_frame. Qed.
#[local] Hint Rewrite player_lane_update_particles : frame.

Lemma player_lane_move_scenery s : player_lane (move_scenery s) = player_lane s.
Proof. unfold move_scenery. solve_frame. Qed.
#[local] Hint Rewrite player_lane_move_scenery : frame.

Lemma player_lane_move_entities s : player_lane (move_entities s) = player_lane s.
Proof. unfold move_entities. solve_frame. Qed.
#[local] Hint Rewrite player_lane_move_entities : frame.

Lemma player_lane_spawn_phase s : player_lane (spawn_phase s) = player_lane s.
Proof. unfold spawn_phase. solve_frame. Qed.
#[local] Hint Rewrite player_lane_spawn_phase : frame.

Lemma player_lane_check_collections s : player_lane (check_collections s) = player_lane s.
Proof. unfold check_collections. solve_frame. Qed.
#[local] Hint Rewrite player_lane_check_collections : frame.

Lemma player_lane_level_up s : player_lane (level_up s) = player_lane s.
Proof. unfold level_up. solve_frame. Qed.
#[local] Hint Rewrite player_lane_level_up : frame.

Lemma player_lane_game_over s : player_lane (game_over s) = player_lane s.
Proof. unfold game_over. solve_frame. Qed.
#[local] Hint Rewrite player_lane_game_over : frame.

Lemma difficulty_tick_counters s : difficulty (tick_counters s) = difficulty s.
Proof. unfold tick_counters. solve_frame. Qed.
#[local] Hint Rewrite difficulty_tick_counters : frame.

Lemma difficulty_update_particles s : difficulty (update_particles s) = difficulty s.
Proof. unfold update_particles. solve_frame. Qed.
#[local] Hint Rewrite difficulty_update_particles : frame.

Lemma difficulty_move_scenery s : difficulty (move_scenery s) = difficulty s.
Proof. unfold move_scenery. solve_frame. Qed.
#[local] Hint Rewrite difficulty_move_scenery : frame.

Lemma difficulty_move_entities s : difficulty (move_entities s) = difficulty s.
Proof. unfold move_entities. solve_frame. Qed.
#[local] Hint Rewrite difficulty_move_entities : frame.

Lemma difficulty_spawn_phase s : difficulty (spawn_phase s) = difficulty s.
Proof. unfold spawn_phase. solve_frame. Qed.
#[local] Hint Rewrite difficulty_spawn_phase : frame.

Lemma difficulty_check_collections s : difficulty (check_collections s) = difficulty s.
Proof. unfold check_collections. solve_frame. Qed.
#[local] Hint Rewrite difficulty_check_collections : frame.

Lemma difficulty_crash s : difficulty (crash s) = difficulty s.
Proof. unfold crash. solve_frame. Qed.
#[local] Hint Rewrite difficulty_crash : frame.

Lemma difficulty_game_over s : difficulty (game_over s) = difficulty s.
Proof. unfold game_over. solve_frame. Qed.
#[local] Hint Rewrite difficulty_game_over : frame.

Lemma difficulty_spawn_particles cx cy s : difficulty (spawn_particles cx cy s) = difficulty s.
Proof. unfold spawn_particles. solve_frame. Qed.
#[local] Hint Rewrite difficulty_spawn_particles : frame.

Lemma difficulty_level_up s : difficulty (level_up s) = difficulty s.
Proof. unfold level_up. solve_frame. Qed.
#[local] Hint Rewrite difficulty_level_up : frame.

Lemma sound_on_crash s : sound_on (crash s) = sound_on s.
Proof. unfold crash. solve_frame. Qed.
#[local] Hint Rewrite sound_on_crash : frame.

Lemma sound_on_tick_counters s : sound_on (tick_counters s) = sound_on s.
Proof. unfold tick_counters. solve_frame. Qed.
#[local] Hint Rewrite sound_on_tick_counters : frame.

Lemma sound_on_update_particles s : sound_on (update_particles s) = sound_on s.
Proof. unfold update_particles. solve_frame. Qed.
#[local] Hint Rewrite sound_on_update_particles : frame.

Lemma sound_on_move_scenery s : sound_on (move_scenery s) = sound_on s.
Proof. unfold move_scenery. solve_frame. Qed.
#[local] Hint Rewrite sound_on_move_scenery : frame.

Lemma sound_on_move_entities s : sound_on (move_entities s) = sound_on s.
Proof. unfold move_entities. solve_frame. Qed.
#[local] Hint Rewrite sound_on_move_entities : frame.

Lemma sound_on_spawn_phase s : sound_on (spawn_phase s) = sound_on s.
Proof. unfold spawn_phase. solve_frame. Qed.
#[local] Hint Rewrite sound_on_spawn_phase : frame.

Lemma sound_on_check_collections s : sound_on (check_collections s) = sound_on s.
Proof. unfold check_collections. solve_frame. Qed.
#[local] Hint Rewrite sound_on_check_collections : frame.

Lemma particles_spawn_phase s : particles (spawn_phase s) = particles s.
Proof. unfold spawn_phase. solve_frame. Qed.
#[local] Hint Rewrite particles_spawn_phase : frame.

Lemma combo_tick_counters s : combo (tick_counters s) = combo s.
Proof. unfold tick_counters. solve_frame. Qed.
#[local] Hint Rewrite combo_tick_counters : frame.

Lemma combo_update_particles s : combo (update_particles s) = combo s.
Proof. unfold update_particles. solve_frame. Qed.
#[local] Hint Rewrite combo_update_particles : frame.

Lemma combo_move_scenery s : combo (move_scenery s) = combo s.
Proof. unfold move_scenery. solve_frame. Qed.
#[local] Hint Rewrite combo_move_scenery : frame.

Lemma combo_move_entities s : combo (move_entities s) = combo s.
Proof. unfold move_entities. solve_frame. Qed.
#[local] Hint Rewrite combo_move_entities : frame.

Lemma combo_spawn_phase s : combo (spawn_phase s) = combo s.
Proof. unfold spawn_phase. solve_frame. Qed.
#[local] Hint Rewrite combo_spawn_phase : frame.

Lemma invincible_ticks_update_particles s : invincible_ticks (update_particles s) = invincible_ticks s.
Proof. unfold update_particles. solve_frame. Qed.
#[local] Hint Rewrite invincible_ticks_update_particles : frame.

Lemma invincible_ticks_move_scenery s : invincible_ticks (move_scenery s) = invincible_ticks s.
Proof. unfold move_scenery. solve_frame. Qed.
#[local] Hint Rewrite invincible_ticks_move_scenery : frame.

Lemma invincible_ticks_move_entities s : invincible_ticks (move_entities s) = invincible_ticks s.
Proof. unfold move_entities. solve_frame. Qed.
#[local] Hint Rewrite invincible_ticks_move_entities : frame.

Lemma invincible_ticks_spawn_phase s : invincible_ticks (spawn_phase s) = invincible_ticks s.
Proof. unfold spawn_phase. solve_frame. Qed.
#[local] Hint Rewrite invincible_ticks_spawn_phase : frame.

Lemma invincible_ticks_check_collections s : invincible_ticks (check_collections s) = invincible_ticks s.
Proof. unfold check_collections. solve_frame. Qed.
#[local] Hint Rewrite invincible_ticks_check_collections : frame.

Lemma shield_ticks_update_particles s : shield_ticks (update_particles s) = shield_ticks s.
Proof. unfold update_particles. solve_frame. Qed.
#[local] Hint Rewrite shield_ticks_update_particles : frame.

Lemma shield_ticks_move_scenery s : shield_ticks (move_scenery s) = shield_ticks s.
Proof. unfold move_scenery. solve_frame. Qed.
#[local] Hint Rewrite shield_ticks_move_scenery : frame.

Lemma shield_ticks_move_entities s : shield_ticks (move_entities s) = shield_ticks s.
Proof. unfold move_entities. solve_frame. Qed.
#[local] Hint Rewrite shield_ticks_move_entities : frame.

Lemma shield_ticks_spawn_phase s : shield_ticks (spawn_phase s) = shield_ticks s.
Proof. unfold spawn_phase. solve_frame. Qed.
#[local] Hint Rewrite shield_ticks_spawn_phase : frame.

Lemma file_tick_counters s : file (tick_counters s) = file s.
Proof. unfold tick_counters. solve_frame. Qed.
#[local] Hint Rewrite file_tick_counters : frame.

Lemma file_update_particles s : file (update_particles s) = file s.
Proof. unfold update_particles. solve_frame. Qed.
#[local] Hint Rewrite file_update_particles : frame.

Lemma file_move_scenery s : file (move_scenery s) = file s.
Proof. unfold move_scenery. solve_frame. Qed.
#[local] Hint Rewrite file_move_scenery : frame.

Lemma file_move_entities s : file (move_entities s) = file s.
Proof. unfold move_entities. solve_frame. Qed.
#[local] Hint Rewrite file_move_entities : frame.

Lemma file_spawn_phase s : file (spawn_phase s) = file s.
Proof. unfold spawn_phase. solve_frame. Qed.
#[local] Hint Rewrite file_spawn_phase : frame.

Lemma file_check_collections s : file (check_collections s) = file s.
Proof. unfold check_collections. solve_frame. Qed.
#[local] Hint Rewrite file_check_collections : frame.

Lemma file_spawn_particles cx cy s : file (spawn_particles cx cy s) = file s.
Proof. unfold spawn_particles. solve_frame. Qed.
#[local] Hint Rewrite file_spawn_particles : frame.

Lemma file_crash s : file (crash s) = file s.
Proof. unfold crash. solve_frame. Qed.
#[local] Hint Rewrite file_crash : frame.

Lemma file_level_up s : file (level_up s) = file s.
Proof. unfold level_up. solve_frame. Qed.
#[local] Hint Rewrite file_level_up : frame.

Lemma open_pos_tick_counters s : open_pos (tick_counters s) = open_pos s.
Proof. unfold tick_counters. solve_frame. Qed.
#[local] Hint Rewrite open_pos_tick_counters : frame.

Lemma open_pos_update_particles s : open_pos (update_particles s) = open_pos s.
Proof. unfold update_particles. solve_frame. Qed.
#[local] Hint Rewrite open_pos_update_particles : frame.

Lemma open_pos_move_scenery s : open_pos (move_scenery s) = open_pos s.
Proof. unfold move_scenery. solve_frame. Qed.
#[local] Hint Rewrite open_pos_move_scenery : frame.

Lemma open_pos_move_entities s : open_pos (move_entities s) = open_pos s.
Proof. unfold move_entities. solve_frame. Qed.
#[local] Hint Rewrite open_pos_move_entities : frame.

Lemma open_pos_spawn_phase s : open_pos (spawn_phase s) = open_pos s.
Proof. unfold spawn_phase. solve_frame. Qed.
#[local] Hint Rewrite open_pos_spawn_phase : frame.

Lemma open_pos_check_collections s : open_pos (check_collections s) = open_pos s.
Proof. unfold check_collections. solve_frame. Qed.
#[local] Hint Rewrite open_pos_check_collections : frame.

Lemma open_pos_spawn_particles cx cy s : open_pos (spawn_particles cx cy s) = open_pos s.
Proof. unfold spawn_particles. solve_frame. Qed.
#[local] Hint Rewrite open_pos_spawn_particles : frame.

Lemma open_pos_crash s : open_pos (crash s) = open_pos s.
Proof. unfold crash. solve_frame. Qed.
#[local] Hint Rewrite open_pos_crash : frame.

Lemma open_pos_level_up s : open_pos (level_up s) = open_pos s.
Proof. unfold level_up. solve_frame. Qed.
#[local] Hint Rewrite open_pos_level_up : frame.

Lemma open_src_tick_counters s : open_src (tick_counters s) = open_src s.
Proof. unfold tick_counters. solve_frame. Qed.
#[local] Hint Rewrite open_src_tick_counters : frame.

Lemma open_src_update_particles s : open_src (update_particles s) = open_src s.
Proof. unfold update_particles. solve_frame. Qed.
#[local] Hint Rewrite open_src_update_particles : frame.

Lemma open_src_move_scenery s : open_src (move_scenery s) = open_src s.
Proof. unfold move_scenery. solve_frame. Qed.
#[local] Hint Rewrite open_src_move_scenery : frame.

Lemma open_src_move_entities s : open_src (move_entities s) = open_src s.
Proof. unfold move_entities. solve_frame. Qed.
#[local] Hint Rewrite open_src_move_entities : frame.

Lemma open_src_spawn_phase s : open_src (spawn_phase s) = open_src s.
Proof. unfold spawn_phase. solve_frame. Qed.
#[local] Hint Rewrite open_src_spawn_phase : frame.

Lemma open_src_check_collections s : open_src (check_collections s) = open_src s.
Proof. unfold check_collections. solve_frame. Qed.
#[local] Hint Rewrite open_src_check_collections : frame.

Lemma open_src_spawn_particles cx cy s : open_src (spawn_particles cx cy s) = open_src s.
Proof. unfold spawn_particles. solve_frame. Qed.
#[local] Hint Rewrite open_src_spawn_particles : frame.

Lemma open_src_crash s : open_src (crash s) = open_src s.
Proof. unfold crash. solve_frame. Qed.
#[local] Hint Rewrite open_src_crash : frame.

Lemma open_src_level_up s : open_src (level_up s) = open_src s.
Proof. unfold level_up. solve_frame. Qed.
#[local] Hint Rewrite open_src_level_up : frame.

(** ** The boss truck *)

Lemma centered_insert os i o :
  centered os ->
  (obs_alive o = true -> obs_type o = ObsTruck -> obs_lane o = 1) ->
  centered (<[i := o]> os).
Proof.
  intros Hc Ho j o' Hj. apply list_lookup_insert_Some in Hj.
  destruct Hj as [(_ & <- & _)|(_ & Hj)]; [exact Ho | exact (Hc j o' Hj)].
Qed.

Lemma centered_kill os i : centered os -> centered (alter kill_obstacle i os).
Proof.
  intros Hc j o Hj. destruct (decide (i = j)) as [->|Hne].
  - rewrite list_lookup_alter_eq in Hj.
    destruct (os !! j) as [o'|]; simplify_eq/=. done.
  - rewrite list_lookup_alter_ne in Hj by done. exact (Hc j o Hj).
Qed.

Lemma new_obstacle_centered s :
  obs_type (fst (new_obstacle s)) = ObsTruck ->
  obs_lane (fst (new_obstacle s)) = 1.
Proof.
  unfold new_obstacle, rand. cbn. repeat case_match; cbn; done.
Qed.

Lemma obstacles_new_obstacle s :
  obstacles (snd (new_obstacle s)) = obstacles s.
Proof. destruct (new_obstacle_state s) as [k ->]. reflexivity. Qed.

Lemma centered_spawn_obstacle_from idx s :
  centered (obstacles s) -> centered (obstacles (spawn_obstacle_from idx s)).
Proof.
  intros Hc. induction idx as [|i rest IH]; [done|].
  rewrite spawn_obstacle_from_cons.
  destruct (obstacles s !! i) as [o|]; [|done].
  destruct (obs_alive o); [exact IH|].
  cbn [obstacles set_obstacles]. rewrite obstacles_new_obstacle.
  apply centered_insert; [done|]. intros _. apply new_obstacle_centered.
Qed.

Lemma centered_spawn_phase s :
  centered (obstacles s) -> centered (obstacles (spawn_phase s)).
Proof.
  intros Hc. unfold spawn_phase, spawn_obstacle, spawn_coin, spawn_powerup.
  cbv zeta.
  assert (Hobs : centered (obstacles
    (if tick_count s mod diff_spawn (difficulty s) =? 0
     then spawn_obstacle_from (seq 0 MAX_OBS) s else s))).
  { case_match; [by apply centered_spawn_obstacle_from | done]. }
  revert Hobs. generalize (if tick_count s mod diff_spawn (difficulty s) =? 0
     then spawn_obstacle_from (seq 0 MAX_OBS) s else s). intros s1 H1.
  assert (Hcoin : centered (obstacles
    (if tick_count s1 mod 18 =? 0
     then spawn_coin_from (seq 0 MAX_COINS) s1 else s1))).
  { case_match; [|done].
    by rewrite (spawn_coin_from_frame obstacles). }
  revert Hcoin. generalize (if tick_count s1 mod 18 =? 0
     then spawn_coin_from (seq 0 MAX_COINS) s1 else s1). intros s2 H2.
  case_match; [|done]. by rewrite (spawn_powerup_from_frame obstacles).
Qed.

Lemma centered_obstacle_step spd i s :
  centered (obstacles s) -> centered (obstacles (obstacle_step spd i s)).
Proof.
  intros Hc. unfold obstacle_step.
  destruct (obstacles s !! i) as [o|] eqn:Hi; [|done].
  destruct (obs_alive o) eqn:Ha; cbn; [|done].
  case_match; cbn; apply centered_insert; cbn; try done.
  intros _. by apply (Hc i o).
Qed.

Lemma centered_move_entities s :
  centered (obstacles s) -> centered (obstacles (move_entities s)).
Proof.
  intros Hc. unfold move_entities. cbv zeta.
  rewrite (for_loop_frame obstacles) by frame_step.
  rewrite (for_loop_frame obstacles) by frame_step.
  apply (for_loop_inv (fun s' => centered (obstacles s'))); [done|].
  intros i s'. apply centered_obstacle_step.
Qed.

Lemma centered_tick_prefix s :
  centered (obstacles s) -> centered (obstacles (tick_prefix s)).
Proof.
  intros Hc. unfold tick_prefix. cbv zeta.
  rewrite obstacles_check_collections.
  apply centered_spawn_phase, centered_move_entities.
  by autorewrite with frame.
Qed.

Lemma obstacles_collision_block s :
  obstacles (fst (collision_block s)) = obstacles s.
Proof.
  unfold collision_block. destruct (_ && _); [|done]. cbv zeta.
  destruct (lives (crash s) =? 0); rewrite fst_pair; by frame_rw.
Qed.

Lemma centered_game_tick s :
  centered (obstacles s) -> centered (obstacles (game_tick s)).
Proof.
  intros Hc. unfold game_tick. destruct (state s); try done.
  pose proof (obstacles_collision_block (tick_prefix s)) as Hcb.
  destruct (collision_block (tick_prefix s)) as [s' r]. cbn in Hcb.
  destruct r; [|rewrite obstacles_level_up]; rewrite Hcb;
    by apply centered_tick_prefix.
Qed.

Lemma centered_game_init s :
  centered (obstacles s) -> centered (obstacles (game_init s)).
Proof.
  intros Hc. unfold game_init. cbv zeta. frame_rw.
  do 3 rewrite (for_loop_frame obstacles) by frame_step.
  apply (for_loop_inv (fun s' => centered (obstacles s'))).
  - by frame_rw.
  - intros i s' H. cbn. by apply centered_kill.
Qed.

Lemma centered_handle_event ev s s' :
  centered (obstacles s) -> handle_event ev s = Some s' ->
  centered (obstacles s').
Proof.
  intros Hc Hev. destruct ev as [|ty key]; cbn in Hev.
  - simplify_eq. by apply centered_game_tick.
  - assert (Hkey : handle_key key s = Some s' -> centered (obstacles s')).
    { clear Hev. unfold handle_key, play_sound, emit, furi_timer_stop.
      intros Hk. repeat case_match; simplify_eq; cbn; try done.
      by apply centered_game_init. }
    destruct ty; simplify_eq; auto.
Qed.

Lemma reachable_centered s : reachable s -> centered (obstacles s).
Proof.
  induction 1 as [stored opens src|ev s s' _ IH Hev].
  - intros i o Hi Ha. cbn [obstacles race_game_start] in Hi.
    apply lookup_replicate_1 in Hi.
    destruct Hi as [-> _]. done.
  - exact (centered_handle_event ev s s' IH Hev).
Qed.

Lemma reachable_first_episode : reachable first_episode.
Proof.
  apply (reach_event (EventTypeKey InputTypePress InputKeyOk) fresh_start).
  - apply reach_start.
  - reflexivity.
Defined.

Lemma draw_0 s : Z.of_N (rand_src s (rand_pos s)) = draw s 0.
Proof. unfold draw. by rewrite Nat.add_0_r. Qed.
Lemma draw_1 s : Z.of_N (rand_src s (S (rand_pos s))) = draw s 1.
Proof. unfold draw. by rewrite Nat.add_1_r. Qed.
Lemma draw_2 s : Z.of_N (rand_src s (S (S (rand_pos s)))) = draw s 2.
Proof. unfold draw. do 3 f_equal. lia. Qed.

Lemma new_obstacle_spec s :
  new_obstacle s =
  if boss_allowed s then
    if Z.rem (draw s 1) 4 =? 0 then
      (truck 1 (-18), set_rand_pos (rand_pos s + 2)%nat s)
    else
      ({| obs_lane := i8 (Z.rem (draw s 0) LANE_COUNT); obs_y := -18;
          obs_alive := true;
          obs_type := if Z.rem (draw s 2) 3 =? 0 then ObsMoto else ObsSedan |},
       set_rand_pos (rand_pos s + 3)%nat s)
  else
    ({| obs_lane := i8 (Z.rem (draw s 0) LANE_COUNT); obs_y := -18;
        obs_alive := true;
        obs_type := if Z.rem (draw s 1) 3 =? 0 then ObsMoto else ObsSedan |},
     set_rand_pos (rand_pos s + 2)%nat s).
Proof.
  unfold new_obstacle, boss_allowed, rand. cbn.
  rewrite ?draw_0, ?draw_1, ?draw_2.
  replace (S (S (S (rand_pos s)))) with (rand_pos s + 3)%nat by lia.
  replace (S (S (rand_pos s))) with (rand_pos s + 2)%nat by lia.
  repeat case_match; reflexivity.
Qed.

(** C7 (amended). The obstacle a spawn writes is a boss truck exactly when
    the level is positive, the level is a multiple of 5 and the boss draw
    (the second draw) is a multiple of 4; the truck is then put in lane 1
    whatever the lane draw was.  Otherwise the lane draw decides the lane
    and the class draw decides the class: Narrow when it is a multiple of
    3, Standard if not.  In every state the event loop can reach, every
    live truck is in lane 1.  Its hitbox is 20 pixels wide, twice the
    car width and centred on the centre of the lane; it overlaps the
    player's box in each of the three lanes. *)
Theorem boss_truck_gate_and_hitbox s :
  let o := fst (new_obstacle s) in
  (obs_type o = ObsTruck <->
   0 < level s /\ Z.rem (level s) 5 = 0 /\ Z.rem (draw s 1) 4 = 0) /\
  (obs_type o = ObsTruck -> obs_lane o = 1) /\
  (obs_type o <> ObsTruck ->
   obs_lane o = i8 (Z.rem (draw s 0) LANE_COUNT) /\
   obs_type o =
     if Z.rem (draw s (if boss_allowed s then 2 else 1)) 3 =? 0
     then ObsMoto else ObsSedan) /\
  (forall i, (i < MAX_OBS)%nat -> first_free obs_alive (obstacles s) i ->
   obstacles (spawn_obstacle s) !! i = Some o) /\
  (reachable s -> centered (obstacles s)) /\
  (forall y, obs_ox (truck 1 y) = lane_cx 1 - CAR_W /\
             obs_ow ObsTruck = 2 * CAR_W /\
             forall lane, 0 <= lane < LANE_COUNT ->
               (car_lx lane <? obs_ox (truck 1 y) + obs_ow ObsTruck) &&
               (obs_ox (truck 1 y) <? car_lx lane + CAR_W) = true).
Proof.
  cbv zeta. rewrite new_obstacle_spec. unfold boss_allowed.
  split; [split|split; [|split; [|split; [|split]]]].
  - intros Ht.
    destruct (0 <? level s) eqn:Hl, (Z.rem (level s) 5 =? 0) eqn:H5,
      (Z.rem (draw s 1) 4 =? 0) eqn:H4; cbn in Ht;
      try (repeat case_match; congruence).
    lia.
  - intros (Hl & H5 & H4).
    apply Z.ltb_lt in Hl. apply Z.eqb_eq in H5, H4. by rewrite Hl, H5, H4.
  - intros Ht. repeat case_match; cbn in *; congruence.
  - intros Ht. repeat case_match; cbn in *; (split; congruence).
  - intros i Hi Hfree.
    unfold spawn_obstacle.
    rewrite (spawn_obstacle_from_first 0 MAX_OBS i s Hfree) by lia.
    rewrite new_obstacle_spec. unfold boss_allowed.
    destruct Hfree as [[x [Hx _]] _]. apply lookup_lt_Some in Hx.
    assert (Hset : forall v x', obstacles (set_obstacles v x') = v)
      by reflexivity.
    rewrite Hset. by rewrite list_lookup_insert_eq.
  - apply reachable_centered.
  - intros y. split; [reflexivity|]. split; [reflexivity|].
    intros lane Hlane. unfold LANE_COUNT in Hlane.
    assert (lane = 0 \/ lane = 1 \/ lane = 2) as [->|[->| ->]] by lia;
      reflexivity.
Qed.

Lemma boss_truck_gate_and_hitbox_witness :
  obs_lane (fst (new_obstacle level_five)) = 1 /\
  centered (obstacles first_episode).
Proof.
  split.
  - apply (proj1 (proj2 (boss_truck_gate_and_hitbox level_five))).
    apply (proj1 (boss_truck_gate_and_hitbox level_five)).
    repeat split.
  - apply (proj1 (proj2 (proj2 (proj2 (proj2
             (boss_truck_gate_and_hitbox first_episode)))))).
    exact reachable_first_episode.
Defined.

(** C7 as stated fails on the hitbox: the truck the code spawns at level 5
    has a hitbox 20 pixels wide, while two lane widths are 28 pixels. *)
Lemma boss_hitbox_not_two_lane_widths :
  obs_type (fst (new_obstacle level_five)) = ObsTruck /\
  obs_ow (obs_type (fst (new_obstacle level_five))) = 20 /\
  2 * LANE_WIDTH = 28 /\
  ~ spans_two_lane_widths (fst (new_obstacle level_five)).
Proof. repeat split. unfold spans_two_lane_widths. by vm_compute. Qed.

(** ** The collision block *)

Lemma rem_bounds (r : N) (k : Z) : 0 < k -> 0 <= Z.rem (Z.of_N r) k < k.
Proof. intros Hk. apply Z.rem_bound_pos; lia. Qed.

Lemma particles_burst_step cx cy i s :
  particles (let '(r1, s) := rand s in
             let '(r2, s) := rand s in
             let '(r3, s) := rand s in
             set_particles
               (<[i := {| pt_x := cx; pt_y := cy;
                          pt_dx := i8 (Z.rem r1 7 - 3);
                          pt_dy := i8 (Z.rem r2 7 - 3);
                          pt_life := u8 (8 + Z.rem r3 5) |}]> (particles s))
               s) =
  <[i := {| pt_x := cx; pt_y := cy;
            pt_dx := i8 (Z.rem (draw s 0) 7 - 3);
            pt_dy := i8 (Z.rem (draw s 1) 7 - 3);
            pt_life := u8 (8 + Z.rem (draw s 2) 5) |}]> (particles s).
Proof. unfold rand. cbn. by rewrite draw_0, draw_1, draw_2. Qed.

Lemma spawn_particles_burst cx cy s i p :
  (i < MAX_PARTICLES)%nat ->
  particles (spawn_particles cx cy s) !! i = Some p -> burst_at cx cy p.
Proof.
  unfold spawn_particles. revert i p.
  apply (for_loop_ind (fun n s' => forall i p, (i < n)%nat ->
           particles s' !! i = Some p -> burst_at cx cy p)).
  - intros i p Hi. lia.
  - intros n s' _ IH i p Hi. rewrite particles_burst_step.
    intros Hp. apply list_lookup_insert_Some in Hp.
    destruct Hp as [(_ & <- & _)|(Hne & Hp)]; [|apply (IH i p); [lia|done]].
    unfold burst_at, draw. cbn.
    pose proof (rem_bounds (rand_src s' (rand_pos s' + 0)%nat) 7).
    pose proof (rem_bounds (rand_src s' (rand_pos s' + 1)%nat) 7).
    pose proof (rem_bounds (rand_src s' (rand_pos s' + 2)%nat) 5).
    rewrite !i8_small, u8_small by lia. lia.
Qed.

Lemma lives_crash s : lives (crash s) = u8 (lives s - 1).
Proof. unfold crash. cbv zeta. by frame_rw. Qed.

Lemma combo_crash s : combo (crash s) = 0.
Proof. unfold crash. cbv zeta. by frame_rw. Qed.

Lemma particles_crash s i p :
  (i < MAX_PARTICLES)%nat -> particles (crash s) !! i = Some p ->
  burst_at (i16 (car_lx (player_lane s) + CAR_W ÷ 2))
           (i16 (PLAYER_Y + CAR_H ÷ 2)) p.
Proof.
  unfold crash. cbv zeta. frame_rw. apply spawn_particles_burst.
Qed.

Lemma state_game_over s : state (game_over s) = StateGameOver.
Proof. unfold game_over. cbv zeta. by frame_rw. Qed.

Lemma timer_game_over s : timer (game_over s) = None.
Proof. unfold game_over. cbv zeta. by frame_rw. Qed.

(** What [save_high_score] does to the high score, the file, the count
    of [storage_file_open] calls and the cues. *)
Lemma save_high_score_spec s :
  high_score (save_high_score s) =
    (if high_score s <? score s then score s else high_score s) /\
  file (save_high_score s) =
    (if (high_score s <? score s) && open_src s (open_pos s)
     then Some (score s) else file s) /\
  open_pos (save_high_score s) =
    (if high_score s <? score s then S (open_pos s) else open_pos s) /\
  cues (save_high_score s) =
    (if (high_score s <? score s) && open_src s (open_pos s)
     then [SaveBest (score s)] else []) ++ cues s.
Proof.
  unfold save_high_score, storage_file_open, storage_file_write, emit.
  rewrite Z.leb_antisym.
  destruct (high_score s <? score s); cbn; [|done].
  destruct (open_src s (open_pos s)); cbn; done.
Qed.

Lemma high_score_game_over s :
  high_score (game_over s) =
  if high_score s <? score s then score s else high_score s.
Proof.
  unfold game_over. cbv zeta.
  rewrite (proj1 (save_high_score_spec _)). by frame_rw.
Qed.

Lemma file_game_over s :
  file (game_over s) =
  if (high_score s <? score s) && open_src s (open_pos s)
  then Some (score s) else file s.
Proof.
  unfold game_over. cbv zeta.
  rewrite (proj1 (proj2 (save_high_score_spec _))).
  unfold play_sound, vibrate, emit, furi_timer_stop. cbn.
  by destruct (sound_on s).
Qed.

Lemma open_pos_game_over s :
  open_pos (game_over s) =
  if high_score s <? score s then S (open_pos s) else open_pos s.
Proof.
  unfold game_over. cbv zeta.
  rewrite (proj1 (proj2 (proj2 (save_high_score_spec _)))). by frame_rw.
Qed.

Lemma cues_game_over s :
  cues (game_over s) =
  (if (high_score s <? score s) && open_src s (open_pos s)
   then [SaveBest (score s)] else []) ++
  (if sound_on s then [Tone 80 200] else []) ++ Vibro 200 :: cues s.
Proof.
  unfold game_over. cbv zeta.
  rewrite (proj2 (proj2 (proj2 (save_high_score_spec _)))).
  unfold play_sound, vibrate, emit, furi_timer_stop. cbn.
  by destruct (sound_on s).
Qed.

Lemma collision_block_ignored s :
  collision_registered s = false -> collision_block s = (s, false).
Proof. unfold collision_block, collision_registered. by intros ->. Qed.

Lemma collision_block_registered s :
  collision_registered s = true ->
  collision_block s =
  if lives (crash s) =? 0 then (game_over (crash s), true)
  else (set_invincible_ticks 20 (crash s), false).
Proof. unfold collision_block, collision_registered. by intros ->. Qed.

(** ** Lives *)

Lemma lives_powerup_step px i s :
  lives (powerup_step px i s) =
  match powerups s !! i with
  | Some p =>
      if pw_alive p && touches px (pw_lane p) (pw_y p) then
        match pw_type p with
        | PwFuel => if lives s <? MAX_LIVES then u8 (lives s + 1) else lives s
        | _ => lives s
        end
      else lives s
  | None => lives s
  end.
Proof.
  unfold powerup_step, play_sound, emit.
  destruct (powerups s !! i) as [p|]; [|done].
  destruct (pw_alive p); cbn [negb andb]; [|done].
  destruct (touches px (pw_lane p) (pw_y p)); [|done].
  cbv zeta. destruct (pw_type p); step_cases; congruence.
Qed.

Lemma lives_powerup_step_bounds px i s :
  0 <= lives s ->
  lives s <= lives (powerup_step px i s) <= Z.max (lives s) MAX_LIVES.
Proof.
  intros H. rewrite lives_powerup_step. unfold MAX_LIVES in *.
  repeat case_match; try lia.
  apply Z.ltb_lt in H3. rewrite u8_small; lia.
Qed.

Lemma lives_check_collections_bounds s :
  0 <= lives s ->
  lives s <= lives (check_collections s) <= Z.max (lives s) MAX_LIVES.
Proof.
  intros H. unfold check_collections. cbv zeta.
  apply (for_loop_inv
    (fun s' => lives s <= lives s' <= Z.max (lives s) MAX_LIVES)).
  - rewrite (for_loop_frame lives) by frame_step. lia.
  - intros i s' Hs'.
    pose proof (lives_powerup_step_bounds (car_lx (player_lane s)) i s').
    lia.
Qed.

Lemma lives_tick_prefix_bounds s :
  0 <= lives s ->
  lives s <= lives (tick_prefix s) <= Z.max (lives s) MAX_LIVES.
Proof.
  intros H. unfold tick_prefix. cbv zeta.
  pose proof (lives_check_collections_bounds
    (spawn_phase (move_entities (move_scenery (update_particles
      (tick_counters s)))))) as Hc.
  autorewrite with frame in Hc. auto.
Qed.

Lemma state_tick_prefix s : state (tick_prefix s) = state s.
Proof. unfold tick_prefix. cbv zeta. by autorewrite with frame. Qed.

(** What a tick does, by the outcome of its collision block. *)
Lemma game_tick_cases s :
  state s = StatePlaying ->
  (collision_registered (tick_prefix s) = false /\
   game_tick s = level_up (tick_prefix s)) \/
  (collision_registered (tick_prefix s) = true /\
   lives (crash (tick_prefix s)) = 0 /\
   game_tick s = game_over (crash (tick_prefix s))) \/
  (collision_registered (tick_prefix s) = true /\
   lives (crash (tick_prefix s)) <> 0 /\
   game_tick s =
   level_up (set_invincible_ticks 20 (crash (tick_prefix s)))).
Proof.
  intros Hp. unfold game_tick. rewrite Hp.
  destruct (collision_registered (tick_prefix s)) eqn:Hreg.
  - rewrite (collision_block_registered _ Hreg).
    destruct (lives (crash (tick_prefix s)) =? 0) eqn:Hl.
    + right. left. apply Z.eqb_eq in Hl. done.
    + right. right. apply Z.eqb_neq in Hl. done.
  - left. by rewrite (collision_block_ignored _ Hreg).
Qed.

Lemma game_tick_idle s : state s <> StatePlaying -> game_tick s = s.
Proof. unfold game_tick. by destruct (state s). Qed.

Lemma lives_ok_game_tick s : lives_ok s -> lives_ok (game_tick s).
Proof.
  intros [Hb Hp]. destruct (decide (state s = StatePlaying)) as [Hs|Hs];
    [|by rewrite game_tick_idle].
  pose proof (lives_tick_prefix_bounds s (proj1 Hb)) as Hpre.
  specialize (Hp Hs).
  unfold lives_ok, MAX_LIVES in *.
  destruct (game_tick_cases s Hs) as [[_ ->]|[(_ & Hl & ->)|(_ & Hl & ->)]].
  - rewrite lives_level_up, state_level_up, state_tick_prefix. lia.
  - rewrite lives_game_over, state_game_over. split; [lia|done].
  - rewrite lives_crash in Hl. rewrite u8_small in Hl by lia.
    rewrite lives_level_up, state_level_up. frame_rw.
    rewrite lives_crash, u8_small by lia. lia.
Qed.

Lemma lives_ok_game_init s : lives_ok (game_init s).
Proof.
  unfold lives_ok, game_init. cbv zeta. frame_rw.
  do 4 rewrite (for_loop_frame lives) by frame_step.
  frame_rw. unfold INITIAL_LIVES, MAX_LIVES. lia.
Qed.

(** A key either starts a new episode or leaves lives, score, level and
    the pools alone; it never puts a session into play otherwise. *)
Lemma handle_key_cases key s s' :
  handle_key key s = Some s' ->
  s' = game_init s \/
  (lives s' = lives s /\ score s' = score s /\ level s' = level s /\
   combo s' = combo s /\
   (state s' = StatePlaying -> state s = StatePlaying)).
Proof.
  unfold handle_key, is_playing.
  destruct key, (state s) eqn:Hs; cbn [andb];
    repeat case_match; intros [= <-]; auto;
    right; unfold play_sound, emit, furi_timer_stop; cbn;
    repeat case_match; cbn; rewrite ?Hs; done.
Qed.

Lemma lives_ok_handle_event ev s s' :
  lives_ok s -> handle_event ev s = Some s' -> lives_ok s'.
Proof.
  intros Hok Hev. destruct ev as [|ty key]; cbn in Hev.
  - simplify_eq. by apply lives_ok_game_tick.
  - assert (Hkey : handle_key key s = Some s' -> lives_ok s').
    { intros Hk. apply handle_key_cases in Hk.
      destruct Hk as [->|(Hl & _ & _ & _ & Hst)];
        [apply lives_ok_game_init|].
      destruct Hok as [Hb Hp]. unfold lives_ok. rewrite Hl. auto. }
    destruct ty; simplify_eq; auto.
Qed.

Lemma reachable_lives_ok s : reachable s -> lives_ok s.
Proof.
  induction 1 as [stored opens src|ev s s' _ IH Hev].
  - split; cbn; [unfold INITIAL_LIVES, MAX_LIVES; lia|done].
  - exact (lives_ok_handle_event ev s s' IH Hev).
Qed.

Lemma high_score_tick_prefix s : high_score (tick_prefix s) = high_score s.
Proof. unfold tick_prefix. cbv zeta. by autorewrite with frame. Qed.

Lemma storage_tick_prefix s :
  file (tick_prefix s) = file s /\ open_pos (tick_prefix s) = open_pos s /\
  open_src (tick_prefix s) = open_src s.
Proof. unfold tick_prefix. cbv zeta. by autorewrite with frame. Qed.

(** C3 (amended). In every state the event loop can reach, lives is
    between 0 and 5, and a session in play has at least one life.  A
    Refuel picked up with 5 lives leaves lives at 5: the step only retires
    the pickup and plays its tone.  On a tick of a session in play whose
    collision block registers a collision with one life left, the tick
    ends with lives 0 in GameOver, the timer stopped, the score as it was
    at the collision, and the high score in memory replaced by that score
    exactly when the score is greater.  Exactly then the file is opened
    for writing, once; the file receives the score when it could be
    opened, which is also the only case in which the write of the best
    score is among the cues, and keeps its content otherwise. *)
Theorem lives_bounded_and_game_over s :
  (reachable s ->
   0 <= lives s <= MAX_LIVES /\ (state s = StatePlaying -> 1 <= lives s)) /\
  (forall px i p,
     powerups s !! i = Some p -> pw_alive p = true -> pw_type p = PwFuel ->
     touches px (pw_lane p) (pw_y p) = true -> lives s = MAX_LIVES ->
     lives (powerup_step px i s) = MAX_LIVES /\
     powerup_step px i s =
     play_sound 660 40
       (set_powerups (<[i := kill_powerup p]> (powerups s)) s)) /\
  (state s = StatePlaying ->
   collision_registered (tick_prefix s) = true ->
   lives (tick_prefix s) = 1 ->
   lives (game_tick s) = 0 /\
   state (game_tick s) = StateGameOver /\
   timer (game_tick s) = None /\
   score (game_tick s) = score (tick_prefix s) /\
   high_score (game_tick s) =
     (if high_score s <? score (tick_prefix s)
      then score (tick_prefix s) else high_score s) /\
   open_pos (game_tick s) =
     (if high_score s <? score (tick_prefix s)
      then S (open_pos s) else open_pos s) /\
   file (game_tick s) =
     (if (high_score s <? score (tick_prefix s)) && open_src s (open_pos s)
      then Some (score (tick_prefix s)) else file s) /\
   cues (game_tick s) =
     (if (high_score s <? score (tick_prefix s)) && open_src s (open_pos s)
      then [SaveBest (score (tick_prefix s))] else []) ++
     (if sound_on s then [Tone 80 200] else []) ++
     Vibro 200 :: cues (crash (tick_prefix s))).
Proof.
  split; [exact (reachable_lives_ok s)|]. split.
  - intros px i p Hp Ha Ht Hx Hl. split.
    + rewrite lives_powerup_step, Hp, Ha, Hx, Ht. rewrite Hl. reflexivity.
    + unfold powerup_step. rewrite Hp, Ha, Hx, Ht. cbn [negb]. cbv zeta.
      frame_rw. by rewrite Hl.
  - intros Hs Hreg Hl.
    assert (Hc : lives (crash (tick_prefix s)) = 0)
      by (rewrite lives_crash, Hl; reflexivity).
    destruct (game_tick_cases s Hs) as [[Hn _]|[(_ & _ & ->)|(_ & Hnz & _)]];
      [congruence| |congruence].
    destruct (storage_tick_prefix s) as (Hf & Hp & Ho).
    rewrite lives_game_over, state_game_over, timer_game_over,
      score_game_over, high_score_game_over, open_pos_game_over,
      file_game_over, cues_game_over.
    rewrite score_crash, high_score_crash, high_score_tick_prefix,
      sound_on_crash, file_crash, open_pos_crash, open_src_crash, Hf, Hp, Ho.
    replace (sound_on (tick_prefix s)) with (sound_on s)
      by (unfold tick_prefix; cbv zeta; by autorewrite with frame).
    done.
Qed.

Lemma lives_bounded_and_game_over_witness :
  (0 <= lives first_episode <= MAX_LIVES /\
   (state first_episode = StatePlaying -> 1 <= lives first_episode)) /\
  lives (game_tick last_life) = 0 /\
  state (game_tick last_life) = StateGameOver /\
  timer (game_tick last_life) = None /\
  score (game_tick last_life) = score (tick_prefix last_life) /\
  high_score (game_tick last_life) =
    (if high_score last_life <? score (tick_prefix last_life)
     then score (tick_prefix last_life) else high_score last_life) /\
  open_pos (game_tick last_life) =
    (if high_score last_life <? score (tick_prefix last_life)
     then S (open_pos last_life) else open_pos last_life) /\
  file (game_tick last_life) =
    (if (high_score last_life <? score (tick_prefix last_life))
        && open_src last_life (open_pos last_life)
     then Some (score (tick_prefix last_life)) else file last_life) /\
  cues (game_tick last_life) =
    (if (high_score last_life <? score (tick_prefix last_life))
        && open_src last_life (open_pos last_life)
     then [SaveBest (score (tick_prefix last_life))] else []) ++
    (if sound_on last_life then [Tone 80 200] else []) ++
    Vibro 200 :: cues (crash (tick_prefix last_life)).
Proof.
  split.
  - apply (proj1 (lives_bounded_and_game_over first_episode)).
    exact reachable_first_episode.
  - apply (proj2 (proj2 (lives_bounded_and_game_over last_life)));
      vm_compute; reflexivity.
Defined.

(** The fatal tick of [last_life], evaluated: the score of 200 replaces
    the high score of 0 and, the file being opened, is written to it. *)
Example last_life_game_over :
  state (game_tick last_life) = StateGameOver /\
  lives (game_tick last_life) = 0 /\
  timer (game_tick last_life) = None /\
  score (game_tick last_life) = 200 /\
  high_score (game_tick last_life) = 200 /\
  file (game_tick last_life) = Some 200 /\
  cues (game_tick last_life) =
    [SaveBest 200; Tone 80 200; Vibro 200; Tone 100 80; Vibro 80].
Proof. by vm_compute. Qed.

Lemma reachable_after_ticks n s :
  reachable s -> reachable (after_ticks n s).
Proof.
  intros Hr. unfold after_ticks. induction n as [|n IH]; [done|].
  cbn [Nat.iter nat_rect].
  by apply (reach_event EventTypeTick (Nat.iter n game_tick s)).
Qed.

Lemma reachable_left_lane_run start :
  reachable start ->
  handle_event (EventTypeKey InputTypePress InputKeyOk) start
    = Some (game_init start) ->
  handle_event (EventTypeKey InputTypePress InputKeyLeft) (game_init start)
    = Some (play_sound 440 12 (set_player_lane 0 (game_init start))) ->
  reachable (left_lane_run start).
Proof.
  intros Hr Hok Hleft. apply reachable_after_ticks.
  apply (reach_event (EventTypeKey InputTypePress InputKeyLeft)
           (game_init start)); [|exact Hleft].
  by apply (reach_event (EventTypeKey InputTypePress InputKeyOk) start).
Qed.

(** C3 as stated fails when the file cannot be opened.  In the run
    [left_lane_run no_storage] the event loop reaches a session in play
    with one life, no high-score file and a high score of 0; the next
    tick registers a collision and ends the game with a score of 90,
    above the stored high score, and yet nothing is persisted: the high
    score in memory becomes 90 and the file is still absent. *)
Lemma high_score_not_persisted :
  reachable (left_lane_run no_storage) /\
  state (left_lane_run no_storage) = StatePlaying /\
  lives (left_lane_run no_storage) = 1 /\
  high_score (left_lane_run no_storage) = 0 /\
  file (left_lane_run no_storage) = None /\
  collision_registered (tick_prefix (left_lane_run no_storage)) = true /\
  state (game_tick (left_lane_run no_storage)) = StateGameOver /\
  lives (game_tick (left_lane_run no_storage)) = 0 /\
  score (game_tick (left_lane_run no_storage)) = 90 /\
  high_score (game_tick (left_lane_run no_storage)) = 90 /\
  file (game_tick (left_lane_run no_storage)) = None.
Proof.
  split; [apply reachable_left_lane_run;
          [apply reach_start|reflexivity|by vm_compute]|].
  repeat split; by vm_compute.
Qed.

(** The comparison is with the high score in memory, not with the file:
    when the file holds 500 but could not be opened at the start, the
    same run ends with 90 written over the 500. *)
Example stored_best_overwritten :
  reachable (left_lane_run late_storage) /\
  file (left_lane_run late_storage) = Some 500 /\
  high_score (left_lane_run late_storage) = 0 /\
  state (game_tick (left_lane_run late_storage)) = StateGameOver /\
  score (game_tick (left_lane_run late_storage)) = 90 /\
  file (game_tick (left_lane_run late_storage)) = Some 90.
Proof.
  split; [apply reachable_left_lane_run;
          [apply reach_start|reflexivity|by vm_compute]|].
  repeat split; by vm_compute.
Qed.

(** ** One collision per tick *)

(** C10. A tick lowers lives by at most 1.  The collision block looks at
    one boolean: when a collision is registered it takes exactly one
    life, however many obstacles overlap the player, and none when it is
    not. *)
Theorem at_most_one_life_per_tick s :
  0 <= lives s <= 255 ->
  lives s - 1 <= lives (game_tick s) /\
  (1 <= lives s ->
   lives (fst (collision_block s)) =
   if collision_registered s then lives s - 1 else lives s).
Proof.
  intros Hl. split.
  - destruct (decide (state s = StatePlaying)) as [Hs|Hs];
      [|rewrite game_tick_idle by done; lia].
    pose proof (lives_tick_prefix_bounds s (proj1 Hl)) as Hpre.
    unfold MAX_LIVES in Hpre.
    pose proof (u8_range (lives (tick_prefix s) - 1)) as Hu.
    assert (Hcr : lives s - 1 <= lives (crash (tick_prefix s))).
    { rewrite lives_crash.
      destruct (decide (lives (tick_prefix s) = 0)) as [H0|H0]; [lia|].
      rewrite u8_small; lia. }
    destruct (game_tick_cases s Hs) as [[_ ->]|[(_ & _ & ->)|(_ & _ & ->)]].
    + rewrite lives_level_up. lia.
    + by rewrite lives_game_over.
    + rewrite lives_level_up. by frame_rw.
  - intros H1. destruct (collision_registered s) eqn:Hreg.
    + rewrite (collision_block_registered s Hreg).
      destruct (lives (crash s) =? 0); rewrite fst_pair; frame_rw;
        rewrite lives_crash, u8_small; lia.
    + by rewrite (collision_block_ignored s Hreg).
Qed.

Lemma at_most_one_life_per_tick_witness :
  lives pile_up - 1 <= lives (game_tick pile_up) /\
  (1 <= lives pile_up ->
   lives (fst (collision_block pile_up)) =
   if collision_registered pile_up then lives pile_up - 1 else lives pile_up).
Proof. apply (at_most_one_life_per_tick pile_up). vm_compute. split; discriminate. Defined.

(** Two obstacles overlap the player of [pile_up] after the move; the
    tick takes one of its three lives. *)
Example pile_up_costs_one_life :
  hits (car_lx 1) (sedan 1 103 true) = true /\
  hits (car_lx 1) (sedan 1 107 true) = true /\
  lives (game_tick pile_up) = 2.
Proof. by vm_compute. Qed.

(** ** Collisions: ignored or resolved *)

Lemma collision_registered_iff s :
  collision_registered s = true <->
  invincible_ticks s = 0 /\ shield_ticks s = 0 /\ check_collision s = true.
Proof.
  unfold collision_registered. rewrite !andb_true_iff, !Z.eqb_eq. tauto.
Qed.

Lemma player_center lane :
  0 <= lane < LANE_COUNT ->
  i16 (car_lx lane + CAR_W ÷ 2) = car_lx lane + CAR_W ÷ 2 /\
  car_lx lane + CAR_W ÷ 2 = lane_cx lane.
Proof.
  unfold LANE_COUNT. intros H.
  assert (lane = 0 \/ lane = 1 \/ lane = 2) as [->|[->| ->]] by lia;
    by vm_compute.
Qed.

Lemma invincible_ticks_tick_prefix s :
  invincible_ticks (tick_prefix s) =
  if 0 <? invincible_ticks s then u8 (invincible_ticks s - 1)
  else invincible_ticks s.
Proof.
  unfold tick_prefix. cbv zeta. autorewrite with frame.
  unfold tick_counters. step_cases; congruence.
Qed.

Lemma shield_ticks_tick_counters s :
  shield_ticks (tick_counters s) =
  if 0 <? shield_ticks s then u8 (shield_ticks s - 1) else shield_ticks s.
Proof. unfold tick_counters. step_cases; congruence. Qed.

Lemma shield_ticks_check_collections s :
  0 < shield_ticks s -> 0 < shield_ticks (check_collections s).
Proof.
  intros H. unfold check_collections. cbv zeta.
  apply (for_loop_inv (fun s' => 0 < shield_ticks s')).
  - by rewrite (for_loop_frame shield_ticks) by frame_step.
  - intros i s' Hs'. unfold powerup_step, play_sound, emit.
    step_cases; lia.
Qed.

(** Timers that are at least 2 when a tick starts are still positive at
    its collision step. *)
Lemma timers_cover_collision_step s :
  2 <= invincible_ticks s <= 255 \/ 2 <= shield_ticks s <= 255 ->
  0 < invincible_ticks (tick_prefix s) \/ 0 < shield_ticks (tick_prefix s).
Proof.
  intros [H|H].
  - left. rewrite invincible_ticks_tick_prefix.
    destruct (Z.ltb_spec 0 (invincible_ticks s)); [|lia].
    rewrite u8_small; lia.
  - right. unfold tick_prefix. cbv zeta.
    apply shield_ticks_check_collections. autorewrite with frame.
    rewrite shield_ticks_tick_counters.
    destruct (Z.ltb_spec 0 (shield_ticks s)); [|lia].
    rewrite u8_small; lia.
Qed.

(** C2 (amended). While the invincibility timer or the shield timer is
    positive the collision block returns the state it was given, whatever
    the obstacles are, and the tick goes on to the level update; the
    timers are read after the tick has decremented them, so a timer of at
    least 2 at the start of the tick is enough.  A
    registered collision (both timers 0, some live obstacle overlapping)
    takes one life, sets combo to 0 and overwrites the particle pool with
    a burst at the centre of the player's box; it then sets the
    invincibility timer to 20, unless that life was the last one: then the
    block ends the game and returns with the timer still at 0. *)
Theorem collision_ignored_or_resolved s :
  ((0 < invincible_ticks s \/ 0 < shield_ticks s) ->
   collision_block s = (s, false)) /\
  (state s = StatePlaying ->
   0 < invincible_ticks (tick_prefix s) \/ 0 < shield_ticks (tick_prefix s) ->
   game_tick s = level_up (tick_prefix s)) /\
  (state s = StatePlaying ->
   2 <= invincible_ticks s <= 255 \/ 2 <= shield_ticks s <= 255 ->
   game_tick s = level_up (tick_prefix s)) /\
  (invincible_ticks s = 0 -> shield_ticks s = 0 -> check_collision s = true ->
   1 <= lives s <= 255 -> 0 <= player_lane s < LANE_COUNT ->
   lives (fst (collision_block s)) = lives s - 1 /\
   combo (fst (collision_block s)) = 0 /\
   (forall i p, (i < MAX_PARTICLES)%nat ->
      particles (fst (collision_block s)) !! i = Some p ->
      burst_at (car_lx (player_lane s) + CAR_W ÷ 2)
               (PLAYER_Y + CAR_H ÷ 2) p) /\
   (lives s <> 1 ->
    invincible_ticks (fst (collision_block s)) = 20 /\
    state (fst (collision_block s)) = state s /\
    snd (collision_block s) = false) /\
   (lives s = 1 ->
    invincible_ticks (fst (collision_block s)) = 0 /\
    state (fst (collision_block s)) = StateGameOver /\
    snd (collision_block s) = true)).
Proof.
  assert (Hign : forall x, 0 < invincible_ticks x \/ 0 < shield_ticks x ->
                           collision_registered x = false).
  { intros x Hx. unfold collision_registered.
    destruct (invincible_ticks x =? 0) eqn:Hi; [|done].
    destruct (shield_ticks x =? 0) eqn:Hsh; [|done].
    apply Z.eqb_eq in Hi, Hsh. lia. }
  assert (Htick : state s = StatePlaying ->
    0 < invincible_ticks (tick_prefix s) \/ 0 < shield_ticks (tick_prefix s) ->
    game_tick s = level_up (tick_prefix s)).
  { intros Hs H.
    destruct (game_tick_cases s Hs) as [[_ ->]|[(Hr&_)|(Hr&_)]];
      [done| |]; rewrite (Hign _ H) in Hr; discriminate. }
  split; [|split; [|split]].
  - intros H. apply collision_block_ignored, Hign, H.
  - exact Htick.
  - intros Hs H. by apply Htick, timers_cover_collision_step.
  - intros Hi Hsh Hc Hl Hlane.
    assert (Hreg : collision_registered s = true)
      by (by apply collision_registered_iff).
    rewrite (collision_block_registered s Hreg).
    assert (Hlc : lives (crash s) = lives s - 1)
      by (rewrite lives_crash, u8_small; lia).
    destruct (player_center (player_lane s) Hlane) as [Hcx _].
    assert (Hcy : i16 (PLAYER_Y + CAR_H ÷ 2) = PLAYER_Y + CAR_H ÷ 2)
      by reflexivity.
    destruct (lives (crash s) =? 0) eqn:Hz; rewrite fst_pair, snd_pair.
    + apply Z.eqb_eq in Hz.
      rewrite lives_game_over, combo_game_over, combo_crash,
        invincible_ticks_game_over, invincible_ticks_crash, state_game_over.
      split; [lia|]. split; [done|]. split.
      { intros i p Hlt Hp. rewrite particles_game_over in Hp.
        rewrite <- Hcx, <- Hcy. by apply (particles_crash s i p). }
      split; [intros; lia|]. done.
    + apply Z.eqb_neq in Hz. frame_rw.
      rewrite combo_crash.
      split; [lia|]. split; [done|]. split.
      { intros i p Hlt Hp. rewrite <- Hcx, <- Hcy.
        by apply (particles_crash s i p). }
      split; [done|]. intros; lia.
Qed.

Lemma collision_ignored_or_resolved_witness :
  collision_block (set_shield_ticks 7 on_player) =
    (set_shield_ticks 7 on_player, false) /\
  lives (fst (collision_block on_player)) = lives on_player - 1 /\
  combo (fst (collision_block on_player)) = 0.
Proof.
  split.
  - apply (proj1 (collision_ignored_or_resolved (set_shield_ticks 7 on_player))).
    right. vm_compute. reflexivity.
  - pose proof (proj2 (proj2 (proj2
      (collision_ignored_or_resolved on_player)))) as H.
    refine (let H' := H _ _ _ _ _ in conj (proj1 H') (proj1 (proj2 H')));
      first [ by vm_compute | cbn; unfold LANE_COUNT; lia ].
Defined.

(** C2 as stated fails on the last life: the collision is registered, the
    tick ends in GameOver and the invincibility timer is still 0. *)
Lemma no_grace_after_last_life :
  state last_life = StatePlaying /\
  collision_registered (tick_prefix last_life) = true /\
  lives (game_tick last_life) = 0 /\
  invincible_ticks (game_tick last_life) = 0 /\
  ~ grace_after_collision (tick_prefix last_life).
Proof.
  repeat split; try (by vm_compute).
  intros H. specialize (H eq_refl). vm_compute in H. discriminate.
Qed.

(** With one tick of invincibility left when the tick starts, the timer
    is 0 at the collision step and the collision is registered. *)
Example grace_ends_before_collision_step :
  invincible_ticks grace_ending = 1 /\
  collision_registered (tick_prefix grace_ending) = true /\
  lives (game_tick grace_ending) = lives grace_ending - 1 /\
  invincible_ticks (game_tick grace_ending) = 20.
Proof. by vm_compute. Qed.

(** ** The coin loop *)

Lemma coin_step_skip px i s :
  (forall c, coins s !! i = Some c -> coin_alive c = true ->
     touches px (coin_lane c) (coin_y c) = false /\ magnet_pull s c = false) ->
  coin_step px i s = s.
Proof.
  intros H. unfold coin_step. destruct (coins s !! i) as [c|]; [|done].
  destruct (coin_alive c) eqn:Ha; cbn [negb]; [|done].
  destruct (H c eq_refl Ha) as [-> ->]. done.
Qed.

Lemma coin_step_pull px i s c :
  coins s !! i = Some c -> coin_alive c = true ->
  touches px (coin_lane c) (coin_y c) = false -> magnet_pull s c = true ->
  coin_step px i s = set_coins (<[i := pulled s c]> (coins s)) s.
Proof.
  intros Hc Ha Ht Hm. unfold coin_step, pulled. rewrite Hc, Ha.
  cbn [negb]. cbv zeta. by rewrite Ht, Hm.
Qed.

Lemma coin_step_collect px i s c :
  coins s !! i = Some c -> coin_alive c = true ->
  touches px (coin_lane c) (coin_y c) = true ->
  coin_step px i s =
  play_sound (1200 + u8 (combo s + 1) * 100) 25
    (set_score (u32 (score s + coin_points (u8 (combo s + 1))))
       (set_combo_display 15
          (set_combo (u8 (combo s + 1))
             (set_coins (<[i := kill_coin c]> (coins s)) s)))).
Proof.
  intros Hc Ha Ht. unfold coin_step. rewrite Hc, Ha, Ht. cbn.
  assert (Hp : u32 (25 * (if 1 <? u8 (combo s + 1) then u8 (combo s + 1)
                          else 1)) = coin_points (u8 (combo s + 1))).
  { unfold coin_points. pose proof (u8_range (combo s + 1)).
    destruct (Z.ltb_spec 1 (u8 (combo s + 1))); rewrite u32_small; lia. }
  by rewrite andb_false_r, Hp.
Qed.

Lemma coin_step_cases px i s :
  coin_step px i s = s \/
  (exists c, coins s !! i = Some c /\ coin_alive c = true /\
     touches px (coin_lane c) (coin_y c) = false /\ magnet_pull s c = true /\
     coin_step px i s = set_coins (<[i := pulled s c]> (coins s)) s) \/
  (exists c, coins s !! i = Some c /\ coin_alive c = true /\
     touches px (coin_lane c) (coin_y c) = true /\
     coin_step px i s =
     play_sound (1200 + u8 (combo s + 1) * 100) 25
       (set_score (u32 (score s + coin_points (u8 (combo s + 1))))
          (set_combo_display 15
             (set_combo (u8 (combo s + 1))
                (set_coins (<[i := kill_coin c]> (coins s)) s))))).
Proof.
  destruct (coins s !! i) as [c|] eqn:Hc;
    [|left; apply coin_step_skip; intros c; congruence].
  destruct (coin_alive c) eqn:Ha;
    [|left; apply coin_step_skip; intros c' Hc'; congruence].
  destruct (touches px (coin_lane c) (coin_y c)) eqn:Ht.
  - right. right. exists c. eauto using coin_step_collect.
  - destruct (magnet_pull s c) eqn:Hm.
    + right. left. exists c. eauto 6 using coin_step_pull.
    + left. apply coin_step_skip. intros c' Hc' _.
      rewrite Hc in Hc'. injection Hc' as <-. done.
Qed.

(** ** Score gained in a tick *)

Lemma score_gain_refl s : 0 <= score s < 2 ^ 32 -> score_gain 0 s s.
Proof. intros H. exists 0. rewrite Z.add_0_r, u32_small; [lia|done]. Qed.

Lemma score_gain_range b s s' : score_gain b s s' -> 0 <= score s' < 2 ^ 32.
Proof. intros (g & _ & ->). apply u32_range. Qed.

Lemma score_gain_trans b1 b2 s1 s2 s3 :
  score_gain b1 s1 s2 -> score_gain b2 s2 s3 -> score_gain (b1 + b2) s1 s3.
Proof.
  intros (g1 & H1 & E1) (g2 & H2 & E2). exists (g1 + g2). split; [lia|].
  rewrite E2, E1, u32_add_l. f_equal. lia.
Qed.

Lemma score_gain_weaken b b' s s' :
  b <= b' -> score_gain b s s' -> score_gain b' s s'.
Proof. intros Hb (g & Hg & E). exists g. split; [lia|done]. Qed.

Lemma score_gain_same s s' :
  0 <= score s < 2 ^ 32 -> score s' = score s -> score_gain 0 s s'.
Proof. intros H E. exists 0. rewrite E, Z.add_0_r, u32_small; [lia|done]. Qed.

Lemma for_loop_score_gain b n body s :
  0 <= b -> 0 <= score s < 2 ^ 32 ->
  (forall i s', 0 <= score s' < 2 ^ 32 -> score_gain b s' (body i s')) ->
  score_gain (b * Z.of_nat n) s (for_loop n body s).
Proof.
  intros Hb Hr Hstep.
  apply (for_loop_ind (fun k s' => score_gain (b * Z.of_nat k) s s')).
  - rewrite Z.mul_0_r. by apply score_gain_refl.
  - intros i s' _ IH.
    replace (b * Z.of_nat (S i)) with (b * Z.of_nat i + b) by lia.
    eapply score_gain_trans; [exact IH|].
    apply Hstep. eapply score_gain_range, IH.
Qed.

Lemma score_gain_obstacle_step spd i s :
  0 <= score s < 2 ^ 32 -> score_gain 10 s (obstacle_step spd i s).
Proof.
  intros Hr. unfold obstacle_step.
  destruct (obstacles s !! i) as [o|];
    [|by apply (score_gain_weaken 0); [lia|apply score_gain_refl]].
  destruct (obs_alive o); cbn [negb];
    [|by apply (score_gain_weaken 0); [lia|apply score_gain_refl]].
  cbv zeta. case_match.
  - exists 10. split; [lia|]. reflexivity.
  - apply (score_gain_weaken 0); [lia|]. by apply score_gain_same.
Qed.

Lemma score_gain_coin_step px i s :
  0 <= score s < 2 ^ 32 -> score_gain (25 * 255) s (coin_step px i s).
Proof.
  intros Hr.
  destruct (coin_step_cases px i s) as [->|[(c&_&_&_&_&->)|(c&_&_&_&->)]].
  - apply (score_gain_weaken 0); [lia|]. by apply score_gain_refl.
  - apply (score_gain_weaken 0); [lia|]. by apply score_gain_same.
  - exists (coin_points (u8 (combo s + 1))). split.
    + unfold coin_points. pose proof (u8_range (combo s + 1)). lia.
    + by frame_rw.
Qed.

Lemma score_gain_move_entities s :
  0 <= score s < 2 ^ 32 -> score_gain (10 * 5) s (move_entities s).
Proof.
  intros Hr. unfold move_entities. cbv zeta.
  pose proof (for_loop_score_gain 10 MAX_OBS
    (obstacle_step (3 + level s ÷ 2)) s) as (g & Hg & E);
    [lia|done|intros; by apply score_gain_obstacle_step|].
  exists g. split; [exact Hg|].
  by do 2 rewrite (for_loop_frame score) by frame_step.
Qed.

Lemma score_gain_check_collections s :
  0 <= score s < 2 ^ 32 -> score_gain (25 * 255 * 3) s (check_collections s).
Proof.
  intros Hr. unfold check_collections. cbv zeta.
  pose proof (for_loop_score_gain (25 * 255) MAX_COINS
    (coin_step (car_lx (player_lane s))) s) as (g & Hg & E);
    [lia|done|intros; by apply score_gain_coin_step|].
  exists g. split; [exact Hg|].
  by rewrite (for_loop_frame score) by frame_step.
Qed.

Lemma score_gain_tick_prefix s :
  0 <= score s < 2 ^ 32 -> score_gain MAX_TICK_GAIN s (tick_prefix s).
Proof.
  intros Hr. unfold tick_prefix. cbv zeta.
  set (s1 := move_scenery (update_particles (tick_counters s))).
  assert (E1 : score s1 = score s)
    by (unfold s1; by autorewrite with frame).
  assert (H2 : score_gain (10 * 5) s1 (move_entities s1))
    by (apply score_gain_move_entities; by rewrite E1).
  assert (H3 : score_gain (10 * 5) s1 (spawn_phase (move_entities s1))).
  { destruct H2 as (g & Hg & E). exists g. split; [done|].
    by rewrite score_spawn_phase. }
  pose proof (score_gain_check_collections _ (score_gain_range _ _ _ H3))
    as H4.
  pose proof (score_gain_trans _ _ _ _ _ H3 H4) as (g & Hg & E).
  exists g. split; [exact Hg|]. by rewrite E, E1.
Qed.

(** ** Level and score *)

Lemma level_level_up s :
  level (level_up s) = Z.max (level s) (Z.min (u8 (score s / 200)) 9).
Proof.
  unfold level_up. cbv zeta.
  set (nl := if 9 <? u8 (score s / 200) then 9 else u8 (score s / 200)).
  assert (Hnl : nl = Z.min (u8 (score s / 200)) 9)
    by (unfold nl; destruct (Z.ltb_spec 9 (u8 (score s / 200))); lia).
  destruct (Z.ltb_spec (level s) nl) as [Hlt|Hge]; [|lia].
  transitivity nl; [|lia].
  repeat first [ proj_set | helper_frame | case_match ]; reflexivity.
Qed.

Lemma level_tick_prefix s : level (tick_prefix s) = level s.
Proof. unfold tick_prefix. cbv zeta. by autorewrite with frame. Qed.

Lemma level_game_tick_cases s :
  level (game_tick s) = level s \/
  exists x, level x = level s /\ score x = score (tick_prefix s) /\
            state x = state s /\
            state (game_tick s) = state s /\
            state s = StatePlaying /\ game_tick s = level_up x.
Proof.
  destruct (decide (state s = StatePlaying)) as [Hs|Hs];
    [|left; by rewrite game_tick_idle].
  destruct (game_tick_cases s Hs) as [[_ E]|[(_ & _ & E)|(_ & _ & E)]].
  - right. exists (tick_prefix s).
    rewrite E, state_level_up, level_tick_prefix, state_tick_prefix. done.
  - left. by rewrite E, level_game_over, level_crash, level_tick_prefix.
  - right. exists (set_invincible_ticks 20 (crash (tick_prefix s))).
    rewrite E, state_level_up. frame_rw.
    rewrite level_tick_prefix, state_tick_prefix. done.
Qed.

Lemma level_game_tick_bounds s :
  level s <= level (game_tick s) /\
  (level s <= 9 -> level (game_tick s) <= 9).
Proof.
  destruct (level_game_tick_cases s) as [->|(x & Hl & _ & _ & _ & _ & ->)];
    [lia|]. rewrite level_level_up. lia.
Qed.

Lemma level_score_game_init s :
  level (game_init s) = 0 /\ score (game_init s) = 0.
Proof.
  unfold game_init. cbv zeta. frame_rw.
  do 4 rewrite (for_loop_frame level) by frame_step.
  do 4 rewrite (for_loop_frame score) by frame_step.
  by frame_rw.
Qed.

Lemma reachable_level s : reachable s -> 0 <= level s <= 9.
Proof.
  induction 1 as [stored opens src|ev s s' _ IH Hev]; [done|].
  assert (Hkey : forall key, handle_key key s = Some s' ->
                             0 <= level s' <= 9).
  { intros key Hk. apply handle_key_cases in Hk.
    destruct Hk as [->|(_ & _ & -> & _)]; [|done].
    destruct (level_score_game_init s) as [-> _]. lia. }
  destruct ev as [|ty key]; cbn in Hev.
  - simplify_eq. pose proof (level_game_tick_bounds s). lia.
  - destruct ty; simplify_eq; eauto.
Qed.

(** C1 (amended). On every tick the level does not decrease, and it stays
    at most 9 if it was; in every state the event loop can reach it is
    between 0 and 9.  If the level equals min(score / 200, 9) before a
    tick of a session in play (as it does after [game_init]), the score is
    far enough from 2^32 not to wrap on this tick, and the tick leaves the
    session in play, then the level equals min(score / 200, 9) after it. *)
Theorem level_tracks_score s :
  level s <= level (game_tick s) /\
  (level s <= 9 -> level (game_tick s) <= 9) /\
  (reachable s -> 0 <= level s <= 9) /\
  level (game_init s) = Z.min (score (game_init s) / 200) 9 /\
  (state s = StatePlaying ->
   0 <= score s -> score s + MAX_TICK_GAIN < 2 ^ 32 ->
   level s = Z.min (score s / 200) 9 ->
   state (game_tick s) = StatePlaying ->
   level (game_tick s) = Z.min (score (game_tick s) / 200) 9).
Proof.
  split; [|split; [|split; [|split]]].
  - apply level_game_tick_bounds.
  - apply level_game_tick_bounds.
  - apply reachable_level.
  - by destruct (level_score_game_init s) as [-> ->].
  - intros Hs H0 Hmax Hinv Hs'. unfold MAX_TICK_GAIN in Hmax.
    destruct (score_gain_tick_prefix s) as (g & Hg & Hsc); [lia|].
    unfold MAX_TICK_GAIN in Hg. rewrite u32_small in Hsc by lia.
    destruct (game_tick_cases s Hs) as [[_ E]|[(_ & _ & E)|(_ & _ & E)]].
    + rewrite E, level_level_up, score_level_up, level_tick_prefix, Hsc.
      destruct (Z.lt_ge_cases (score s) 1800) as [Hlow|Hhigh].
      * rewrite u8_small by (Z.div_mod_to_equations; lia).
        Z.div_mod_to_equations; lia.
      * pose proof (u8_range ((score s + g) / 200)).
        Z.div_mod_to_equations; lia.
    + rewrite E, state_game_over in Hs'. discriminate.
    + rewrite E, level_level_up, score_level_up. frame_rw.
      rewrite level_tick_prefix, Hsc.
      destruct (Z.lt_ge_cases (score s) 1800) as [Hlow|Hhigh].
      * rewrite u8_small by (Z.div_mod_to_equations; lia).
        Z.div_mod_to_equations; lia.
      * pose proof (u8_range ((score s + g) / 200)).
        Z.div_mod_to_equations; lia.
Qed.

Lemma level_tracks_score_witness :
  0 <= level first_episode <= 9 /\
  level (game_tick on_player) = Z.min (score (game_tick on_player) / 200) 9.
Proof.
  split.
  - apply (proj1 (proj2 (proj2 (level_tracks_score first_episode)))).
    exact reachable_first_episode.
  - apply (proj2 (proj2 (proj2 (proj2 (level_tracks_score on_player)))));
      first [ by vm_compute | cbn; unfold MAX_TICK_GAIN; lia ].
Defined.

(** C1 as stated fails on the tick that ends the game: the retiring
    obstacle brings the score to 200, the collision takes the last life,
    and the tick returns before the level update, at level 0. *)
Lemma level_stale_on_game_over_tick :
  state last_life = StatePlaying /\
  level last_life = Z.min (score last_life / 200) 9 /\
  score (game_tick last_life) = 200 /\
  level (game_tick last_life) = 0 /\
  level (game_tick last_life) <>
    Z.min (score (game_tick last_life) / 200) 9.
Proof. repeat split; by vm_compute. Qed.

(** ** Collecting and pulling coins *)



(** Two coins on the player in one tick: 25 for the first, 50 for the
    second. *)
Example two_coins_in_one_tick :
  combo (game_tick two_coins) = 2 /\ score (game_tick two_coins) = 75.
Proof. by vm_compute. Qed.

Lemma coin_step_other px j s i :
  i <> j -> coins (coin_step px j s) !! i = coins s !! i.
Proof.
  intros Hne.
  destruct (coin_step_cases px j s) as [->|[(c&_&_&_&_&->)|(c&_&_&_&->)]];
    [done| |]; frame_rw; by rewrite list_lookup_insert_ne.
Qed.

Lemma magnet_pull_same s s' c :
  magnet_ticks s' = magnet_ticks s -> magnet_pull s' c = magnet_pull s c.
Proof. unfold magnet_pull. by intros ->. Qed.

Lemma pulled_same s s' c :
  player_lane s' = player_lane s -> pulled s' c = pulled s c.
Proof. unfold pulled. by intros ->. Qed.

(** A coin that the coin loop pulls is still there, pulled once, when
    [check_collections] returns. *)
Lemma check_collections_pull s i c :
  (i < MAX_COINS)%nat ->
  coins s !! i = Some c -> coin_alive c = true ->
  touches (car_lx (player_lane s)) (coin_lane c) (coin_y c) = false ->
  magnet_pull s c = true ->
  coins (check_collections s) !! i = Some (pulled s c).
Proof.
  intros Hi Hc Ha Ht Hm. unfold check_collections. cbv zeta.
  rewrite (for_loop_frame coins) by frame_step.
  assert (Hloop : forall n,
    let s' := for_loop n (coin_step (car_lx (player_lane s))) s in
    magnet_ticks s' = magnet_ticks s /\ player_lane s' = player_lane s /\
    coins s' !! i = Some (if (i <? n)%nat then pulled s c else c)).
  { intros n. cbv zeta.
    apply (for_loop_ind (fun n s' =>
      magnet_ticks s' = magnet_ticks s /\ player_lane s' = player_lane s /\
      coins s' !! i = Some (if (i <? n)%nat then pulled s c else c))).
    - done.
    - intros k s' _ (Hmt & Hpl & Hck).
      split; [|split].
      + rewrite <- Hmt. frame_step.
      + rewrite <- Hpl. frame_step.
      + destruct (decide (i = k)) as [<-|Hne].
        * rewrite Nat.ltb_irrefl in Hck.
          rewrite (coin_step_pull _ i s' c Hck Ha Ht)
            by (by rewrite (magnet_pull_same s s')).
          frame_rw. rewrite (pulled_same s s') by done.
          replace (i <? S i)%nat with true by (symmetry; apply Nat.ltb_lt; lia).
          apply list_lookup_insert_eq. by apply lookup_lt_Some in Hck.
        * rewrite coin_step_other by done. rewrite Hck. f_equal.
          destruct (Nat.ltb_spec i k), (Nat.ltb_spec i (S k)); try done; lia. }
  destruct (Hloop MAX_COINS) as (_ & _ & ->).
  by replace (i <? MAX_COINS)%nat with true
    by (symmetry; by apply Nat.ltb_lt).
Qed.

(** C6 (amended). A live coin within 30 pixels of the player's row that
    does not overlap the player is pulled while the magnet timer is
    positive: its offset goes up by 4 when it is above the player's row
    and down by 4 when it is below, and its lane goes one step toward the
    player's lane, or stays when it is already there.  The pull does not
    collect: combo, score, combo display and cues are untouched, and when
    the coin loop and the power-up loop are over the coin is still live,
    pulled exactly once. *)
Theorem magnet_pulls_without_collecting s i c :
  coins s !! i = Some c -> coin_alive c = true ->
  0 < magnet_ticks s -> Z.abs (coin_y c - PLAYER_Y) < 30 ->
  touches (car_lx (player_lane s)) (coin_lane c) (coin_y c) = false ->
  -128 <= coin_lane c <= 127 -> -128 <= player_lane s <= 127 ->
  let s' := coin_step (car_lx (player_lane s)) i s in
  (exists c', coins s' !! i = Some c' /\ coin_alive c' = true /\
     (coin_y c < PLAYER_Y -> coin_y c' = coin_y c + 4) /\
     (PLAYER_Y < coin_y c -> coin_y c' = coin_y c - 4) /\
     (coin_lane c < player_lane s -> coin_lane c' = coin_lane c + 1) /\
     (player_lane s < coin_lane c -> coin_lane c' = coin_lane c - 1) /\
     (coin_lane c = player_lane s -> coin_lane c' = coin_lane c) /\
     ((i < MAX_COINS)%nat -> coins (check_collections s) !! i = Some c')) /\
  combo s' = combo s /\ score s' = score s /\
  combo_display s' = combo_display s /\ cues s' = cues s.
Proof.
  intros Hc Ha Hmt Hd Ht Hl Hpl. cbv zeta.
  assert (Hm : magnet_pull s c = true).
  { unfold magnet_pull. apply andb_true_iff. split;
      [by apply Z.ltb_lt|by apply Z.ltb_lt]. }
  rewrite (coin_step_pull _ i s c Hc Ha Ht Hm).
  split; [|by frame_rw].
  exists (pulled s c). frame_rw.
  split; [apply list_lookup_insert_eq; by apply lookup_lt_Some in Hc|].
  split; [done|].
  split; [|split; [|split; [|split; [|split]]]];
    try (intros Hi; by apply check_collections_pull);
    unfold pulled, PLAYER_Y in *; cbn; intros H.
  - destruct (Z.ltb_spec (coin_y c) 105); [|lia].
    rewrite i16_small; lia.
  - destruct (Z.ltb_spec (coin_y c) 105); [lia|].
    rewrite i16_small; lia.
  - destruct (Z.ltb_spec (coin_lane c) (player_lane s)); [|lia].
    rewrite i8_small; lia.
  - destruct (Z.ltb_spec (coin_lane c) (player_lane s)); [lia|].
    destruct (Z.ltb_spec (player_lane s) (coin_lane c)); [|lia].
    rewrite i8_small; lia.
  - destruct (Z.ltb_spec (coin_lane c) (player_lane s)); [lia|].
    destruct (Z.ltb_spec (player_lane s) (coin_lane c)); [lia|done].
Qed.

Lemma magnet_pulls_without_collecting_witness :
  (exists c', coins (coin_step (car_lx (player_lane magnet_side)) 0
                       magnet_side) !! 0%nat = Some c' /\
     coin_alive c' = true /\
     (90 < PLAYER_Y -> coin_y c' = 90 + 4) /\
     (PLAYER_Y < 90 -> coin_y c' = 90 - 4) /\
     (0 < player_lane magnet_side -> coin_lane c' = 0 + 1) /\
     (player_lane magnet_side < 0 -> coin_lane c' = 0 - 1) /\
     (0 = player_lane magnet_side -> coin_lane c' = 0) /\
     ((0 < MAX_COINS)%nat ->
      coins (check_collections magnet_side) !! 0%nat = Some c')) /\
  combo (coin_step (car_lx (player_lane magnet_side)) 0 magnet_side) =
    combo magnet_side /\
  score (coin_step (car_lx (player_lane magnet_side)) 0 magnet_side) =
    score magnet_side /\
  combo_display (coin_step (car_lx (player_lane magnet_side)) 0 magnet_side) =
    combo_display magnet_side /\
  cues (coin_step (car_lx (player_lane magnet_side)) 0 magnet_side) =
    cues magnet_side.
Proof.
  apply (magnet_pulls_without_collecting magnet_side 0 (coin_at 0 90 true));
    first [ reflexivity | cbn; lia ].
Defined.

(** C6 as stated fails in two ways.  A coin level with the player's row,
    one lane to the left, is moved 4 pixels up, away from the row; a coin
    above the player in the player's own lane is pulled down and keeps its
    lane. *)
Lemma magnet_pull_not_as_claimed :
  (magnet_pull magnet_level (coin_at 0 105 true) = true /\
   touches (car_lx 1) 0 105 = false /\
   coins (coin_step (car_lx 1) 0 magnet_level) !! 0%nat =
     Some (coin_at 1 101 true) /\
   ~ pulled_as_claimed magnet_level (coin_at 0 105 true)
                       (coin_at 1 101 true)) /\
  (magnet_pull magnet_above (coin_at 1 80 true) = true /\
   touches (car_lx 1) 1 80 = false /\
   coins (coin_step (car_lx 1) 0 magnet_above) !! 0%nat =
     Some (coin_at 1 84 true) /\
   ~ pulled_as_claimed magnet_above (coin_at 1 80 true)
                       (coin_at 1 84 true)).
Proof.
  split; (split; [by vm_compute|split; [by vm_compute|
          split; [by vm_compute|]]]);
    unfold pulled_as_claimed; cbn; unfold PLAYER_Y; lia.
Qed.

(** ** Motion and retirement *)

(** A loop whose iteration [i] replaces slot [i] of a pool by [f] of it
    has replaced the first [n] slots after [n] iterations. *)
Lemma for_loop_pointwise {A} (get : RaceGameState -> list A) (f : A -> A)
    body n s :
  (forall i s' j, get (body i s') !! j =
     if decide (i = j) then f <$> get s' !! j else get s' !! j) ->
  forall j, get (for_loop n body s) !! j =
    if (j <? n)%nat then f <$> get s !! j else get s !! j.
Proof.
  intros Hbody.
  apply (for_loop_ind (fun n s' => forall j, get s' !! j =
    if (j <? n)%nat then f <$> get s !! j else get s !! j)).
  - done.
  - intros i s' _ IH j. rewrite Hbody, (IH j).
    destruct (decide (i = j)) as [->|Hne].
    + rewrite Nat.ltb_irrefl.
      by replace (j <? S j)%nat with true by (symmetry; apply Nat.ltb_lt; lia).
    + destruct (Nat.ltb_spec j i), (Nat.ltb_spec j (S i)); try done; lia.
Qed.

Lemma lookup_insert_here {A} (l : list A) i j x y :
  l !! i = Some y ->
  <[i := x]> l !! j = if decide (i = j) then Some x else l !! j.
Proof.
  intros Hi. destruct (decide (i = j)) as [<-|Hne].
  - apply list_lookup_insert_eq. by apply lookup_lt_Some in Hi.
  - by apply list_lookup_insert_ne.
Qed.

Lemma lookup_same_here {A} (f : A -> A) (l : list A) i j :
  (forall y, l !! i = Some y -> f y = y) ->
  l !! j = if decide (i = j) then f <$> l !! j else l !! j.
Proof.
  intros Hf. destruct (decide (i = j)) as [<-|]; [|done].
  destruct (l !! i) as [y|] eqn:E; [|done]. cbn. by rewrite Hf.
Qed.

Lemma obstacle_step_lookup spd i s j :
  obstacles (obstacle_step spd i s) !! j =
  if decide (i = j) then moved_obstacle spd <$> obstacles s !! j
  else obstacles s !! j.
Proof.
  unfold obstacle_step.
  destruct (obstacles s !! i) as [o|] eqn:Hi;
    [|apply lookup_same_here; intros; congruence].
  destruct (obs_alive o) eqn:Ha; cbn [negb].
  - cbv zeta. case_match; frame_rw;
      rewrite (lookup_insert_here _ i j _ o Hi);
      (destruct (decide (i = j)) as [<-|]; [|done]);
      rewrite Hi; cbn; unfold moved_obstacle; rewrite Ha; cbv zeta;
      rewrite H; reflexivity.
  - apply lookup_same_here. intros y Hy. unfold moved_obstacle.
    replace y with o by congruence. by rewrite Ha.
Qed.

Lemma coin_move_step_lookup spd i s j :
  coins (coin_move_step spd i s) !! j =
  if decide (i = j) then moved_coin spd <$> coins s !! j else coins s !! j.
Proof.
  unfold coin_move_step.
  destruct (coins s !! i) as [c|] eqn:Hi;
    [|apply lookup_same_here; intros; congruence].
  destruct (coin_alive c) eqn:Ha.
  - cbv zeta. frame_rw. rewrite (lookup_insert_here _ i j _ c Hi).
    destruct (decide (i = j)) as [<-|]; [|done].
    rewrite Hi. cbn. unfold moved_coin. rewrite Ha. cbv zeta.
    by destruct (SCREEN_H <? _).
  - apply lookup_same_here. intros y Hy. unfold moved_coin.
    replace y with c by congruence. by rewrite Ha.
Qed.

Lemma powerup_move_step_lookup spd i s j :
  powerups (powerup_move_step spd i s) !! j =
  if decide (i = j) then moved_powerup spd <$> powerups s !! j
  else powerups s !! j.
Proof.
  unfold powerup_move_step.
  destruct (powerups s !! i) as [p|] eqn:Hi;
    [|apply lookup_same_here; intros; congruence].
  destruct (pw_alive p) eqn:Ha.
  - cbv zeta. frame_rw. rewrite (lookup_insert_here _ i j _ p Hi).
    destruct (decide (i = j)) as [<-|]; [|done].
    rewrite Hi. cbn. unfold moved_powerup. rewrite Ha. cbv zeta.
    by destruct (SCREEN_H <? _).
  - apply lookup_same_here. intros y Hy. unfold moved_powerup.
    replace y with p by congruence. by rewrite Ha.
Qed.

Lemma score_obstacle_step spd i s :
  score (obstacle_step spd i s) =
  match obstacles s !! i with
  | Some o => if retires spd o then u32 (score s + 10) else score s
  | None => score s
  end.
Proof.
  unfold obstacle_step, retires.
  destruct (obstacles s !! i) as [o|]; [|done].
  destruct (obs_alive o); cbn [negb andb]; [|done].
  cbv zeta. case_match; by frame_rw.
Qed.

Lemma retired_count_snoc spd l o :
  retired_count spd (l ++ [o]) =
  retired_count spd l + (if retires spd o then 1 else 0).
Proof. induction l as [|x l IH]; cbn; [lia|]. rewrite IH. lia. Qed.

Lemma score_obstacle_loop spd n s :
  0 <= score s < 2 ^ 32 ->
  let s' := for_loop n (obstacle_step spd) s in
  score s' = u32 (score s + 10 * retired_count spd (take n (obstacles s))) /\
  obstacles s' !! n = obstacles s !! n.
Proof.
  intros Hr. cbv zeta. split.
  - apply (for_loop_ind (fun n s' =>
      (forall j, (n <= j)%nat -> obstacles s' !! j = obstacles s !! j) /\
      score s' =
        u32 (score s + 10 * retired_count spd (take n (obstacles s))))).
    + split; [done|]. cbn. rewrite Z.add_0_r, u32_small; done.
    + intros i s' _ [Hrest Hsc]. split.
      * intros j Hj. rewrite obstacle_step_lookup.
        destruct (decide (i = j)); [lia|]. apply Hrest. lia.
      * rewrite score_obstacle_step, (Hrest i) by lia.
        destruct (obstacles s !! i) as [o|] eqn:Hi.
        -- rewrite (take_S_r _ _ _ Hi), retired_count_snoc, Hsc.
           destruct (retires spd o).
           ++ rewrite u32_add_l. f_equal. lia.
           ++ f_equal. lia.
        -- apply lookup_ge_None in Hi.
           rewrite !take_ge in * by lia. done.
  - rewrite (for_loop_pointwise obstacles (moved_obstacle spd))
      by apply obstacle_step_lookup.
    by rewrite Nat.ltb_irrefl.
Qed.

(** C5 (amended). With base = 3 + floor(level / 2), the motion loops move
    every live obstacle down by base + 1 (Narrow), base - 1 (Wide) or base
    (Standard) and every live coin and power-up down by base, and leave
    the others alone.  An obstacle is retired exactly when its new offset
    is greater than SCREEN_H + 16 (Wide) or SCREEN_H + 12 (Narrow and
    Standard), and each retirement adds 10 to the score; a coin or a
    power-up is retired exactly when its new offset is greater than
    SCREEN_H. *)
Theorem entities_move_and_retire s :
  0 <= level s <= 255 -> 0 <= score s < 2 ^ 32 ->
  let base := 3 + level s / 2 in
  (forall i, (i < MAX_OBS)%nat ->
     obstacles (move_entities s) !! i =
     moved_obstacle base <$> obstacles s !! i) /\
  (forall i, (i < MAX_COINS)%nat ->
     coins (move_entities s) !! i = moved_coin base <$> coins s !! i) /\
  (forall i, (i < MAX_POWERUPS)%nat ->
     powerups (move_entities s) !! i =
     moved_powerup base <$> powerups s !! i) /\
  score (move_entities s) =
    u32 (score s + 10 * retired_count base (take MAX_OBS (obstacles s))) /\
  (obs_move base ObsMoto = base + 1 /\ obs_move base ObsTruck = base - 1 /\
   obs_move base ObsSedan = base) /\
  (forall o, obs_alive o = true ->
     -32768 <= obs_y o + obs_move base (obs_type o) <= 32767 ->
     obs_y (moved_obstacle base o) = obs_y o + obs_move base (obs_type o) /\
     obs_lane (moved_obstacle base o) = obs_lane o /\
     obs_type (moved_obstacle base o) = obs_type o /\
     (obs_alive (moved_obstacle base o) = false <->
      SCREEN_H + (match obs_type o with ObsTruck => 16 | _ => 12 end) <
      obs_y o + obs_move base (obs_type o)) /\
     (retires base o = true <-> obs_alive (moved_obstacle base o) = false)) /\
  (forall c, coin_alive c = true -> -32768 <= coin_y c + base <= 32767 ->
     coin_y (moved_coin base c) = coin_y c + base /\
     coin_lane (moved_coin base c) = coin_lane c /\
     (coin_alive (moved_coin base c) = false <-> SCREEN_H < coin_y c + base)) /\
  (forall p, pw_alive p = true -> -32768 <= pw_y p + base <= 32767 ->
     pw_y (moved_powerup base p) = pw_y p + base /\
     pw_lane (moved_powerup base p) = pw_lane p /\
     pw_type (moved_powerup base p) = pw_type p /\
     (pw_alive (moved_powerup base p) = false <-> SCREEN_H < pw_y p + base)) /\
  (forall o, obs_alive o = false -> moved_obstacle base o = o) /\
  (forall c, coin_alive c = false -> moved_coin base c = c) /\
  (forall p, pw_alive p = false -> moved_powerup base p = p).
Proof.
  intros Hl Hsc. cbv zeta. unfold move_entities. cbv zeta.
  rewrite Z.quot_div_nonneg by lia.
  set (base := 3 + level s / 2).
  split; [|split; [|split; [|split; [|split; [|split; [|split; [|split]]]]]]].
  - intros i Hi. do 2 rewrite (for_loop_frame obstacles) by frame_step.
    rewrite (for_loop_pointwise obstacles (moved_obstacle base))
      by apply obstacle_step_lookup.
    by replace (i <? MAX_OBS)%nat with true by (symmetry; by apply Nat.ltb_lt).
  - intros i Hi. rewrite (for_loop_frame coins) by frame_step.
    rewrite (for_loop_pointwise coins (moved_coin base))
      by apply coin_move_step_lookup.
    rewrite (for_loop_frame coins) by frame_step.
    by replace (i <? MAX_COINS)%nat with true
      by (symmetry; by apply Nat.ltb_lt).
  - intros i Hi.
    rewrite (for_loop_pointwise powerups (moved_powerup base))
      by apply powerup_move_step_lookup.
    do 2 rewrite (for_loop_frame powerups) by frame_step.
    by replace (i <? MAX_POWERUPS)%nat with true
      by (symmetry; by apply Nat.ltb_lt).
  - do 2 rewrite (for_loop_frame score) by frame_step.
    apply (score_obstacle_loop base MAX_OBS s Hsc).
  - unfold obs_move. repeat split; lia.
  - intros o Ha Hy. unfold moved_obstacle, retires. rewrite Ha. cbn.
    rewrite i16_small by done. unfold obs_exit_h.
    split; [done|]. split; [done|]. split; [done|].
    rewrite negb_false_iff, !Z.ltb_lt. by destruct (obs_type o).
  - intros c Ha Hy. unfold moved_coin. rewrite Ha. cbn.
    rewrite i16_small by done. split; [done|]. split; [done|].
    by rewrite negb_false_iff, Z.ltb_lt.
  - intros p Ha Hy. unfold moved_powerup. rewrite Ha. cbn.
    rewrite i16_small by done. split; [done|]. split; [done|].
    split; [done|]. by rewrite negb_false_iff, Z.ltb_lt.
  - split; [|split]; intros x Hx;
      [unfold moved_obstacle|unfold moved_coin|unfold moved_powerup];
      by rewrite Hx.
Qed.

Lemma entities_move_and_retire_witness :
  score (move_entities traffic) =
  u32 (score traffic +
       10 * retired_count (3 + level traffic / 2)
              (take MAX_OBS (obstacles traffic))).
Proof.
  refine (proj1 (proj2 (proj2 (proj2
            (entities_move_and_retire traffic _ _))))); by vm_compute.
Defined.

(** At level 4 the base is 5: the sedans move by 5, the truck by 4 and
    retires past 144, the motorbike by 6 and retires past 140, the coin
    retires past 128; the two retired obstacles are worth 20 points. *)
Example traffic_after_motion :
  obstacles (move_entities traffic) =
    [sedan 0 55 true;
     {| obs_lane := 1; obs_y := 147; obs_alive := false;
        obs_type := ObsTruck |};
     sedan 0 0 false;
     {| obs_lane := 2; obs_y := 143; obs_alive := false;
        obs_type := ObsMoto |};
     sedan 2 15 true] /\
  coins (move_entities traffic) =
    [coin_at 0 131 false; coin_at 2 25 true; coin_at 0 0 false] /\
  powerups (move_entities traffic) =
    [powerup_at 1 65 true PwFuel; powerup_at 0 0 false PwShield] /\
  score (move_entities traffic) = 820.
Proof. by vm_compute. Qed.

(** C5 as stated fails whichever edge is taken as the leading one.  With
    the top edge (the stored offset), a coin at 129 is retired although it
    is not 8 pixels past the bottom; with the bottom edge (offset plus
    height), a sedan whose bottom edge is at 142, more than its height of
    12 past the bottom, is not retired. *)
Lemma retirement_not_by_own_height :
  (coins coin_low !! 0%nat = Some (coin_at 0 126 true) /\
   coins (move_entities coin_low) !! 0%nat = Some (coin_at 0 129 false) /\
   retires_as_claimed 129 8 = false) /\
  (obstacles sedan_low !! 0%nat = Some (sedan 0 127 true) /\
   obstacles (move_entities sedan_low) !! 0%nat = Some (sedan 0 130 true) /\
   retires_as_claimed (130 + obs_oh ObsSedan) (obs_oh ObsSedan) = true).
Proof. by vm_compute. Qed.

(** ** The combo counter *)

Lemma combo_coin_step px i s :
  combo (coin_step px i s) = combo s \/
  combo (coin_step px i s) = u8 (combo s + 1).
Proof.
  destruct (coin_step_cases px i s) as [->|[(c&_&_&_&_&->)|(c&_&_&_&->)]];
    [by left|left|right]; by frame_rw.
Qed.

Lemma combo_check_collections s :
  0 <= combo s -> combo s + Z.of_nat MAX_COINS <= 255 ->
  combo s <= combo (check_collections s) <= combo s + Z.of_nat MAX_COINS.
Proof.
  intros H0 Hmax. unfold check_collections. cbv zeta.
  rewrite (for_loop_frame combo) by frame_step.
  apply (for_loop_ind (fun n s' =>
    combo s <= combo s' <= combo s + Z.of_nat n)); [lia|].
  intros i s' Hi IH.
  destruct (combo_coin_step (car_lx (player_lane s)) i s') as [->| ->];
    [lia|]. rewrite u8_small; lia.
Qed.

(** Within an episode the only assignments to combo are the reset of a
    registered collision and the 8-bit increment of a collected coin: a
    tick with a collision ends with combo 0, and a tick without one does
    not lower combo as long as the counter is at most 252 before it. *)
Lemma combo_game_tick s :
  state s = StatePlaying ->
  (collision_registered (tick_prefix s) = true -> combo (game_tick s) = 0) /\
  (collision_registered (tick_prefix s) = false ->
   0 <= combo s -> combo s + 3 <= 255 ->
   combo s <= combo (game_tick s) <= combo s + 3).
Proof.
  intros Hs. split.
  - intros Hreg.
    destruct (game_tick_cases s Hs) as [[Hn _]|[(_ & _ & ->)|(_ & _ & ->)]];
      [congruence| |].
    + by rewrite combo_game_over, combo_crash.
    + rewrite combo_level_up. frame_rw. apply combo_crash.
  - intros Hreg H0 Hmax.
    destruct (game_tick_cases s Hs) as [[_ ->]|[(Hr & _)|(Hr & _)]];
      [|congruence|congruence].
    rewrite combo_level_up. unfold tick_prefix. cbv zeta.
    pose proof (combo_check_collections
      (spawn_phase (move_entities (move_scenery (update_particles
        (tick_counters s)))))) as Hc.
    autorewrite with frame in Hc. apply Hc; [done|]. unfold MAX_COINS. lia.
Qed.

(** C8 (code defect). With combo at 255 and a coin on the player, a tick
    without any collision takes combo to 0: the increment of the 8-bit
    counter wraps, and the coin is paid 25 points. *)
Theorem combo_wraps_at_255 :
  state long_combo = StatePlaying /\
  combo long_combo = 255 /\
  collision_registered (tick_prefix long_combo) = false /\
  lives (game_tick long_combo) = lives long_combo /\
  combo (game_tick long_combo) = 0 /\
  score (game_tick long_combo) = score long_combo + 25.
Proof. by vm_compute. Qed.

(** * Further properties of the simulation core *)

(** ** Fields a phase never writes

    For a field [get] that the assignments of a phase leave alone, the
    phase leaves it alone; each lemma asks for exactly the assignments its
    phase can make. *)

Section Frame.
Context {A : Type} (get : RaceGameState -> A).

Hypothesis get_state : forall v s, get (set_state v s) = get s.
Hypothesis get_score : forall v s, get (set_score v s) = get s.
Hypothesis get_high_score : forall v s, get (set_high_score v s) = get s.
Hypothesis get_level : forall v s, get (set_level v s) = get s.
Hypothesis get_lives : forall v s, get (set_lives v s) = get s.
Hypothesis get_speed : forall v s, get (set_speed v s) = get s.
Hypothesis get_tick_count : forall v s, get (set_tick_count v s) = get s.
Hypothesis get_road_scroll : forall v s, get (set_road_scroll v s) = get s.
Hypothesis get_invincible_ticks :
  forall v s, get (set_invincible_ticks v s) = get s.
Hypothesis get_shield_ticks : forall v s, get (set_shield_ticks v s) = get s.
Hypothesis get_magnet_ticks : forall v s, get (set_magnet_ticks v s) = get s.
Hypothesis get_combo : forall v s, get (set_combo v s) = get s.
Hypothesis get_combo_display :
  forall v s, get (set_combo_display v s) = get s.
Hypothesis get_obstacles : forall v s, get (set_obstacles v s) = get s.
Hypothesis get_coins : forall v s, get (set_coins v s) = get s.
Hypothesis get_powerups : forall v s, get (set_powerups v s) = get s.
Hypothesis get_scenery : forall v s, get (set_scenery v s) = get s.
Hypothesis get_particles : forall v s, get (set_particles v s) = get s.
Hypothesis get_timer : forall v s, get (set_timer v s) = get s.
Hypothesis get_rand_pos : forall v s, get (set_rand_pos v s) = get s.
Hypothesis get_cues : forall v s, get (set_cues v s) = get s.
Hypothesis get_file : forall v s, get (set_file v s) = get s.
Hypothesis get_open_pos : forall v s, get (set_open_pos v s) = get s.

Ltac by_hyps :=
  repeat match goal with
  | H : forall v s, get (?set v s) = get s |- context [get (?set _ _)] =>
      rewrite !H
  end; try reflexivity.

Ltac gstep :=
  intros; unfold_steps; repeat case_match; by_hyps.

Ltac gloop := rewrite (for_loop_frame get) by gstep.

Lemma frame_tick_counters s : get (tick_counters s) = get s.
Proof. unfold tick_counters. cbv zeta. repeat case_match; by_hyps. Qed.

Lemma frame_update_particles s : get (update_particles s) = get s.
Proof. unfold update_particles. by gloop. Qed.

Lemma frame_spawn_particles cx cy s : get (spawn_particles cx cy s) = get s.
Proof. unfold spawn_particles. by gloop. Qed.

Lemma frame_init_scenery s : get (init_scenery s) = get s.
Proof. unfold init_scenery. by gloop. Qed.

Lemma frame_move_scenery s : get (move_scenery s) = get s.
Proof. unfold move_scenery. by gloop. Qed.

Lemma frame_move_entities s : get (move_entities s) = get s.
Proof. unfold move_entities. cbv zeta. by do 3 gloop. Qed.

Lemma frame_spawn_phase s : get (spawn_phase s) = get s.
Proof.
  unfold spawn_phase, spawn_obstacle, spawn_coin, spawn_powerup. cbv zeta.
  repeat case_match;
    rewrite ?(spawn_powerup_from_frame get), ?(spawn_coin_from_frame get),
      ?(spawn_obstacle_from_frame get) by assumption; reflexivity.
Qed.

Lemma frame_check_collections s : get (check_collections s) = get s.
Proof. unfold check_collections. cbv zeta. by do 2 gloop. Qed.

Lemma frame_motion s :
  get (spawn_phase (move_entities (move_scenery (update_particles s))))
  = get s.
Proof.
  by rewrite frame_spawn_phase, frame_move_entities, frame_move_scenery,
    frame_update_particles.
Qed.

Lemma frame_tick_prefix s : get (tick_prefix s) = get s.
Proof.
  unfold tick_prefix. cbv zeta.
  by rewrite frame_check_collections, frame_spawn_phase,
    frame_move_entities, frame_move_scenery, frame_update_particles,
    frame_tick_counters.
Qed.

Lemma frame_crash s : get (crash s) = get s.
Proof.
  unfold crash, play_sound, vibrate, emit. cbv zeta.
  case_match; by_hyps; rewrite frame_spawn_particles; by by_hyps.
Qed.

Lemma frame_game_over s : get (game_over s) = get s.
Proof.
  unfold game_over, save_high_score, storage_file_write,
  storage_file_open, play_sound, vibrate, emit,
    furi_timer_stop. cbv zeta. repeat case_match; by_hyps.
Qed.

Lemma frame_level_up s : get (level_up s) = get s.
Proof.
  unfold level_up, play_sound, emit, furi_timer_stop, furi_timer_start.
  cbv zeta. repeat case_match; by_hyps.
Qed.

Lemma frame_game_tick s : get (game_tick s) = get s.
Proof.
  destruct (decide (state s = StatePlaying)) as [Hs|Hs];
    [|by rewrite game_tick_idle].
  destruct (game_tick_cases s Hs) as [[_ ->]|[(_ & _ & ->)|(_ & _ & ->)]].
  - by rewrite frame_level_up, frame_tick_prefix.
  - by rewrite frame_game_over, frame_crash, frame_tick_prefix.
  - by rewrite frame_level_up, get_invincible_ticks, frame_crash,
      frame_tick_prefix.
Qed.
(** In play, what the collision block and the level update do not write
    is as the first part of the tick has left it. *)
Lemma frame_after_prefix s :
  state s = StatePlaying -> get (game_tick s) = get (tick_prefix s).
Proof.
  intros Hs.
  destruct (game_tick_cases s Hs) as [[_ ->]|[(_ & _ & ->)|(_ & _ & ->)]].
  - by rewrite frame_level_up.
  - by rewrite frame_game_over, frame_crash.
  - by rewrite frame_level_up, get_invincible_ticks, frame_crash.
Qed.
End Frame.

(** What a key leaves alone, apart from the start of a new game. *)
Section KeyFrame.
Context {A : Type} (get : RaceGameState -> A).

Hypothesis get_state : forall v s, get (set_state v s) = get s.
Hypothesis get_player_lane :
  forall v s, get (set_player_lane v s) = get s.
Hypothesis get_night_mode : forall v s, get (set_night_mode v s) = get s.
Hypothesis get_sound_on : forall v s, get (set_sound_on v s) = get s.
Hypothesis get_menu_idx : forall v s, get (set_menu_idx v s) = get s.
Hypothesis get_difficulty : forall v s, get (set_difficulty v s) = get s.
Hypothesis get_timer : forall v s, get (set_timer v s) = get s.
Hypothesis get_cues : forall v s, get (set_cues v s) = get s.

Lemma frame_key_step s key s' :
  key_step s key s' -> s' = game_init s \/ get s' = get s.
Proof.
  intros Hk. destruct Hk; [..|by right];
    first [ by left
          | right; unfold menu_up, play_sound, emit, furi_timer_stop;
            cbv zeta; repeat case_match;
            repeat match goal with
            | H : forall v s, get (?set v s) = get s
              |- context [get (?set _ _)] => rewrite !H
            end; reflexivity ].
Qed.
End KeyFrame.

(** ** The session state machine *)

Lemma handle_key_inv key s s' :
  handle_key key s = Some s' -> key_step s key s'.
Proof.
  unfold handle_key, is_playing. destruct key.
  - destruct (state s) eqn:Hs; intros [= <-];
      [by apply key_up|apply key_ignored..].
  - destruct (state s) eqn:Hs; intros [= <-];
      [by apply key_down|apply key_ignored..].
  - destruct (state s) eqn:Hs; cbn [andb]; try (intros [= <-]; apply key_ignored).
    destruct (Z.ltb_spec (player_lane s) (LANE_COUNT - 1)); intros [= <-];
      [by apply key_right|apply key_ignored].
  - destruct (state s) eqn:Hs; cbn [andb]; try (intros [= <-]; apply key_ignored).
    destruct (Z.ltb_spec 0 (player_lane s)); intros [= <-];
      [by apply key_left|apply key_ignored].
  - destruct (state s) eqn:Hs.
    + destruct (Z.eqb_spec (menu_idx s) 0); [intros [= <-]; by apply key_start|].
      destruct (Z.eqb_spec (menu_idx s) 1); [intros [= <-]; by apply key_sound|].
      destruct (Z.eqb_spec (menu_idx s) 2); [intros [= <-]; by apply key_night|].
      destruct (Z.eqb_spec (menu_idx s) 3);
        intros [= <-]; [by apply key_difficulty|apply key_ignored].
    + intros [= <-]. apply key_ignored.
    + intros [= <-]. by apply key_to_menu.
  - destruct (state s) eqn:Hs; intros [= <-]. by apply key_pause.
Qed.

Lemma handle_event_inv ev s s' :
  handle_event ev s = Some s' ->
  (ev = EventTypeTick /\ s' = game_tick s) \/
  (exists ty key, ev = EventTypeKey ty key /\ is_press ty = true /\
                  key_step s key s') \/
  (exists ty key, ev = EventTypeKey ty key /\ is_press ty = false /\ s' = s).
Proof.
  destruct ev as [|ty key]; cbn.
  - intros [= <-]. by left.
  - destruct ty eqn:Hty; intros H;
      try (right; right; exists ty, key; subst ty; by simplify_eq);
      right; left; exists ty, key; subst ty; repeat split;
      by apply handle_key_inv.
Qed.

(** Induction over the states of the event loop. *)
Lemma reachable_inv (I : RaceGameState -> Prop) :
  (forall stored opens src, I (race_game_start stored opens src)) ->
  (forall s, reachable s -> I s -> I (game_tick s)) ->
  (forall s key s', reachable s -> I s -> key_step s key s' -> I s') ->
  forall s, reachable s -> I s.
Proof.
  intros Hstart Htick Hkey s Hr.
  induction Hr as [stored opens src|ev s s' Hr IH Hev]; [apply Hstart|].
  destruct (handle_event_inv ev s s' Hev)
    as [[_ ->]|[(ty & key & _ & _ & Hk)|(ty & key & _ & _ & ->)]]; eauto.
Qed.

Lemma state_game_init s : state (game_init s) = StatePlaying.
Proof.
  unfold game_init. cbv zeta. frame_rw.
  do 4 rewrite (for_loop_frame state) by frame_step. by frame_rw.
Qed.

Lemma state_game_tick s :
  state (game_tick s) = state s \/
  (state s = StatePlaying /\ state (game_tick s) = StateGameOver /\
   lives (game_tick s) = 0 /\ timer (game_tick s) = None).
Proof.
  destruct (decide (state s = StatePlaying)) as [Hs|Hs];
    [|left; by rewrite game_tick_idle].
  destruct (game_tick_cases s Hs) as [[_ ->]|[(_ & Hl & ->)|(_ & _ & ->)]].
  - left. by rewrite state_level_up, state_tick_prefix.
  - right. by rewrite state_game_over, lives_game_over, timer_game_over.
  - left. rewrite state_level_up. frame_rw. apply state_tick_prefix.
Qed.

(** The session is a strict state machine: an event leaves the state as
    it is or makes one of four moves, each with its own trigger.  Menu
    goes to Playing on OK over the START item, and the new state is the
    one [game_init] builds; Playing goes to Menu on Back, with the timer
    stopped; Playing goes to GameOver on a tick, with no life left and the
    timer stopped; GameOver goes to Menu on OK.  The loop stops exactly on
    Back outside Playing. *)
Theorem session_transitions ev s :
  (forall s', handle_event ev s = Some s' -> session_move ev s s') /\
  (handle_event ev s = None <->
   state s <> StatePlaying /\
   exists ty, ev = EventTypeKey ty InputKeyBack /\ is_press ty = true).
Proof.
  split.
  - intros s' Hev.
    destruct (handle_event_inv ev s s' Hev)
      as [[-> ->]|[(ty & key & -> & Hty & Hk)|(ty & key & _ & _ & ->)]];
      [| |by apply move_stay].
    + destruct (state_game_tick s) as [H|(H1 & H2 & H3 & H4)];
        [by apply move_stay|by apply move_game_over].
    + destruct Hk;
        first [ apply move_stay; cbn; congruence
              | apply move_stay; unfold menu_up, play_sound, emit; cbv zeta;
                by case_match
              | by apply (move_pause _ _ _ ty)
              | by apply (move_to_menu _ _ _ ty)
              | apply (move_start _ _ _ ty); try done; apply state_game_init ].
  - split.
    + destruct ev as [|ty key]; cbn; [done|].
      unfold handle_key, is_playing.
      destruct ty, key, (state s) eqn:Hs; cbn [andb];
        repeat case_match; intros Hnone; try discriminate;
        (split; [congruence|]); eexists; split; reflexivity.
    + intros (Hs & ty & -> & Hty). destruct ty; try discriminate; cbn;
        by destruct (state s).
Qed.

Lemma session_transitions_witness :
  session_move (EventTypeKey InputTypePress InputKeyOk) fresh_start
               first_episode.
Proof.
  apply (proj1 (session_transitions (EventTypeKey InputTypePress InputKeyOk)
                  fresh_start)).
  reflexivity.
Defined.

(** ** The tick timer *)

Lemma speed_for_range d lvl :
  0 <= lvl <= 9 ->
  diff_min_speed d <= speed_for d lvl <= diff_speed d.
Proof. unfold speed_for. destruct d; cbn; lia. Qed.

Lemma level_up_scheduled s :
  0 <= level s <= 9 -> state s = StatePlaying ->
  timer s = Some (speed s) ->
  speed s = speed_for (difficulty s) (level s) ->
  scheduled (level_up s) /\ 0 <= level (level_up s) <= 9.
Proof.
  intros Hl Hs Ht Hsp.
  assert (H9 : 0 <= level (level_up s) <= 9)
    by (rewrite level_level_up; lia).
  split; [|done]. unfold scheduled. rewrite state_level_up, Hs.
  revert H9. unfold level_up. cbv zeta.
  set (nl := if 9 <? u8 (score s / 200) then 9 else u8 (score s / 200)).
  destruct (Z.ltb_spec (level s) nl) as [Hlt|Hge]; [|done].
  unfold play_sound, emit, furi_timer_start, furi_timer_stop.
  assert (Hnl : nl <= 9) by (unfold nl; case_match; lia).
  assert (Hu : u16 (diff_speed (difficulty s) - nl * 8) =
               diff_speed (difficulty s) - nl * 8).
  { unfold u16. apply Z.mod_small. destruct (difficulty s); cbn; lia. }
  intros _. step_cases; rewrite ?Hu in *; unfold speed_for;
    (split; [reflexivity|]);
    repeat match goal with
    | H : (_ <? _) = true |- _ => apply Z.ltb_lt in H
    | H : (_ <? _) = false |- _ => apply Z.ltb_ge in H
    end; lia.
Qed.

Lemma scheduled_game_init s : scheduled (game_init s).
Proof.
  unfold scheduled. rewrite state_game_init.
  destruct (level_score_game_init s) as [Hl _]. rewrite Hl.
  unfold game_init. cbv zeta. unfold furi_timer_start. frame_rw.
  assert (Hsp : forall x, speed (init_scenery x) = speed x)
    by (intros; by apply frame_init_scenery).
  assert (Hd : forall x, difficulty (init_scenery x) = difficulty x)
    by (intros; by apply frame_init_scenery).
  rewrite Hsp, Hd.
  do 4 rewrite (for_loop_frame speed) by frame_step.
  do 4 rewrite (for_loop_frame difficulty) by frame_step.
  frame_rw. split; [done|]. unfold speed_for.
  destruct (difficulty s); cbn; lia.
Qed.

Lemma scheduled_game_tick s :
  0 <= level s <= 9 -> scheduled s -> scheduled (game_tick s).
Proof.
  intros Hl Hsch.
  destruct (decide (state s = StatePlaying)) as [Hs|Hs];
    [|by rewrite game_tick_idle].
  unfold scheduled in Hsch. rewrite Hs in Hsch. destruct Hsch as [Ht Hsp].
  destruct (game_tick_cases s Hs) as [[_ ->]|[(_ & _ & ->)|(_ & _ & ->)]].
  - apply level_up_scheduled.
    + by rewrite level_tick_prefix.
    + by rewrite state_tick_prefix.
    + by rewrite !frame_tick_prefix.
    + by rewrite !frame_tick_prefix.
  - unfold scheduled. by rewrite state_game_over, timer_game_over.
  - apply level_up_scheduled; frame_rw.
    + by rewrite level_tick_prefix.
    + by rewrite state_tick_prefix.
    + by rewrite !frame_crash, !frame_tick_prefix.
    + by rewrite !frame_crash, !frame_tick_prefix.
Qed.

(** The tick timer runs exactly while the session is in play.  In play
    its period is the session's tick interval, which is the base interval
    of the difficulty minus 8 per level, not below the minimum of the
    difficulty; in Menu and GameOver the timer is stopped. *)
Theorem timer_runs_while_playing s :
  reachable s ->
  scheduled s /\
  (state s = StatePlaying ->
   diff_min_speed (difficulty s) <= speed s <= diff_speed (difficulty s)).
Proof.
  intros Hr. assert (Hsch : scheduled s).
  { revert s Hr. apply reachable_inv.
    - intros stored opens src. reflexivity.
    - intros s Hr Hs. apply scheduled_game_tick; [|done].
      by apply reachable_level.
    - intros s key s' Hr Hs Hk.
      destruct Hk as [Hst|Hst Hm|Hst Hm|Hst Hm|Hst Hm|Hst|Hst|Hst|Hst Hl
                     |Hst Hl|key];
        [ |apply scheduled_game_init| | | | | | | | |exact Hs];
        unfold scheduled in Hs; rewrite Hst in Hs;
        unfold scheduled, menu_up, play_sound, emit, furi_timer_stop;
        cbv zeta; try destruct (sound_on s); cbn;
        try match goal with
            | |- context [if ?c then _ else _] => destruct c
            end; cbn; rewrite ?Hst; first [exact Hs|reflexivity]. }
  split; [done|]. intros Hs. unfold scheduled in Hsch. rewrite Hs in Hsch.
  destruct Hsch as [_ ->]. apply speed_for_range. by apply reachable_level.
Qed.

Lemma timer_runs_while_playing_witness :
  scheduled first_episode /\
  (state first_episode = StatePlaying ->
   diff_min_speed (difficulty first_episode) <= speed first_episode
     <= diff_speed (difficulty first_episode)).
Proof. exact (timer_runs_while_playing first_episode reachable_first_episode). Defined.
(** Two sessions with the same fields are the same. *)
Lemma RaceGameState_ext s t :
  state s = state t ->
  player_lane s = player_lane t ->
  score s = score t ->
  high_score s = high_score t ->
  level s = level t ->
  lives s = lives t ->
  speed s = speed t ->
  tick_count s = tick_count t ->
  road_scroll s = road_scroll t ->
  night_mode s = night_mode t ->
  sound_on s = sound_on t ->
  menu_idx s = menu_idx t ->
  difficulty s = difficulty t ->
  invincible_ticks s = invincible_ticks t ->
  shield_ticks s = shield_ticks t ->
  magnet_ticks s = magnet_ticks t ->
  combo s = combo t ->
  combo_display s = combo_display t ->
  obstacles s = obstacles t ->
  coins s = coins t ->
  powerups s = powerups t ->
  scenery s = scenery t ->
  particles s = particles t ->
  timer s = timer t ->
  rand_src s = rand_src t ->
  rand_pos s = rand_pos t ->
  cues s = cues t ->
  file s = file t ->
  open_src s = open_src t ->
  open_pos s = open_pos t ->
  s = t.
Proof. destruct s, t; cbn; intros; by subst. Qed.

(** ** The player's lane *)

Ltac game_init_field g :=
  unfold game_init; cbv zeta; unfold furi_timer_start; frame_rw;
  rewrite ?(frame_init_scenery g) by reflexivity;
  do 4 rewrite (for_loop_frame g) by frame_step; frame_rw.

Lemma player_lane_game_init s : player_lane (game_init s) = 1.
Proof. by game_init_field player_lane. Qed.

Lemma player_lane_key_step s key s' :
  0 <= player_lane s < LANE_COUNT -> key_step s key s' ->
  player_lane s' = player_lane s \/
  (s' = game_init s /\ player_lane s' = 1) \/
  (state s = StatePlaying /\
   ((key = InputKeyLeft /\ 0 < player_lane s /\
     player_lane s' = player_lane s - 1) \/
    (key = InputKeyRight /\ player_lane s < LANE_COUNT - 1 /\
     player_lane s' = player_lane s + 1))).
Proof.
  unfold LANE_COUNT. intros Hl Hk.
  destruct Hk as [Hst|Hst Hm|Hst Hm|Hst Hm|Hst Hm|Hst|Hst|Hst|Hst Hp
                 |Hst Hp|key]; try (by left).
  - right; left. split; [done|apply player_lane_game_init].
  - left. unfold menu_up. cbv zeta. by case_match.
  - right; right. split; [done|]. left. do 2 (split; [done|]).
    unfold play_sound, emit. destruct (sound_on _); cbn;
      apply i8_small; lia.
  - right; right. split; [done|]. right. do 2 (split; [done|]).
    unfold play_sound, emit. destruct (sound_on _); cbn;
      apply i8_small; lia.
Qed.

Lemma reachable_player_lane s :
  reachable s -> 0 <= player_lane s < LANE_COUNT.
Proof.
  revert s. apply reachable_inv.
  - intros stored opens src. cbn. unfold LANE_COUNT. lia.
  - intros s _ Hl. by rewrite (frame_game_tick player_lane).
  - intros s key s' _ Hl Hk.
    destruct (player_lane_key_step s key s' Hl Hk)
      as [->|[[_ ->]|[_ [(_ & ? & ->)|(_ & ? & ->)]]]];
      unfold LANE_COUNT in *; lia.
Qed.

(** The player's car is always in one of the three lanes.  An event
    moves it only in two ways: a new game puts it in the middle lane, and
    in play a pressed or repeated Left or Right key moves it by one lane
    (the key is ignored at the edge of the road).  Ticks, collisions and
    pickups never move the car. *)
Theorem player_lane_on_road s :
  reachable s ->
  0 <= player_lane s < LANE_COUNT /\
  forall ev s', handle_event ev s = Some s' ->
    player_lane s' = player_lane s \/
    (s' = game_init s /\ player_lane s' = 1) \/
    (state s = StatePlaying /\ exists ty, is_press ty = true /\
       ((ev = EventTypeKey ty InputKeyLeft /\ 0 < player_lane s /\
         player_lane s' = player_lane s - 1) \/
        (ev = EventTypeKey ty InputKeyRight /\
         player_lane s < LANE_COUNT - 1 /\
         player_lane s' = player_lane s + 1))).
Proof.
  intros Hr.
  pose proof (reachable_player_lane s Hr) as Hl.
  split; [done|]. intros ev s' Hev.
  destruct (handle_event_inv ev s s' Hev)
    as [[_ ->]|[(ty & key & -> & Hty & Hk)|(ty & key & _ & _ & ->)]].
  - left. by apply frame_game_tick.
  - destruct (player_lane_key_step s key s' Hl Hk)
      as [H|[H|[Hs [(-> & ? & H)|(-> & ? & H)]]]]; [by left|by right; left|..];
      right; right; (split; [done|]); exists ty; (split; [done|]);
      [by left|by right].
  - by left.
Qed.

Lemma player_lane_on_road_witness :
  0 <= player_lane first_episode < LANE_COUNT /\
  forall ev s', handle_event ev first_episode = Some s' ->
    player_lane s' = player_lane first_episode \/
    (s' = game_init first_episode /\ player_lane s' = 1) \/
    (state first_episode = StatePlaying /\ exists ty, is_press ty = true /\
       ((ev = EventTypeKey ty InputKeyLeft /\ 0 < player_lane first_episode /\
         player_lane s' = player_lane first_episode - 1) \/
        (ev = EventTypeKey ty InputKeyRight /\
         player_lane first_episode < LANE_COUNT - 1 /\
         player_lane s' = player_lane first_episode + 1))).
Proof. exact (player_lane_on_road first_episode reachable_first_episode). Defined.

(** In play, a lane change and the opposite lane change bring the session
    back to the state it was in, up to the tones played: Right then Left
    away from the right edge, Left then Right away from the left edge. *)
Theorem lane_change_round_trip s :
  state s = StatePlaying -> 0 <= player_lane s < LANE_COUNT ->
  (player_lane s < LANE_COUNT - 1 ->
   exists s2,
     handle_key InputKeyRight s ≫= handle_key InputKeyLeft = Some s2 /\
     set_cues (cues s) s2 = s) /\
  (0 < player_lane s ->
   exists s2,
     handle_key InputKeyLeft s ≫= handle_key InputKeyRight = Some s2 /\
     set_cues (cues s) s2 = s).
Proof.
  unfold LANE_COUNT. intros Hs Hl.
  assert (Hi : forall z, 0 <= z <= 2 -> i8 z = z)
    by (intros; apply i8_small; lia).
  assert (HR : forall x, state x = StatePlaying -> player_lane x < 2 ->
    handle_key InputKeyRight x =
    Some (play_sound 440 12 (set_player_lane (i8 (player_lane x + 1)) x))).
  { intros x Hx Hlt. unfold handle_key, is_playing. rewrite Hx. cbn [andb].
    by replace (player_lane x <? LANE_COUNT - 1) with true
      by (symmetry; apply Z.ltb_lt; unfold LANE_COUNT; lia). }
  assert (HL : forall x, state x = StatePlaying -> 0 < player_lane x ->
    handle_key InputKeyLeft x =
    Some (play_sound 440 12 (set_player_lane (i8 (player_lane x - 1)) x))).
  { intros x Hx Hlt. unfold handle_key, is_playing. rewrite Hx. cbn [andb].
    by replace (0 <? player_lane x) with true
      by (symmetry; apply Z.ltb_lt; lia). }
  split; intros Hedge.
  - rewrite HR by (done || lia). cbn [mbind option_bind].
    rewrite HL by (unfold play_sound, emit; cbn; destruct (sound_on s); cbn;
                   rewrite ?Hi by lia; (done || lia)).
    eexists; split; [reflexivity|]. unfold play_sound, emit. cbn.
    destruct (sound_on s) eqn:Hso; cbn; rewrite ?Hso; cbn;
      rewrite ?(Hi (player_lane s + 1)) by lia;
      rewrite Hi by lia; apply RaceGameState_ext; cbn; first [reflexivity|lia].
  - rewrite HL by (done || lia). cbn [mbind option_bind].
    rewrite HR by (unfold play_sound, emit; cbn; destruct (sound_on s); cbn;
                   rewrite ?Hi by lia; (done || lia)).
    eexists; split; [reflexivity|]. unfold play_sound, emit. cbn.
    destruct (sound_on s) eqn:Hso; cbn; rewrite ?Hso; cbn;
      rewrite ?(Hi (player_lane s - 1)) by lia;
      rewrite Hi by lia; apply RaceGameState_ext; cbn; first [reflexivity|lia].
Qed.

Lemma lane_change_round_trip_witness :
  (player_lane first_episode < LANE_COUNT - 1 ->
   exists s2,
     handle_key InputKeyRight first_episode ≫= handle_key InputKeyLeft
       = Some s2 /\
     set_cues (cues first_episode) s2 = first_episode) /\
  (0 < player_lane first_episode ->
   exists s2,
     handle_key InputKeyLeft first_episode ≫= handle_key InputKeyRight
       = Some s2 /\
     set_cues (cues first_episode) s2 = first_episode).
Proof.
  apply (lane_change_round_trip first_episode).
  - apply state_game_init.
  - unfold first_episode. rewrite player_lane_game_init. unfold LANE_COUNT. lia.
Defined.

(** ** The menu *)

Lemma menu_idx_game_init s : menu_idx (game_init s) = menu_idx s.
Proof. by game_init_field menu_idx. Qed.

Lemma menu_idx_range s : reachable s -> 0 <= menu_idx s <= 3.
Proof.
  revert s. apply reachable_inv.
  - intros stored opens src. cbn. lia.
  - intros s _ Hm. by rewrite (frame_game_tick menu_idx).
  - intros s key s' _ Hm Hk.
    destruct Hk as [Hst|Hst Hi|Hst Hi|Hst Hi|Hst Hi|Hst|Hst|Hst|Hst Hp
                   |Hst Hp|key];
      rewrite ?menu_idx_game_init; unfold menu_up, play_sound, emit;
      cbv zeta; cbn; try lia; try (destruct (sound_on s); cbn; lia);
      assert (Hc : menu_idx s = 0 \/ menu_idx s = 1 \/ menu_idx s = 2 \/
                   menu_idx s = 3) by lia;
      destruct Hc as [-> | [-> | [-> | ->]]]; vm_compute; split; discriminate.
Qed.

(** The menu cursor is always on one of the four items.  In the menu, Up
    and Down are inverse to each other, wrapping between the first and
    the last item; OK on SOUND or on NIGHT twice, and OK on the difficulty
    item three times, give back the state they started from. *)
Theorem menu_navigation s :
  reachable s ->
  0 <= menu_idx s <= 3 /\
  (state s = StateMenu ->
   handle_key InputKeyUp s ≫= handle_key InputKeyDown = Some s /\
   handle_key InputKeyDown s ≫= handle_key InputKeyUp = Some s /\
   (menu_idx s = 1 \/ menu_idx s = 2 ->
    handle_key InputKeyOk s ≫= handle_key InputKeyOk = Some s) /\
   (menu_idx s = 3 ->
    (handle_key InputKeyOk s ≫= handle_key InputKeyOk)
      ≫= handle_key InputKeyOk = Some s)).
Proof.
  intros Hr. pose proof (menu_idx_range s Hr) as Hm. split; [done|].
  intros Hs.
  assert (Hc : menu_idx s = 0 \/ menu_idx s = 1 \/ menu_idx s = 2 \/
               menu_idx s = 3) by lia.
  clear Hr Hm. destruct s; cbn in *; subst.
  split; [|split; [|split]].
  - destruct Hc as [-> | [-> | [-> | ->]]]; vm_compute; reflexivity.
  - destruct Hc as [-> | [-> | [-> | ->]]]; vm_compute; reflexivity.
  - intros [-> | ->];
      repeat match goal with b : bool |- _ => destruct b end;
      vm_compute; reflexivity.
  - intros ->. match goal with d : Difficulty |- _ => destruct d end;
      vm_compute; reflexivity.
Qed.

Lemma menu_navigation_witness :
  0 <= menu_idx fresh_start <= 3 /\
  (state fresh_start = StateMenu ->
   handle_key InputKeyUp fresh_start ≫= handle_key InputKeyDown
     = Some fresh_start /\
   handle_key InputKeyDown fresh_start ≫= handle_key InputKeyUp
     = Some fresh_start /\
   (menu_idx fresh_start = 1 \/ menu_idx fresh_start = 2 ->
    handle_key InputKeyOk fresh_start ≫= handle_key InputKeyOk
      = Some fresh_start) /\
   (menu_idx fresh_start = 3 ->
    (handle_key InputKeyOk fresh_start ≫= handle_key InputKeyOk)
      ≫= handle_key InputKeyOk = Some fresh_start)).
Proof. apply (menu_navigation fresh_start). apply reach_start. Defined.
(** ** Tick counter and road scroll *)

Lemma tick_counters_spec s :
  tick_count (tick_counters s) = u32 (tick_count s + 1) /\
  road_scroll (tick_counters s) =
    (if DASH_TOTAL <=? i8 (road_scroll s + 3)
     then i8 (i8 (road_scroll s + 3) - DASH_TOTAL)
     else i8 (road_scroll s + 3)).
Proof.
  unfold tick_counters. cbv zeta. cbn.
  destruct (DASH_TOTAL <=? i8 (road_scroll s + 3)); repeat case_match; done.
Qed.

Lemma tick_count_game_tick s :
  state s = StatePlaying ->
  tick_count (game_tick s) = u32 (tick_count s + 1) /\
  road_scroll (game_tick s) = road_scroll (tick_counters s).
Proof.
  intros Hs. rewrite !frame_after_prefix by done.
  unfold tick_prefix. cbv zeta.
  rewrite !frame_check_collections, !frame_spawn_phase, !frame_move_entities,
    !frame_move_scenery, !frame_update_particles by reflexivity.
  split; [apply tick_counters_spec|done].
Qed.

Lemma tick_count_game_init s :
  tick_count (game_init s) = 0 /\ road_scroll (game_init s) = 0.
Proof.
  split; [by game_init_field tick_count|by game_init_field road_scroll].
Qed.

Lemma road_scroll_step t r :
  0 <= t < 2 ^ 32 -> r = (3 * t) mod DASH_TOTAL ->
  (if DASH_TOTAL <=? i8 (r + 3) then i8 (i8 (r + 3) - DASH_TOTAL)
   else i8 (r + 3)) = (3 * u32 (t + 1)) mod DASH_TOTAL.
Proof.
  unfold DASH_TOTAL, DASH_LEN, DASH_GAP. change (8 + 8) with 16.
  intros Ht ->.
  pose proof (Z.mod_pos_bound (3 * t) 16 ltac:(lia)) as Hb.
  rewrite (i8_small ((3 * t) mod 16 + 3)) by lia.
  assert (Hu : (3 * u32 (t + 1)) mod 16 = (3 * t + 3) mod 16).
  { unfold u32. change (2 ^ 32) with 4294967296 in *.
    destruct (Z.eq_dec (t + 1) 4294967296) as [He|Hne].
    - rewrite He. replace (3 * t + 3) with (3 * 4294967296) by lia.
      reflexivity.
    - rewrite (Z.mod_small (t + 1)) by lia. f_equal. lia. }
  rewrite Hu. destruct (Z.leb_spec 16 ((3 * t) mod 16 + 3)).
  - rewrite i8_small by lia. Z.div_mod_to_equations. lia.
  - Z.div_mod_to_equations. lia.
Qed.

(** The tick counter counts the processed ticks of the episode (32 bits
    wide), and the scroll offset of the lane markings advances by 3 pixels
    per tick modulo the 16-pixel dash period: in every state the loop
    reaches it is (3 * tick_count) mod 16, hence between 0 and 15. *)
Theorem road_scroll_follows_ticks s :
  reachable s ->
  0 <= tick_count s < 2 ^ 32 /\
  road_scroll s = (3 * tick_count s) mod DASH_TOTAL /\
  0 <= road_scroll s < DASH_TOTAL /\
  (state s = StatePlaying ->
   tick_count (game_tick s) = u32 (tick_count s + 1)).
Proof.
  intros Hr.
  assert (H : 0 <= tick_count s < 2 ^ 32 /\
              road_scroll s = (3 * tick_count s) mod DASH_TOTAL).
  { revert s Hr. apply reachable_inv.
    - intros stored opens src. cbn. split; [lia|reflexivity].
    - intros s _ [Ht Hrs].
      destruct (decide (state s = StatePlaying)) as [Hs|Hs];
        [|by rewrite game_tick_idle].
      destruct (tick_count_game_tick s Hs) as [-> ->].
      split; [apply u32_range|].
      destruct (tick_counters_spec s) as [_ ->]. by apply road_scroll_step.
    - intros s key s' _ IH Hk.
      assert (Ht : s' = game_init s \/ tick_count s' = tick_count s)
        by (by eapply (frame_key_step tick_count)).
      assert (Hrs : s' = game_init s \/ road_scroll s' = road_scroll s)
        by (by eapply (frame_key_step road_scroll)).
      destruct Ht as [->|Ht], Hrs as [Hrs|Hrs];
        try (destruct (tick_count_game_init s) as [-> ->];
             split; [lia|reflexivity]);
        try (subst s'; destruct (tick_count_game_init s) as [-> ->];
             split; [lia|reflexivity]).
      by rewrite Ht, Hrs. }
  destruct H as [Ht Hrs]. repeat split; try done; try lia.
  - rewrite Hrs. apply Z.mod_pos_bound. unfold DASH_TOTAL, DASH_LEN, DASH_GAP.
    lia.
  - rewrite Hrs. apply Z.mod_pos_bound. unfold DASH_TOTAL, DASH_LEN, DASH_GAP.
    lia.
  - intros Hs. by apply tick_count_game_tick.
Qed.

Lemma road_scroll_follows_ticks_witness :
  0 <= tick_count first_episode < 2 ^ 32 /\
  road_scroll first_episode = (3 * tick_count first_episode) mod DASH_TOTAL /\
  0 <= road_scroll first_episode < DASH_TOTAL /\
  (state first_episode = StatePlaying ->
   tick_count (game_tick first_episode) = u32 (tick_count first_episode + 1)).
Proof.
  exact (road_scroll_follows_ticks first_episode reachable_first_episode).
Defined.
(** ** The countdowns *)

Ltac bool_hyps :=
  repeat match goal with
  | H : (_ <? _) = true |- _ => apply Z.ltb_lt in H
  | H : (_ <? _) = false |- _ => apply Z.ltb_ge in H
  | H : (_ <=? _) = true |- _ => apply Z.leb_le in H
  | H : (_ <=? _) = false |- _ => apply Z.leb_gt in H
  | H : (_ =? _) = true |- _ => apply Z.eqb_eq in H
  | H : (_ =? _) = false |- _ => apply Z.eqb_neq in H
  end.

Lemma timers_tick_counters s :
  timers_ok s ->
  invincible_ticks (tick_counters s) = counted_down (invincible_ticks s) /\
  shield_ticks (tick_counters s) = counted_down (shield_ticks s) /\
  magnet_ticks (tick_counters s) = counted_down (magnet_ticks s) /\
  combo_display (tick_counters s) = counted_down (combo_display s).
Proof.
  intros (Hi & Hsh & Hm & Hc). unfold tick_counters, counted_down. cbv zeta.
  step_cases; bool_hyps; rewrite ?u8_small by lia; lia.
Qed.

Lemma timers_check_collections s :
  invincible_ticks (check_collections s) = invincible_ticks s /\
  (shield_ticks (check_collections s) = shield_ticks s \/
   shield_ticks (check_collections s) = 50) /\
  (magnet_ticks (check_collections s) = magnet_ticks s \/
   magnet_ticks (check_collections s) = 60) /\
  (combo_display (check_collections s) = combo_display s \/
   combo_display (check_collections s) = 15).
Proof.
  unfold check_collections. cbv zeta.
  set (P := fun s' : RaceGameState =>
    invincible_ticks s' = invincible_ticks s /\
    (shield_ticks s' = shield_ticks s \/ shield_ticks s' = 50) /\
    (magnet_ticks s' = magnet_ticks s \/ magnet_ticks s' = 60) /\
    (combo_display s' = combo_display s \/ combo_display s' = 15)).
  apply (for_loop_inv P); [apply (for_loop_inv P)|].
  - unfold P. tauto.
  - intros i s' (H1 & H2 & H3 & H4). unfold P, coin_step. unfold_steps.
    step_cases; tauto.
  - intros i s' (H1 & H2 & H3 & H4). unfold P, powerup_step. unfold_steps.
    step_cases; tauto.
Qed.

Lemma timers_tick_prefix s :
  timers_ok s ->
  invincible_ticks (tick_prefix s) = counted_down (invincible_ticks s) /\
  restarts 50 (shield_ticks s) (shield_ticks (tick_prefix s)) /\
  restarts 60 (magnet_ticks s) (magnet_ticks (tick_prefix s)) /\
  restarts 15 (combo_display s) (combo_display (tick_prefix s)).
Proof.
  intros Hok. destruct (timers_tick_counters s Hok) as (Hi & Hsh & Hm & Hc).
  unfold tick_prefix, restarts. cbv zeta.
  destruct (timers_check_collections
    (spawn_phase (move_entities (move_scenery (update_particles
       (tick_counters s)))))) as (Hi' & Hsh' & Hm' & Hc').
  rewrite (frame_motion invincible_ticks) in Hi' by reflexivity.
  rewrite (frame_motion shield_ticks) in Hsh' by reflexivity.
  rewrite (frame_motion magnet_ticks) in Hm' by reflexivity.
  rewrite (frame_motion combo_display) in Hc' by reflexivity.
  rewrite Hi, Hsh, Hm, Hc in *. tauto.
Qed.

Lemma timers_game_tick s :
  timers_ok s -> state s = StatePlaying ->
  restarts 20 (invincible_ticks s) (invincible_ticks (game_tick s)) /\
  restarts 50 (shield_ticks s) (shield_ticks (game_tick s)) /\
  restarts 60 (magnet_ticks s) (magnet_ticks (game_tick s)) /\
  restarts 15 (combo_display s) (combo_display (game_tick s)).
Proof.
  intros Hok Hs. destruct (timers_tick_prefix s Hok) as (Hi & Hsh & Hm & Hc).
  rewrite (frame_after_prefix shield_ticks), (frame_after_prefix magnet_ticks),
    (frame_after_prefix combo_display) by done.
  split; [|done]. unfold restarts.
  destruct (game_tick_cases s Hs) as [[_ ->]|[(_ & _ & ->)|(_ & _ & ->)]].
  - left. by rewrite frame_level_up.
  - left. by rewrite frame_game_over, frame_crash.
  - right. by rewrite frame_level_up.
Qed.

Lemma restarts_range full t t' :
  0 <= t <= full -> restarts full t t' -> 0 <= t' <= full.
Proof. unfold restarts, counted_down. lia. Qed.

Lemma timers_ok_game_init_zero s :
  invincible_ticks (game_init s) = 0 /\ shield_ticks (game_init s) = 0 /\
  magnet_ticks (game_init s) = 0 /\ combo_display (game_init s) = 0.
Proof.
  split; [by game_init_field invincible_ticks|].
  split; [by game_init_field shield_ticks|].
  split; [by game_init_field magnet_ticks|by game_init_field combo_display].
Qed.

Lemma timers_ok_game_init s : timers_ok (game_init s).
Proof.
  destruct (timers_ok_game_init_zero s) as (H1 & H2 & H3 & H4).
  unfold timers_ok. rewrite H1, H2, H3, H4. lia.
Qed.

(** The four countdowns stay within the lengths the code gives them:
    invincibility at most 20 ticks, shield 50, magnet 60, combo display
    15, none below 0.  A tick in play takes one off each countdown that
    is not yet 0, so the 8-bit decrement never wraps, unless the same
    tick restarts the countdown at its full length (a hit that leaves a
    life, a shield or magnet pickup, a collected coin). *)
Theorem countdowns_bounded s :
  reachable s ->
  timers_ok s /\
  (state s = StatePlaying ->
   restarts 20 (invincible_ticks s) (invincible_ticks (game_tick s)) /\
   restarts 50 (shield_ticks s) (shield_ticks (game_tick s)) /\
   restarts 60 (magnet_ticks s) (magnet_ticks (game_tick s)) /\
   restarts 15 (combo_display s) (combo_display (game_tick s))).
Proof.
  intros Hr. assert (Hok : timers_ok s).
  { revert s Hr. apply reachable_inv.
    - intros stored opens src. unfold timers_ok. cbn. lia.
    - intros s _ Hok.
      destruct (decide (state s = StatePlaying)) as [Hs|Hs];
        [|by rewrite game_tick_idle].
      destruct (timers_game_tick s Hok Hs) as (Hi & Hsh & Hm & Hc).
      destruct Hok as (Hi0 & Hsh0 & Hm0 & Hc0).
      unfold timers_ok; split; [|split; [|split]];
        eapply restarts_range; eauto.
    - intros s key s' _ Hok Hk.
      assert (Hi : s' = game_init s \/
                   invincible_ticks s' = invincible_ticks s)
        by (by eapply (frame_key_step invincible_ticks)).
      assert (Hsh : s' = game_init s \/ shield_ticks s' = shield_ticks s)
        by (by eapply (frame_key_step shield_ticks)).
      assert (Hm : s' = game_init s \/ magnet_ticks s' = magnet_ticks s)
        by (by eapply (frame_key_step magnet_ticks)).
      assert (Hc : s' = game_init s \/ combo_display s' = combo_display s)
        by (by eapply (frame_key_step combo_display)).
      destruct Hi as [->|Hi]; [apply timers_ok_game_init|].
      destruct Hsh as [->|Hsh]; [apply timers_ok_game_init|].
      destruct Hm as [->|Hm]; [apply timers_ok_game_init|].
      destruct Hc as [->|Hc]; [apply timers_ok_game_init|].
      unfold timers_ok. by rewrite Hi, Hsh, Hm, Hc. }
  split; [done|]. by apply timers_game_tick.
Qed.

Lemma countdowns_bounded_witness :
  timers_ok first_episode /\
  (state first_episode = StatePlaying ->
   restarts 20 (invincible_ticks first_episode)
     (invincible_ticks (game_tick first_episode)) /\
   restarts 50 (shield_ticks first_episode)
     (shield_ticks (game_tick first_episode)) /\
   restarts 60 (magnet_ticks first_episode)
     (magnet_ticks (game_tick first_episode)) /\
   restarts 15 (combo_display first_episode)
     (combo_display (game_tick first_episode))).
Proof. exact (countdowns_bounded first_episode reachable_first_episode). Defined.

(** ** The best score *)

Lemma score_key_step s key s' :
  key_step s key s' ->
  s' = game_init s \/ (score s' = score s /\ high_score s' = high_score s).
Proof.
  intros Hk.
  assert (H1 : s' = game_init s \/ score s' = score s)
    by (by eapply (frame_key_step score)).
  assert (H2 : s' = game_init s \/ high_score s' = high_score s)
    by (by eapply (frame_key_step high_score)).
  tauto.
Qed.

Lemma high_score_game_init s : high_score (game_init s) = high_score s.
Proof. by game_init_field high_score. Qed.

Lemma high_score_game_tick s :
  high_score (game_tick s) = high_score s \/
  (state s = StatePlaying /\ state (game_tick s) = StateGameOver /\
   high_score s < score (game_tick s) /\
   high_score (game_tick s) = score (game_tick s)).
Proof.
  destruct (decide (state s = StatePlaying)) as [Hs|Hs];
    [|left; by rewrite game_tick_idle].
  destruct (game_tick_cases s Hs) as [[_ ->]|[(_ & _ & ->)|(_ & _ & ->)]].
  - left. by rewrite frame_level_up, frame_tick_prefix.
  - rewrite high_score_game_over, state_game_over.
    rewrite (frame_game_over score) by reflexivity.
    rewrite (frame_crash high_score) by reflexivity.
    rewrite (frame_tick_prefix high_score) by reflexivity.
    destruct (Z.ltb_spec (high_score s) (score (crash (tick_prefix s))));
      [by right|by left].
  - left. rewrite frame_level_up by reflexivity. frame_rw.
    by rewrite frame_tick_prefix.
Qed.

Lemma game_over_score_recorded s :
  state s = StatePlaying -> state (game_tick s) = StateGameOver ->
  score (game_tick s) <= high_score (game_tick s).
Proof.
  intros Hs Hgo.
  destruct (game_tick_cases s Hs) as [[_ He]|[(_ & _ & He)|(_ & _ & He)]];
    rewrite He in *.
  - rewrite state_level_up, state_tick_prefix in Hgo. congruence.
  - rewrite high_score_game_over.
    rewrite (frame_game_over score) by reflexivity. case_match; bool_hyps; lia.
  - rewrite state_level_up in Hgo. revert Hgo. frame_rw.
    rewrite state_tick_prefix. congruence.
Qed.

(** The best score never goes down: an event leaves it as it is, except
    the tick that ends the game with a score above it, which raises it to
    that score.  In GameOver the score shown is therefore never above the
    best score. *)
Theorem high_score_never_decreases s :
  reachable s ->
  (state s = StateGameOver -> score s <= high_score s) /\
  forall ev s', handle_event ev s = Some s' ->
    high_score s' = high_score s \/
    (ev = EventTypeTick /\ state s = StatePlaying /\
     state s' = StateGameOver /\ high_score s < score s' /\
     high_score s' = score s').
Proof.
  intros Hr. split.
  - revert s Hr.
    apply (reachable_inv
      (fun s => state s = StateGameOver -> score s <= high_score s)).
    + intros stored opens src. discriminate.
    + intros s _ IH Hgo.
      destruct (decide (state s = StatePlaying)) as [Hs|Hs].
      * by apply game_over_score_recorded.
      * rewrite game_tick_idle in * by done. auto.
    + intros s key s' _ IH Hk Hgo.
      destruct (score_key_step s key s' Hk) as [->|[Hsc Hhs]].
      * rewrite state_game_init in Hgo. discriminate.
      * rewrite Hsc, Hhs. apply IH.
        destruct Hk; try done; revert Hgo;
          unfold menu_up, play_sound, emit; cbv zeta;
          repeat case_match; cbn; congruence.
  - intros ev s' Hev.
    destruct (handle_event_inv ev s s' Hev)
      as [[-> ->]|[(ty & key & -> & Hty & Hk)|(ty & key & _ & _ & ->)]].
    + destruct (high_score_game_tick s) as [H|H]; [by left|right; tauto].
    + left. destruct (score_key_step s key s' Hk) as [->|[_ H]]; [|done].
      apply high_score_game_init.
    + by left.
Qed.

Lemma high_score_never_decreases_witness :
  (state first_episode = StateGameOver ->
   score first_episode <= high_score first_episode) /\
  forall ev s', handle_event ev first_episode = Some s' ->
    high_score s' = high_score first_episode \/
    (ev = EventTypeTick /\ state first_episode = StatePlaying /\
     state s' = StateGameOver /\ high_score first_episode < score s' /\
     high_score s' = score s').
Proof.
  exact (high_score_never_decreases first_episode reachable_first_episode).
Defined.
(** ** A new game *)

Lemma kill_obstacle_lookup i s j :
  obstacles (set_obstacles (alter kill_obstacle i (obstacles s)) s) !! j =
  if decide (i = j) then kill_obstacle <$> obstacles s !! j
  else obstacles s !! j.
Proof.
  cbn. rewrite list_lookup_alter. by destruct (decide (i = j)) as [->|Hne].
Qed.

Lemma kill_coin_lookup i s j :
  coins (set_coins (alter kill_coin i (coins s)) s) !! j =
  if decide (i = j) then kill_coin <$> coins s !! j else coins s !! j.
Proof.
  cbn. rewrite list_lookup_alter. by destruct (decide (i = j)) as [->|Hne].
Qed.

Lemma kill_powerup_lookup i s j :
  powerups (set_powerups (alter kill_powerup i (powerups s)) s) !! j =
  if decide (i = j) then kill_powerup <$> powerups s !! j
  else powerups s !! j.
Proof.
  cbn. rewrite list_lookup_alter. by destruct (decide (i = j)) as [->|Hne].
Qed.

Lemma kill_particle_lookup i s j :
  particles (set_particles (alter kill_particle i (particles s)) s) !! j =
  if decide (i = j) then kill_particle <$> particles s !! j
  else particles s !! j.
Proof.
  cbn. rewrite list_lookup_alter. by destruct (decide (i = j)) as [->|Hne].
Qed.

Lemma pools_game_init s :
  (forall i, (i < MAX_OBS)%nat ->
     obstacles (game_init s) !! i = kill_obstacle <$> obstacles s !! i) /\
  (forall i, (i < MAX_COINS)%nat ->
     coins (game_init s) !! i = kill_coin <$> coins s !! i) /\
  (forall i, (i < MAX_POWERUPS)%nat ->
     powerups (game_init s) !! i = kill_powerup <$> powerups s !! i) /\
  (forall i, (i < MAX_PARTICLES)%nat ->
     particles (game_init s) !! i = kill_particle <$> particles s !! i).
Proof.
  unfold game_init. cbv zeta. unfold furi_timer_start.
  split; [|split; [|split]]; intros i Hi; frame_rw.
  - rewrite ?(frame_init_scenery obstacles) by reflexivity.
    do 3 rewrite (for_loop_frame obstacles) by frame_step.
    rewrite (for_loop_pointwise obstacles kill_obstacle)
      by (intros; apply kill_obstacle_lookup).
    replace (i <? MAX_OBS)%nat with true by (symmetry; by apply Nat.ltb_lt).
    by frame_rw.
  - rewrite ?(frame_init_scenery coins) by reflexivity.
    do 2 rewrite (for_loop_frame coins) by frame_step.
    rewrite (for_loop_pointwise coins kill_coin)
      by (intros; apply kill_coin_lookup).
    replace (i <? MAX_COINS)%nat with true by (symmetry; by apply Nat.ltb_lt).
    rewrite (for_loop_frame coins) by frame_step. by frame_rw.
  - rewrite ?(frame_init_scenery powerups) by reflexivity.
    rewrite (for_loop_frame powerups) by frame_step.
    rewrite (for_loop_pointwise powerups kill_powerup)
      by (intros; apply kill_powerup_lookup).
    replace (i <? MAX_POWERUPS)%nat with true
      by (symmetry; by apply Nat.ltb_lt).
    do 2 rewrite (for_loop_frame powerups) by frame_step. by frame_rw.
  - rewrite ?(frame_init_scenery particles) by reflexivity.
    rewrite (for_loop_pointwise particles kill_particle)
      by (intros; apply kill_particle_lookup).
    replace (i <? MAX_PARTICLES)%nat with true
      by (symmetry; by apply Nat.ltb_lt).
    do 3 rewrite (for_loop_frame particles) by frame_step. by frame_rw.
Qed.

(** Starting a game resets the episode and nothing else.  The session is
    in play with the car in the middle lane, score 0, level 0, 3 lives,
    all countdowns and the combo at 0, the tick counter and the scroll at
    0; the road is empty, as every obstacle, coin and power-up slot is
    free and every particle is spent; the tick interval is the base
    interval of the chosen difficulty and the timer runs at it.  The best
    score, the three settings and the menu cursor are kept, and nothing
    is played. *)
Theorem game_init_resets s :
  let s' := game_init s in
  (state s' = StatePlaying /\ player_lane s' = 1 /\ score s' = 0 /\
   level s' = 0 /\ lives s' = INITIAL_LIVES /\ tick_count s' = 0 /\
   road_scroll s' = 0 /\ combo s' = 0 /\ invincible_ticks s' = 0 /\
   shield_ticks s' = 0 /\ magnet_ticks s' = 0 /\ combo_display s' = 0) /\
  (pool_empty obs_alive MAX_OBS (obstacles s') /\
   pool_empty coin_alive MAX_COINS (coins s') /\
   pool_empty pw_alive MAX_POWERUPS (powerups s') /\
   pool_empty particle_alive MAX_PARTICLES (particles s')) /\
  (speed s' = diff_speed (difficulty s) /\
   timer s' = Some (diff_speed (difficulty s))) /\
  (high_score s' = high_score s /\ difficulty s' = difficulty s /\
   sound_on s' = sound_on s /\ night_mode s' = night_mode s /\
   menu_idx s' = menu_idx s /\ cues s' = cues s).
Proof.
  cbv zeta. split; [|split; [|split]].
  - destruct (level_score_game_init s) as [Hl Hsc].
    destruct (tick_count_game_init s) as [Ht Hr].
    assert (H1 : lives (game_init s) = INITIAL_LIVES)
      by (by game_init_field lives).
    assert (H2 : combo (game_init s) = 0) by (by game_init_field combo).
    destruct (timers_ok_game_init_zero s) as (H3 & H4 & H5 & H6).
    rewrite state_game_init, player_lane_game_init, Hl, Hsc, Ht, Hr, H1, H2,
      H3, H4, H5, H6.
    done.
  - destruct (pools_game_init s) as (Ho & Hc & Hp & Hq).
    unfold pool_empty.
    split; [|split; [|split]]; intros i x Hi Hx.
    + rewrite Ho in Hx by done. destruct (obstacles s !! i); cbn in Hx; by simplify_eq.
    + rewrite Hc in Hx by done. destruct (coins s !! i); cbn in Hx; by simplify_eq.
    + rewrite Hp in Hx by done. destruct (powerups s !! i); cbn in Hx; by simplify_eq.
    + rewrite Hq in Hx by done. destruct (particles s !! i); cbn in Hx; by simplify_eq.
  - assert (Hsp : speed (game_init s) = diff_speed (difficulty s)).
    { game_init_field speed. by frame_rw. }
    split; [done|]. rewrite <- Hsp. unfold game_init. cbv zeta.
    unfold furi_timer_start. by frame_rw.
  - assert (H1 : difficulty (game_init s) = difficulty s)
      by (by game_init_field difficulty).
    assert (H2 : sound_on (game_init s) = sound_on s)
      by (by game_init_field sound_on).
    assert (H3 : night_mode (game_init s) = night_mode s)
      by (by game_init_field night_mode).
    assert (H4 : cues (game_init s) = cues s) by (by game_init_field cues).
    by rewrite high_score_game_init, menu_idx_game_init, H1, H2, H3, H4.
Qed.
(** ** Hitboxes *)

Lemma car_lx_lanes : car_lx 0 = 12 /\ car_lx 1 = 26 /\ car_lx 2 = 40.
Proof. by vm_compute. Qed.

Lemma lane_cases z : 0 <= z < LANE_COUNT -> z = 0 \/ z = 1 \/ z = 2.
Proof. unfold LANE_COUNT. lia. Qed.

Lemma hits_iff pl o :
  0 <= pl < LANE_COUNT -> 0 <= obs_lane o < LANE_COUNT ->
  hits (car_lx pl) o = true <->
  lane_overlap pl o /\
  PLAYER_Y - obs_oh (obs_type o) < obs_y o < PLAYER_Y + CAR_H.
Proof.
  intros Hp Ho. destruct car_lx_lanes as (H0 & H1 & H2).
  destruct o as [lane y alive ty]. cbn in Ho.
  unfold hits, lane_overlap, obs_ox, obs_ow, obs_oh, PLAYER_Y, CAR_W, CAR_H.
  cbn [obs_lane obs_y obs_type].
  rewrite !andb_true_iff, !Z.ltb_lt.
  destruct (lane_cases pl Hp) as [-> | [-> | ->]],
    (lane_cases lane Ho) as [-> | [-> | ->]], ty;
    rewrite ?H0, ?H1, ?H2, ?i16_small by lia; lia.
Qed.

Lemma touches_iff pl lane y :
  0 <= pl < LANE_COUNT -> 0 <= lane < LANE_COUNT ->
  touches (car_lx pl) lane y = true <->
  lane = pl /\ PLAYER_Y - 8 < y < PLAYER_Y + CAR_H.
Proof.
  intros Hp Ho. destruct car_lx_lanes as (H0 & H1 & H2).
  unfold touches, PLAYER_Y, CAR_W, CAR_H. cbv zeta.
  rewrite !andb_true_iff, !Z.ltb_lt.
  destruct (lane_cases pl Hp) as [-> | [-> | ->]],
    (lane_cases lane Ho) as [-> | [-> | ->]];
    rewrite ?H0, ?H1, ?H2; lia.
Qed.

(** The overlap tests, read as geometry.  With the lanes 14 pixels apart,
    the player's car overlaps a motorbike or a sedan only in its own lane
    and a truck in its own lane or a neighbouring one, and then exactly
    while the obstacle's offset is less than its height (10, 12, 16)
    above the player's row and less than the car's height (13) below it;
    [check_collision] answers true exactly when some live obstacle among
    the five slots does.  A coin or a power-up touches the player only in
    the player's own lane, from 8 pixels above the player's row to 13
    below it. *)
Theorem collision_geometry s :
  0 <= player_lane s < LANE_COUNT ->
  Forall (fun o => 0 <= obs_lane o < LANE_COUNT) (obstacles s) ->
  (check_collision s = true <->
   exists i o, (i < MAX_OBS)%nat /\ obstacles s !! i = Some o /\
     obs_alive o = true /\ lane_overlap (player_lane s) o /\
     PLAYER_Y - obs_oh (obs_type o) < obs_y o < PLAYER_Y + CAR_H) /\
  (forall lane y, 0 <= lane < LANE_COUNT ->
     touches (car_lx (player_lane s)) lane y = true <->
     lane = player_lane s /\ PLAYER_Y - 8 < y < PLAYER_Y + CAR_H).
Proof.
  intros Hp Hos. split; [|intros lane y Hl; by apply touches_iff].
  unfold check_collision. cbv zeta. rewrite existsb_exists. split.
  - intros (i & Hin & Hi). apply in_seq in Hin.
    destruct (obstacles s !! i) as [o|] eqn:Ho; [|done].
    apply andb_true_iff in Hi as [Ha Hh].
    exists i, o. split; [lia|]. do 2 (split; [done|]).
    apply hits_iff; [done| |done].
    by apply (Forall_lookup_1 _ _ _ _ Hos Ho).
  - intros (i & o & Hi & Ho & Ha & Hl & Hy). exists i. split.
    + apply in_seq. lia.
    + rewrite Ho, Ha. cbn [andb]. apply hits_iff; [done| |done].
      by apply (Forall_lookup_1 _ _ _ _ Hos Ho).
Qed.

Lemma collision_geometry_witness :
  (check_collision shield_ahead = true <->
   exists i o, (i < MAX_OBS)%nat /\ obstacles shield_ahead !! i = Some o /\
     obs_alive o = true /\ lane_overlap (player_lane shield_ahead) o /\
     PLAYER_Y - obs_oh (obs_type o) < obs_y o < PLAYER_Y + CAR_H) /\
  (forall lane y, 0 <= lane < LANE_COUNT ->
     touches (car_lx (player_lane shield_ahead)) lane y = true <->
     lane = player_lane shield_ahead /\
     PLAYER_Y - 8 < y < PLAYER_Y + CAR_H).
Proof.
  apply (collision_geometry shield_ahead).
  - vm_compute. split; [discriminate|reflexivity].
  - repeat apply Forall_cons_2; try apply Forall_nil_2; vm_compute;
      (split; [discriminate|reflexivity]).
Defined.

(** ** A shield picked up in time *)

Lemma shield_powerup_step px k s :
  shield_ticks (powerup_step px k s) = shield_ticks s \/
  shield_ticks (powerup_step px k s) = 50.
Proof. unfold powerup_step. unfold_steps. step_cases; tauto. Qed.

Lemma powerup_step_other px k s i :
  k <> i -> powerups (powerup_step px k s) !! i = powerups s !! i.
Proof.
  intros Hne. unfold powerup_step. unfold_steps.
  step_cases; try done; by rewrite list_lookup_insert_ne.
Qed.

Lemma shield_powerup_step_here px i s p :
  powerups s !! i = Some p -> pw_alive p = true -> pw_type p = PwShield ->
  touches px (pw_lane p) (pw_y p) = true ->
  shield_ticks (powerup_step px i s) = 50.
Proof.
  intros Hp Ha Ht Hto. unfold powerup_step. rewrite Hp, Ha, Hto, Ht.
  reflexivity.
Qed.

Lemma shield_powerup_loop px s i p :
  (i < MAX_POWERUPS)%nat ->
  powerups s !! i = Some p -> pw_alive p = true -> pw_type p = PwShield ->
  touches px (pw_lane p) (pw_y p) = true ->
  shield_ticks (for_loop MAX_POWERUPS (powerup_step px) s) = 50.
Proof.
  intros Hi Hp Ha Ht Hto.
  enough (H : ((i < MAX_POWERUPS)%nat ->
               shield_ticks (for_loop MAX_POWERUPS (powerup_step px) s) = 50)
              /\ ((MAX_POWERUPS <= i)%nat ->
                  powerups (for_loop MAX_POWERUPS (powerup_step px) s) !! i
                  = Some p)) by (by apply H).
  apply (for_loop_ind (fun n s' =>
    ((i < n)%nat -> shield_ticks s' = 50) /\
    ((n <= i)%nat -> powerups s' !! i = Some p))).
  - split; [lia|done].
  - intros k s' Hk [IH1 IH2]. split.
    + intros Hlt. destruct (decide (k = i)) as [->|Hne].
      * apply (shield_powerup_step_here px i s' p); auto.
      * destruct (shield_powerup_step px k s') as [-> | ->]; [|done].
        apply IH1. lia.
    + intros Hle. rewrite powerup_step_other by lia. apply IH2. lia.
Qed.

Lemma shield_check_collections s i p :
  (i < MAX_POWERUPS)%nat ->
  powerups s !! i = Some p -> pw_alive p = true -> pw_type p = PwShield ->
  touches (car_lx (player_lane s)) (pw_lane p) (pw_y p) = true ->
  shield_ticks (check_collections s) = 50.
Proof.
  intros Hi Hp Ha Ht Hto. unfold check_collections. cbv zeta.
  apply (shield_powerup_loop _ _ i p); try done.
  by rewrite (for_loop_frame powerups) by frame_step.
Qed.

Lemma tick_prefix_split s :
  tick_prefix s = check_collections (before_pickups s).
Proof. unfold tick_prefix, before_pickups. cbv zeta. reflexivity. Qed.

(** A shield protects from the tick on which it is picked up.  If, once
    the tick has moved and spawned the entities, a live shield power-up
    touches the player, then the tick ends with the shield countdown at
    its full 50 ticks, registers no collision whatever obstacles are on
    the player, and takes no life. *)
Theorem shield_pickup_protects s i p :
  state s = StatePlaying -> lives_ok s ->
  (i < MAX_POWERUPS)%nat ->
  powerups (before_pickups s) !! i = Some p ->
  pw_alive p = true -> pw_type p = PwShield ->
  touches (car_lx (player_lane s)) (pw_lane p) (pw_y p) = true ->
  shield_ticks (game_tick s) = 50 /\
  collision_registered (tick_prefix s) = false /\
  state (game_tick s) = StatePlaying /\
  lives s <= lives (game_tick s).
Proof.
  intros Hs Hlv Hi Hp Ha Ht Hto.
  assert (Hsh : shield_ticks (tick_prefix s) = 50).
  { rewrite tick_prefix_split.
    apply (shield_check_collections _ i p); try done.
    unfold before_pickups. by rewrite (frame_motion player_lane),
      (frame_tick_counters player_lane). }
  assert (Hc : collision_registered (tick_prefix s) = false).
  { unfold collision_registered. rewrite Hsh.
    by rewrite andb_false_r. }
  destruct (game_tick_cases s Hs) as [[_ He]|[(Hc' & _)|(Hc' & _)]];
    [|congruence..].
  rewrite He. repeat split.
  - by rewrite frame_level_up.
  - done.
  - by rewrite state_level_up, state_tick_prefix.
  - rewrite frame_level_up by reflexivity.
    pose proof (lives_tick_prefix_bounds s (proj1 (proj1 Hlv))) as Hb. lia.
Qed.

Lemma shield_pickup_protects_witness :
  shield_ticks (game_tick shield_ahead) = 50 /\
  collision_registered (tick_prefix shield_ahead) = false /\
  state (game_tick shield_ahead) = StatePlaying /\
  lives shield_ahead <= lives (game_tick shield_ahead).
Proof.
  apply (shield_pickup_protects shield_ahead 0%nat
           (powerup_at 1 103 true PwShield)).
  - reflexivity.
  - split; [vm_compute; split; discriminate|intros _; vm_compute; discriminate].
  - unfold MAX_POWERUPS. lia.
  - vm_compute. reflexivity.
  - reflexivity.
  - reflexivity.
  - vm_compute. reflexivity.
Defined.
(** ** The score *)

Lemma score_game_tick s :
  0 <= score s < 2 ^ 32 ->
  exists g, 0 <= g <= MAX_TICK_GAIN /\ score (game_tick s) = u32 (score s + g) /\
            (g <> 0 -> state s = StatePlaying).
Proof.
  intros Hsc. destruct (decide (state s = StatePlaying)) as [Hs|Hs].
  - destruct (score_gain_tick_prefix s Hsc) as (g & Hg & He).
    exists g. rewrite frame_after_prefix by done. done.
  - exists 0. rewrite game_tick_idle by done. unfold MAX_TICK_GAIN.
    rewrite Z.add_0_r, u32_small by done. split; [lia|done].
Qed.

(** The score stays within 32 bits, and only a tick in play changes it
    within an episode: the tick adds the points of the obstacles it
    retires and of the coins it collects, at most 19175 in all, in 32-bit
    arithmetic.  Keys leave the score alone, except that starting a game
    sets it to 0. *)
Theorem score_only_grows s :
  reachable s ->
  0 <= score s < 2 ^ 32 /\
  forall ev s', handle_event ev s = Some s' ->
    (s' = game_init s /\ score s' = 0) \/
    exists g, 0 <= g <= MAX_TICK_GAIN /\ score s' = u32 (score s + g) /\
              (g <> 0 -> ev = EventTypeTick /\ state s = StatePlaying).
Proof.
  intros Hr.
  assert (Hsc : 0 <= score s < 2 ^ 32).
  { revert s Hr. apply reachable_inv.
    - intros stored opens src. cbn. lia.
    - intros s _ Hsc. destruct (score_game_tick s Hsc) as (g & _ & -> & _).
      apply u32_range.
    - intros s key s' _ Hsc Hk.
      destruct (score_key_step s key s' Hk) as [->|[-> _]]; [|done].
      destruct (level_score_game_init s) as [_ ->]. lia. }
  split; [done|]. intros ev s' Hev.
  destruct (handle_event_inv ev s s' Hev)
    as [[-> ->]|[(ty & key & -> & Hty & Hk)|(ty & key & _ & _ & ->)]].
  - right. destruct (score_game_tick s Hsc) as (g & Hg & He & Hp).
    exists g. auto.
  - destruct (score_key_step s key s' Hk) as [->|[-> _]].
    + left. split; [done|]. apply level_score_game_init.
    + right. exists 0. unfold MAX_TICK_GAIN.
      rewrite Z.add_0_r, u32_small by done. split; [lia|done].
  - right. exists 0. unfold MAX_TICK_GAIN.
    rewrite Z.add_0_r, u32_small by done. split; [lia|done].
Qed.

Lemma score_only_grows_witness :
  0 <= score first_episode < 2 ^ 32 /\
  forall ev s', handle_event ev first_episode = Some s' ->
    (s' = game_init first_episode /\ score s' = 0) \/
    exists g, 0 <= g <= MAX_TICK_GAIN /\
              score s' = u32 (score first_episode + g) /\
              (g <> 0 ->
               ev = EventTypeTick /\ state first_episode = StatePlaying).
Proof. exact (score_only_grows first_episode reachable_first_episode). Defined.

(** ** Sound off *)

Lemma muted_check_collections s :
  sound_on s = false -> cues (check_collections s) = cues s.
Proof.
  intros Hoff. unfold check_collections. cbv zeta.
  set (P := fun s' : RaceGameState =>
    sound_on s' = false /\ cues s' = cues s).
  enough (H : P (for_loop MAX_POWERUPS (powerup_step (car_lx (player_lane s)))
                   (for_loop MAX_COINS (coin_step (car_lx (player_lane s))) s)))
    by apply H.
  apply (for_loop_inv P); [apply (for_loop_inv P)|]; unfold P.
  - done.
  - intros i s' [H1 H2]. unfold coin_step. unfold_steps.
    step_cases; split; congruence.
  - intros i s' [H1 H2]. unfold powerup_step. unfold_steps.
    step_cases; split; congruence.
Qed.

Lemma muted_tick_prefix s :
  sound_on s = false ->
  sound_on (tick_prefix s) = false /\ cues (tick_prefix s) = cues s.
Proof.
  intros Hoff. split; [by rewrite frame_tick_prefix|].
  rewrite tick_prefix_split, muted_check_collections.
  - unfold before_pickups.
    by rewrite (frame_motion cues), (frame_tick_counters cues).
  - unfold before_pickups.
    by rewrite (frame_motion sound_on), (frame_tick_counters sound_on).
Qed.

Lemma muted_level_up s :
  sound_on s = false -> cues (level_up s) = cues s.
Proof.
  intros Hoff. unfold level_up, play_sound, emit, furi_timer_stop,
    furi_timer_start. cbv zeta. step_cases; congruence.
Qed.

Lemma muted_crash s :
  sound_on s = false -> cues (crash s) = Vibro 80 :: cues s.
Proof.
  intros Hoff. unfold crash, play_sound, vibrate, emit. cbv zeta.
  frame_rw. cbn. by rewrite Hoff; frame_rw.
Qed.

Lemma muted_game_tick s :
  sound_on s = false ->
  exists new, plays new s (game_tick s) /\
    Forall (fun c => is_tone c = false) new.
Proof.
  intros Hoff. unfold plays.
  destruct (decide (state s = StatePlaying)) as [Hs|Hs];
    [|exists []; by rewrite game_tick_idle].
  destruct (muted_tick_prefix s Hoff) as [Hoff' Hc].
  assert (Hcr : cues (crash (tick_prefix s)) = Vibro 80 :: cues s)
    by (by rewrite muted_crash, Hc).
  assert (Hso : sound_on (crash (tick_prefix s)) = false)
    by (by rewrite sound_on_crash).
  destruct (game_tick_cases s Hs) as [[_ ->]|[(_ & _ & ->)|(_ & _ & ->)]].
  - exists []. by rewrite muted_level_up, Hc.
  - rewrite cues_game_over, Hso, Hcr.
    destruct ((high_score (crash (tick_prefix s))
                 <? score (crash (tick_prefix s)))
              && open_src (crash (tick_prefix s))
                   (open_pos (crash (tick_prefix s)))).
    + exists [SaveBest (score (crash (tick_prefix s))); Vibro 200; Vibro 80].
      split; [done|]. by repeat apply Forall_cons_2.
    + exists [Vibro 200; Vibro 80].
      split; [done|]. by repeat apply Forall_cons_2.
  - exists [Vibro 80]. rewrite muted_level_up by (by frame_rw).
    frame_rw. split; [by rewrite Hcr|]. by repeat apply Forall_cons_2.
Qed.

(** With the sound setting off, nothing is ever played: whatever the
    event, the cues it adds contain no tone (only the two vibrations of a
    crash and of the end of the game, and the write of a new best score).
    No key adds a cue at all then. *)
Theorem sound_off_plays_no_tone ev s s' :
  sound_on s = false -> handle_event ev s = Some s' ->
  exists new, plays new s s' /\ Forall (fun c => is_tone c = false) new /\
    (ev <> EventTypeTick -> new = []).
Proof.
  intros Hoff Hev.
  destruct (handle_event_inv ev s s' Hev)
    as [[-> ->]|[(ty & key & -> & Hty & Hk)|(ty & key & -> & _ & ->)]].
  - destruct (muted_game_tick s Hoff) as (new & Hp & Hn).
    exists new. by repeat split.
  - exists []. unfold plays. repeat split; [|done].
    destruct Hk as [Hst|Hst Hm|Hst Hm|Hst Hm|Hst Hm|Hst|Hst|Hst|Hst Hp
                   |Hst Hp|key];
      [ |by game_init_field cues|..];
      unfold menu_up, play_sound, emit, furi_timer_stop; cbv zeta; cbn;
      rewrite ?Hoff; try done.
    by case_match.
  - by exists [].
Qed.

Lemma sound_off_plays_no_tone_witness :
  exists new,
    plays new (set_sound_on false shield_ahead)
      (game_tick (set_sound_on false shield_ahead)) /\
    Forall (fun c => is_tone c = false) new /\
    (EventTypeTick <> EventTypeTick -> new = []).
Proof.
  apply (sound_off_plays_no_tone EventTypeTick
           (set_sound_on false shield_ahead)); reflexivity.
Defined.
(** ** The pools *)

Lemma pool_ok_insert {A} n (ok : A -> Prop) l i x :
  pool_ok n ok l -> ok x -> pool_ok n ok (<[i := x]> l).
Proof.
  intros [Hlen Hall] Hx. split; [by rewrite length_insert|].
  by apply Forall_insert.
Qed.

Lemma pool_ok_alter {A} n (ok : A -> Prop) (f : A -> A) l i :
  pool_ok n ok l -> (forall x, ok x -> ok (f x)) ->
  pool_ok n ok (alter f i l).
Proof.
  intros [Hlen Hall] Hf. split; [by rewrite length_alter|].
  apply Forall_alter; [done|]. intros x Hx Hok. by apply Hf.
Qed.

Lemma pool_ok_lookup {A} n (ok : A -> Prop) l i x :
  pool_ok n ok l -> l !! i = Some x -> ok x.
Proof. intros [_ Hall] Hx. by apply (Forall_lookup_1 _ _ _ _ Hall Hx). Qed.

Lemma pool_ok_replicate {A} n (ok : A -> Prop) x :
  ok x -> pool_ok n ok (replicate n x).
Proof.
  intros Hx. split; [apply length_replicate|]. by apply Forall_replicate.
Qed.

Lemma lane_draw r : 0 <= i8 (Z.rem (Z.of_N r) LANE_COUNT) < LANE_COUNT.
Proof.
  pose proof (rem_bounds r LANE_COUNT) as H. unfold LANE_COUNT in *.
  rewrite i8_small; lia.
Qed.

(** *** Obstacles *)

Lemma obstacles_ok_obstacle_step spd i s :
  3 <= spd <= 7 ->
  pool_ok MAX_OBS obstacle_ok (obstacles s) ->
  pool_ok MAX_OBS obstacle_ok (obstacles (obstacle_step spd i s)).
Proof.
  intros Hspd Hok. unfold obstacle_step.
  destruct (obstacles s !! i) as [o|] eqn:Ho; [|done].
  destruct (pool_ok_lookup _ _ _ _ _ Hok Ho) as (Hl & Hy & Ha).
  destruct (obs_alive o) eqn:Hal; cbn [negb]; [|done].
  specialize (Ha eq_refl).
  assert (Hm : 2 <= obs_move spd (obs_type o) <= 8 /\
               obs_exit_h (obs_type o) + obs_move spd (obs_type o) <= 24)
    by (unfold obs_move, obs_exit_h; destruct (obs_type o); lia).
  assert (He : 12 <= obs_exit_h (obs_type o) <= 16)
    by (unfold obs_exit_h; destruct (obs_type o); lia).
  unfold SCREEN_H in *. cbv zeta.
  rewrite i16_small by lia.
  destruct (Z.ltb_spec (128 + obs_exit_h (obs_type o))
              (obs_y o + obs_move spd (obs_type o)));
    cbn [obstacles set_obstacles set_score];
    (apply pool_ok_insert; [done|]); unfold obstacle_ok, SCREEN_H;
    cbn [obs_lane obs_y obs_alive obs_type];
    (split; [done|]); (split; [lia|]); intros; first [done|lia].
Qed.

Lemma obstacles_ok_move_entities s :
  0 <= level s <= 9 ->
  pool_ok MAX_OBS obstacle_ok (obstacles s) ->
  pool_ok MAX_OBS obstacle_ok (obstacles (move_entities s)).
Proof.
  intros Hl Hok. unfold move_entities. cbv zeta.
  do 2 rewrite (for_loop_frame obstacles) by frame_step.
  apply (for_loop_inv (fun s' => pool_ok MAX_OBS obstacle_ok (obstacles s')));
    [done|].
  intros i s' Hs'. apply obstacles_ok_obstacle_step; [|done].
  rewrite Z.quot_div_nonneg by lia. Z.div_mod_to_equations. lia.
Qed.

Lemma new_obstacle_ok s : obstacle_ok (fst (new_obstacle s)).
Proof.
  rewrite new_obstacle_spec. unfold obstacle_ok, draw, truck.
  repeat case_match; cbn; unfold obs_exit_h, SCREEN_H;
    (split; [first [apply lane_draw|unfold LANE_COUNT; lia]|]);
    (split; [lia|]); intros _; repeat case_match; lia.
Qed.

Lemma obstacles_ok_spawn_obstacle_from idx s :
  pool_ok MAX_OBS obstacle_ok (obstacles s) ->
  pool_ok MAX_OBS obstacle_ok (obstacles (spawn_obstacle_from idx s)).
Proof.
  intros Hok. induction idx as [|i rest IH]; [done|].
  rewrite spawn_obstacle_from_cons.
  destruct (obstacles s !! i) as [o|]; [|done].
  destruct (obs_alive o); [exact IH|].
  cbn [obstacles set_obstacles]. rewrite obstacles_new_obstacle.
  apply pool_ok_insert; [done|apply new_obstacle_ok].
Qed.

Lemma obstacles_spawn_phase s :
  obstacles (spawn_phase s) = obstacles s \/
  exists idx, obstacles (spawn_phase s) = obstacles (spawn_obstacle_from idx s).
Proof.
  unfold spawn_phase, spawn_obstacle, spawn_coin, spawn_powerup. cbv zeta.
  repeat case_match;
    rewrite ?(spawn_powerup_from_frame obstacles),
      ?(spawn_coin_from_frame obstacles) by reflexivity; eauto.
Qed.

Lemma obstacles_ok_game_tick s :
  0 <= level s <= 9 ->
  pool_ok MAX_OBS obstacle_ok (obstacles s) ->
  pool_ok MAX_OBS obstacle_ok (obstacles (game_tick s)).
Proof.
  intros Hl Hok.
  destruct (decide (state s = StatePlaying)) as [Hs|Hs];
    [|by rewrite game_tick_idle].
  rewrite frame_after_prefix by done. rewrite tick_prefix_split.
  rewrite (frame_check_collections obstacles) by reflexivity.
  unfold before_pickups.
  assert (Hm : pool_ok MAX_OBS obstacle_ok
                 (obstacles (move_entities (move_scenery (update_particles
                    (tick_counters s)))))).
  { apply obstacles_ok_move_entities.
    - by rewrite (frame_move_scenery level), (frame_update_particles level),
        (frame_tick_counters level).
    - by rewrite (frame_move_scenery obstacles),
        (frame_update_particles obstacles), (frame_tick_counters obstacles). }
  destruct (obstacles_spawn_phase (move_entities (move_scenery
    (update_particles (tick_counters s))))) as [->|[idx ->]]; [done|].
  by apply obstacles_ok_spawn_obstacle_from.
Qed.

Lemma obstacle_ok_kill o : obstacle_ok o -> obstacle_ok (kill_obstacle o).
Proof. unfold obstacle_ok. cbn. intuition discriminate. Qed.

Lemma obstacles_ok_game_init s :
  pool_ok MAX_OBS obstacle_ok (obstacles s) ->
  pool_ok MAX_OBS obstacle_ok (obstacles (game_init s)).
Proof.
  intros Hok. unfold game_init. cbv zeta. unfold furi_timer_start. frame_rw.
  rewrite ?(frame_init_scenery obstacles) by reflexivity.
  do 3 rewrite (for_loop_frame obstacles) by frame_step.
  apply (for_loop_inv (fun s' => pool_ok MAX_OBS obstacle_ok (obstacles s'))).
  - by frame_rw.
  - intros i s' Hs'. cbn. apply pool_ok_alter; [done|].
    apply obstacle_ok_kill.
Qed.

(** *** Coins *)

Lemma coins_ok_coin_move_step spd i s :
  3 <= spd <= 7 ->
  pool_ok MAX_COINS coin_ok (coins s) ->
  pool_ok MAX_COINS coin_ok (coins (coin_move_step spd i s)).
Proof.
  intros Hspd Hok. unfold coin_move_step.
  destruct (coins s !! i) as [c|] eqn:Hc; [|done].
  destruct (pool_ok_lookup _ _ _ _ _ Hok Hc) as (Hl & Hy & Ha).
  destruct (coin_alive c) eqn:Hal; [|done].
  specialize (Ha eq_refl). unfold SCREEN_H in *. cbv zeta.
  rewrite i16_small by lia. cbn [coins set_coins].
  apply pool_ok_insert; [done|]. unfold coin_ok, SCREEN_H.
  cbn [coin_lane coin_y coin_alive].
  split; [done|]. split; [lia|].
  destruct (Z.ltb_spec 128 (coin_y c + spd)); intros; first [done|lia].
Qed.

Lemma spd_range s : 0 <= level s <= 9 -> 3 <= 3 + level s ÷ 2 <= 7.
Proof.
  intros Hl. rewrite Z.quot_div_nonneg by lia. Z.div_mod_to_equations. lia.
Qed.

Lemma coins_ok_move_entities s :
  0 <= level s <= 9 ->
  pool_ok MAX_COINS coin_ok (coins s) ->
  pool_ok MAX_COINS coin_ok (coins (move_entities s)).
Proof.
  intros Hl Hok. unfold move_entities. cbv zeta.
  rewrite (for_loop_frame coins) by frame_step.
  apply (for_loop_inv (fun s' => pool_ok MAX_COINS coin_ok (coins s'))).
  - by rewrite (for_loop_frame coins) by frame_step.
  - intros i s' Hs'. apply coins_ok_coin_move_step; [|done].
    by apply spd_range.
Qed.

Lemma spawn_coin_from_cons i rest s :
  spawn_coin_from (i :: rest) s =
  match coins s !! i with
  | Some c =>
      if coin_alive c then spawn_coin_from rest s
      else set_coins (<[i := fst (new_coin s)]> (coins (snd (new_coin s))))
                     (snd (new_coin s))
  | None => s
  end.
Proof.
  change (spawn_coin_from (i :: rest) s) with
    (match coins s !! i with
     | Some c =>
         if coin_alive c then spawn_coin_from rest s
         else let '(c', s0) := new_coin s in
              set_coins (<[i := c']> (coins s0)) s0
     | None => s
     end).
  destruct (coins s !! i) as [c|]; [|done].
  destruct (coin_alive c); [done|]. by destruct (new_coin s).
Qed.

Lemma spawn_powerup_from_cons i rest s :
  spawn_powerup_from (i :: rest) s =
  match powerups s !! i with
  | Some p =>
      if pw_alive p then spawn_powerup_from rest s
      else set_powerups
             (<[i := fst (new_powerup s)]> (powerups (snd (new_powerup s))))
             (snd (new_powerup s))
  | None => s
  end.
Proof.
  change (spawn_powerup_from (i :: rest) s) with
    (match powerups s !! i with
     | Some p =>
         if pw_alive p then spawn_powerup_from rest s
         else let '(p', s0) := new_powerup s in
              set_powerups (<[i := p']> (powerups s0)) s0
     | None => s
     end).
  destruct (powerups s !! i) as [p|]; [|done].
  destruct (pw_alive p); [done|]. by destruct (new_powerup s).
Qed.

Lemma coins_ok_spawn_coin_from idx s :
  pool_ok MAX_COINS coin_ok (coins s) ->
  pool_ok MAX_COINS coin_ok (coins (spawn_coin_from idx s)).
Proof.
  intros Hok. induction idx as [|i rest IH]; [done|].
  rewrite spawn_coin_from_cons. destruct (coins s !! i) as [c|]; [|done].
  destruct (coin_alive c); [exact IH|].
  unfold new_coin, rand. cbn [coins set_coins set_rand_pos fst snd].
  apply pool_ok_insert; [done|]. unfold coin_ok, SCREEN_H.
  cbn [coin_lane coin_y coin_alive].
  split; [apply lane_draw|]. split; [lia|]. intros _. lia.
Qed.

Lemma coins_spawn_phase s :
  coins (spawn_phase s) = coins s \/
  exists idx x, coins x = coins s /\
    coins (spawn_phase s) = coins (spawn_coin_from idx x).
Proof.
  unfold spawn_phase, spawn_obstacle, spawn_coin, spawn_powerup. cbv zeta.
  repeat case_match;
    rewrite ?(spawn_powerup_from_frame coins) by reflexivity;
    first [ right; eexists _, _; split; [|reflexivity];
            first [ by apply (spawn_obstacle_from_frame coins) | reflexivity ]
          | left; first [ by apply (spawn_obstacle_from_frame coins)
                        | reflexivity ] ].
Qed.

Lemma coins_ok_coin_step px i s :
  0 <= player_lane s < LANE_COUNT ->
  pool_ok MAX_COINS coin_ok (coins s) ->
  pool_ok MAX_COINS coin_ok (coins (coin_step px i s)).
Proof.
  intros Hpl Hok. unfold coin_step.
  destruct (coins s !! i) as [c|] eqn:Hc; [|done].
  destruct (pool_ok_lookup _ _ _ _ _ Hok Hc) as (Hl & Hy & Ha).
  destruct (coin_alive c) eqn:Hal; cbn [negb]; [|done].
  specialize (Ha eq_refl). cbv zeta.
  destruct (touches px (coin_lane c) (coin_y c) || magnet_pull s c); [|done].
  destruct (magnet_pull s c && negb (touches px (coin_lane c) (coin_y c)))
    eqn:Hp.
  - apply andb_true_iff in Hp as [Hp _]. unfold magnet_pull in Hp.
    apply andb_true_iff in Hp as [_ Hp]. apply Z.ltb_lt in Hp.
    cbn [coins set_coins]. apply pool_ok_insert; [done|].
    unfold coin_ok, SCREEN_H, PLAYER_Y, LANE_COUNT in *.
    cbn [coin_lane coin_y coin_alive].
    split; [|split; [|intros _]].
    + repeat case_match; bool_hyps; rewrite ?i8_small by lia; lia.
    + case_match; bool_hyps; rewrite i16_small by lia; lia.
    + case_match; bool_hyps; rewrite i16_small by lia; lia.
  - frame_rw. apply pool_ok_insert; [done|]. unfold coin_ok. cbn.
    intuition discriminate.
Qed.

Lemma coins_ok_check_collections s :
  0 <= player_lane s < LANE_COUNT ->
  pool_ok MAX_COINS coin_ok (coins s) ->
  pool_ok MAX_COINS coin_ok (coins (check_collections s)).
Proof.
  intros Hpl Hok. unfold check_collections. cbv zeta.
  rewrite (for_loop_frame coins) by frame_step.
  apply (for_loop_inv (fun s' =>
    player_lane s' = player_lane s /\
    pool_ok MAX_COINS coin_ok (coins s'))); [done|].
  intros i s' [Hp Hs']. split.
  - rewrite <- Hp. clear. frame_step.
  - apply coins_ok_coin_step; [by rewrite Hp|done].
Qed.

Lemma coins_ok_game_tick s :
  0 <= level s <= 9 -> 0 <= player_lane s < LANE_COUNT ->
  pool_ok MAX_COINS coin_ok (coins s) ->
  pool_ok MAX_COINS coin_ok (coins (game_tick s)).
Proof.
  intros Hl Hpl Hok.
  destruct (decide (state s = StatePlaying)) as [Hs|Hs];
    [|by rewrite game_tick_idle].
  rewrite frame_after_prefix by done. rewrite tick_prefix_split.
  apply coins_ok_check_collections.
  { unfold before_pickups.
    by rewrite (frame_motion player_lane), (frame_tick_counters player_lane). }
  unfold before_pickups.
  assert (Hm : pool_ok MAX_COINS coin_ok
                 (coins (move_entities (move_scenery (update_particles
                    (tick_counters s)))))).
  { apply coins_ok_move_entities.
    - by rewrite (frame_move_scenery level), (frame_update_particles level),
        (frame_tick_counters level).
    - by rewrite (frame_move_scenery coins),
        (frame_update_particles coins), (frame_tick_counters coins). }
  destruct (coins_spawn_phase (move_entities (move_scenery
    (update_particles (tick_counters s))))) as [->|(idx & x & Hx & ->)];
    [done|].
  apply coins_ok_spawn_coin_from. by rewrite Hx.
Qed.

Lemma coins_ok_game_init s :
  pool_ok MAX_COINS coin_ok (coins s) ->
  pool_ok MAX_COINS coin_ok (coins (game_init s)).
Proof.
  intros Hok. unfold game_init. cbv zeta. unfold furi_timer_start. frame_rw.
  rewrite ?(frame_init_scenery coins) by reflexivity.
  do 2 rewrite (for_loop_frame coins) by frame_step.
  apply (for_loop_inv (fun s' => pool_ok MAX_COINS coin_ok (coins s'))).
  - rewrite (for_loop_frame coins) by frame_step. by frame_rw.
  - intros i s' Hs'. cbn. apply pool_ok_alter; [done|].
    intros c. unfold coin_ok. cbn. intuition discriminate.
Qed.

(** *** Power-ups *)

Lemma powerups_ok_powerup_move_step spd i s :
  3 <= spd <= 7 ->
  pool_ok MAX_POWERUPS powerup_ok (powerups s) ->
  pool_ok MAX_POWERUPS powerup_ok (powerups (powerup_move_step spd i s)).
Proof.
  intros Hspd Hok. unfold powerup_move_step.
  destruct (powerups s !! i) as [p|] eqn:Hp; [|done].
  destruct (pool_ok_lookup _ _ _ _ _ Hok Hp) as (Hl & Hy & Ha).
  destruct (pw_alive p) eqn:Hal; [|done].
  specialize (Ha eq_refl). unfold SCREEN_H in *. cbv zeta.
  rewrite i16_small by lia. cbn [powerups set_powerups].
  apply pool_ok_insert; [done|]. unfold powerup_ok, SCREEN_H.
  cbn [pw_lane pw_y pw_alive].
  split; [done|]. split; [lia|].
  destruct (Z.ltb_spec 128 (pw_y p + spd)); intros; first [done|lia].
Qed.

Lemma powerups_ok_move_entities s :
  0 <= level s <= 9 ->
  pool_ok MAX_POWERUPS powerup_ok (powerups s) ->
  pool_ok MAX_POWERUPS powerup_ok (powerups (move_entities s)).
Proof.
  intros Hl Hok. unfold move_entities. cbv zeta.
  apply (for_loop_inv
    (fun s' => pool_ok MAX_POWERUPS powerup_ok (powerups s'))).
  - by do 2 rewrite (for_loop_frame powerups) by frame_step.
  - intros i s' Hs'. apply powerups_ok_powerup_move_step; [|done].
    by apply spd_range.
Qed.

Lemma powerups_ok_spawn_powerup_from idx s :
  pool_ok MAX_POWERUPS powerup_ok (powerups s) ->
  pool_ok MAX_POWERUPS powerup_ok (powerups (spawn_powerup_from idx s)).
Proof.
  intros Hok. induction idx as [|i rest IH]; [done|].
  rewrite spawn_powerup_from_cons.
  destruct (powerups s !! i) as [p|]; [|done].
  destruct (pw_alive p); [exact IH|].
  unfold new_powerup, rand. cbn [powerups set_powerups set_rand_pos fst snd].
  apply pool_ok_insert; [done|]. unfold powerup_ok, SCREEN_H.
  cbn [pw_lane pw_y pw_alive].
  split; [apply lane_draw|]. split; [lia|]. intros _. lia.
Qed.

Lemma powerups_spawn_phase s :
  powerups (spawn_phase s) = powerups s \/
  exists idx x, powerups x = powerups s /\
    powerups (spawn_phase s) = powerups (spawn_powerup_from idx x).
Proof.
  unfold spawn_phase, spawn_obstacle, spawn_coin, spawn_powerup. cbv zeta.
  repeat case_match;
    first [ right; eexists _, _; split; [|reflexivity];
            rewrite ?(spawn_coin_from_frame powerups),
              ?(spawn_obstacle_from_frame powerups) by reflexivity;
            reflexivity
          | left;
            rewrite ?(spawn_coin_from_frame powerups),
              ?(spawn_obstacle_from_frame powerups) by reflexivity;
            reflexivity ].
Qed.

Lemma powerups_ok_powerup_step px i s :
  pool_ok MAX_POWERUPS powerup_ok (powerups s) ->
  pool_ok MAX_POWERUPS powerup_ok (powerups (powerup_step px i s)).
Proof.
  intros Hok. unfold powerup_step.
  destruct (powerups s !! i) as [p|] eqn:Hp; [|done].
  destruct (pool_ok_lookup _ _ _ _ _ Hok Hp) as (Hl & Hy & Ha).
  destruct (pw_alive p) eqn:Hal; cbn [negb]; [|done].
  destruct (touches px (pw_lane p) (pw_y p)); [|done]. cbv zeta.
  assert (Hk : pool_ok MAX_POWERUPS powerup_ok
                 (<[i := kill_powerup p]> (powerups s))).
  { apply pool_ok_insert; [done|]. unfold powerup_ok. cbn.
    intuition discriminate. }
  destruct (pw_type p); [by frame_rw|by frame_rw|].
  case_match; by frame_rw.
Qed.

Lemma powerups_ok_game_tick s :
  0 <= level s <= 9 ->
  pool_ok MAX_POWERUPS powerup_ok (powerups s) ->
  pool_ok MAX_POWERUPS powerup_ok (powerups (game_tick s)).
Proof.
  intros Hl Hok.
  destruct (decide (state s = StatePlaying)) as [Hs|Hs];
    [|by rewrite game_tick_idle].
  rewrite frame_after_prefix by done. rewrite tick_prefix_split.
  unfold check_collections. cbv zeta.
  apply (for_loop_inv
    (fun s' => pool_ok MAX_POWERUPS powerup_ok (powerups s')));
    [|intros i s' Hs'; by apply powerups_ok_powerup_step].
  rewrite (for_loop_frame powerups) by frame_step.
  unfold before_pickups.
  assert (Hm : pool_ok MAX_POWERUPS powerup_ok
                 (powerups (move_entities (move_scenery (update_particles
                    (tick_counters s)))))).
  { apply powerups_ok_move_entities.
    - by rewrite (frame_move_scenery level), (frame_update_particles level),
        (frame_tick_counters level).
    - by rewrite (frame_move_scenery powerups),
        (frame_update_particles powerups), (frame_tick_counters powerups). }
  destruct (powerups_spawn_phase (move_entities (move_scenery
    (update_particles (tick_counters s))))) as [->|(idx & x & Hx & ->)];
    [done|].
  apply powerups_ok_spawn_powerup_from. by rewrite Hx.
Qed.

Lemma powerups_ok_game_init s :
  pool_ok MAX_POWERUPS powerup_ok (powerups s) ->
  pool_ok MAX_POWERUPS powerup_ok (powerups (game_init s)).
Proof.
  intros Hok. unfold game_init. cbv zeta. unfold furi_timer_start. frame_rw.
  rewrite ?(frame_init_scenery powerups) by reflexivity.
  rewrite (for_loop_frame powerups) by frame_step.
  apply (for_loop_inv
    (fun s' => pool_ok MAX_POWERUPS powerup_ok (powerups s'))).
  - do 2 rewrite (for_loop_frame powerups) by frame_step. by frame_rw.
  - intros i s' Hs'. cbn. apply pool_ok_alter; [done|].
    intros c. unfold powerup_ok. cbn. intuition discriminate.
Qed.

(** *** The three pools together *)

(** The entities of the road stay where the road is.  In every state the
    loop reaches, the pools have their 5, 3 and 2 slots, and every
    obstacle, coin and power-up in them, live or not, is in one of the
    three lanes and has a vertical offset between its spawn offset (-18
    for obstacles, -12 for coins and power-ups) and 152 (obstacles) or
    135 (coins and power-ups); a live one has not passed the offset at
    which the motion loop retires it.  So no 16-bit offset ever wraps and
    no lane index leaves the road, magnet pulls included. *)
Theorem entities_in_bounds s :
  reachable s ->
  pool_ok MAX_OBS obstacle_ok (obstacles s) /\
  pool_ok MAX_COINS coin_ok (coins s) /\
  pool_ok MAX_POWERUPS powerup_ok (powerups s).
Proof.
  revert s. apply reachable_inv.
  - intros stored opens src. cbn [race_game_start obstacles coins powerups].
    split; [|split]; apply pool_ok_replicate; vm_compute; intuition discriminate.
  - intros s Hr (Ho & Hc & Hp).
    pose proof (reachable_level s Hr) as Hl.
    pose proof (reachable_player_lane s Hr) as Hpl.
    split; [by apply obstacles_ok_game_tick|].
    split; [by apply coins_ok_game_tick|by apply powerups_ok_game_tick].
  - intros s key s' _ (Ho & Hc & Hp) Hk.
    assert (H1 : s' = game_init s \/ obstacles s' = obstacles s)
      by (by eapply (frame_key_step obstacles)).
    assert (H2 : s' = game_init s \/ coins s' = coins s)
      by (by eapply (frame_key_step coins)).
    assert (H3 : s' = game_init s \/ powerups s' = powerups s)
      by (by eapply (frame_key_step powerups)).
    assert (Hi : pool_ok MAX_OBS obstacle_ok (obstacles (game_init s)) /\
                 pool_ok MAX_COINS coin_ok (coins (game_init s)) /\
                 pool_ok MAX_POWERUPS powerup_ok (powerups (game_init s))).
    { split; [by apply obstacles_ok_game_init|].
      split; [by apply coins_ok_game_init|by apply powerups_ok_game_init]. }
    destruct H1 as [->|H1]; [done|]. destruct H2 as [->|H2]; [done|].
    destruct H3 as [->|H3]; [done|]. by rewrite H1, H2, H3.
Qed.

Lemma entities_in_bounds_witness :
  pool_ok MAX_OBS obstacle_ok (obstacles first_episode) /\
  pool_ok MAX_COINS coin_ok (coins first_episode) /\
  pool_ok MAX_POWERUPS powerup_ok (powerups first_episode).
Proof. exact (entities_in_bounds first_episode reachable_first_episode). Defined.

(** ** Particles *)

Lemma draw_ranges (r : N) :
  (-3 <= i8 (Z.rem (Z.of_N r) 7 - 3) <= 3) /\
  (8 <= u8 (8 + Z.rem (Z.of_N r) 5) <= 12) /\
  (0 <= i8 (Z.rem (Z.of_N r) 2) <= 1) /\
  (-19 <= i16 (- Z.rem (Z.of_N r) 20) <= 0) /\
  (0 <= i16 (Z.rem (Z.of_N r) SCREEN_H) <= 127).
Proof.
  pose proof (rem_bounds r 7). pose proof (rem_bounds r 5).
  pose proof (rem_bounds r 2). pose proof (rem_bounds r 20).
  pose proof (rem_bounds r SCREEN_H). unfold SCREEN_H in *.
  rewrite !i8_small, !i16_small, u8_small by lia. lia.
Qed.

Lemma update_particles_lookup i s j :
  particles
    (match particles s !! i with
     | Some p =>
         if 0 <? pt_life p then
           set_particles
             (<[i := {| pt_x := i16 (pt_x p + pt_dx p);
                        pt_y := i16 (pt_y p + pt_dy p);
                        pt_dx := pt_dx p; pt_dy := pt_dy p;
                        pt_life := u8 (pt_life p - 1) |}]> (particles s)) s
         else s
     | None => s
     end) !! j =
  if decide (i = j) then aged <$> particles s !! j else particles s !! j.
Proof.
  destruct (particles s !! i) as [p|] eqn:Hi;
    [|apply lookup_same_here; intros; congruence].
  destruct (0 <? pt_life p) eqn:Ha.
  - cbn [particles set_particles].
    rewrite (lookup_insert_here _ i j _ p Hi).
    destruct (decide (i = j)) as [<-|]; [|done].
    rewrite Hi. cbn. unfold aged. by rewrite Ha.
  - apply lookup_same_here. intros y Hy. unfold aged.
    replace y with p by congruence. by rewrite Ha.
Qed.

Lemma particle_ok_aged p :
  particle_ok p ->
  particle_ok (aged p) /\ pt_life (aged p) = counted_down (pt_life p).
Proof.
  unfold particle_ok, aged, counted_down. intros (Hl & Hx & Hy).
  destruct (Z.ltb_spec 0 (pt_life p)); cbn;
    rewrite ?u8_small by lia; lia.
Qed.

Lemma particles_update_particles s i :
  (i < MAX_PARTICLES)%nat ->
  particles (update_particles s) !! i = aged <$> particles s !! i.
Proof.
  intros Hi. unfold update_particles.
  rewrite (for_loop_pointwise particles aged)
    by (intros; apply update_particles_lookup).
  by replace (i <? MAX_PARTICLES)%nat with true
    by (symmetry; by apply Nat.ltb_lt).
Qed.

Lemma particles_ok_update_particles s :
  pool_ok MAX_PARTICLES particle_ok (particles s) ->
  pool_ok MAX_PARTICLES particle_ok (particles (update_particles s)).
Proof.
  intros Hok. unfold update_particles.
  apply (for_loop_inv
    (fun s' => pool_ok MAX_PARTICLES particle_ok (particles s'))); [done|].
  intros i s' Hs'. destruct (particles s' !! i) as [p|] eqn:Hp; [|done].
  destruct (particle_ok_aged p (pool_ok_lookup _ _ _ _ _ Hs' Hp)) as [Ha _].
  unfold aged in Ha. destruct (0 <? pt_life p); [|done].
  cbn [particles set_particles]. by apply pool_ok_insert.
Qed.

Lemma particles_ok_spawn_particles cx cy s :
  pool_ok MAX_PARTICLES particle_ok (particles s) ->
  pool_ok MAX_PARTICLES particle_ok (particles (spawn_particles cx cy s)).
Proof.
  intros Hok. unfold spawn_particles.
  apply (for_loop_inv
    (fun s' => pool_ok MAX_PARTICLES particle_ok (particles s'))); [done|].
  intros i s' Hs'. rewrite particles_burst_step.
  apply pool_ok_insert; [done|]. unfold particle_ok, draw.
  cbn [pt_life pt_dx pt_dy].
  pose proof (draw_ranges (rand_src s' (rand_pos s' + 0))) as (H1 & _).
  pose proof (draw_ranges (rand_src s' (rand_pos s' + 1))) as (H2 & _).
  pose proof (draw_ranges (rand_src s' (rand_pos s' + 2))) as (_ & H3 & _).
  lia.
Qed.

Lemma particles_ok_game_tick s :
  pool_ok MAX_PARTICLES particle_ok (particles s) ->
  pool_ok MAX_PARTICLES particle_ok (particles (game_tick s)).
Proof.
  intros Hok.
  destruct (decide (state s = StatePlaying)) as [Hs|Hs];
    [|by rewrite game_tick_idle].
  assert (Hpre : pool_ok MAX_PARTICLES particle_ok (particles (tick_prefix s))).
  { rewrite tick_prefix_split.
    rewrite (frame_check_collections particles) by reflexivity.
    unfold before_pickups.
    rewrite (frame_spawn_phase particles),
      (frame_move_entities particles), (frame_move_scenery particles)
      by reflexivity.
    apply particles_ok_update_particles.
    by rewrite (frame_tick_counters particles). }
  assert (Hcr : pool_ok MAX_PARTICLES particle_ok
                  (particles (crash (tick_prefix s)))).
  { unfold crash. cbv zeta. frame_rw.
    apply particles_ok_spawn_particles. by frame_rw. }
  destruct (game_tick_cases s Hs) as [[_ ->]|[(_ & _ & ->)|(_ & _ & ->)]];
    by frame_rw.
Qed.

Lemma particles_ok_game_init s :
  pool_ok MAX_PARTICLES particle_ok (particles s) ->
  pool_ok MAX_PARTICLES particle_ok (particles (game_init s)).
Proof.
  intros Hok. unfold game_init. cbv zeta. unfold furi_timer_start. frame_rw.
  rewrite ?(frame_init_scenery particles) by reflexivity.
  apply (for_loop_inv
    (fun s' => pool_ok MAX_PARTICLES particle_ok (particles s'))).
  - do 3 rewrite (for_loop_frame particles) by frame_step. by frame_rw.
  - intros i s' Hs'. cbn. apply pool_ok_alter; [done|].
    intros p. unfold particle_ok. cbn. lia.
Qed.

(** The sparks of a crash fade within 12 ticks.  In every state the loop
    reaches, each of the 12 particles has between 0 and 12 ticks to live
    and a drift of at most 3 pixels per tick on each axis; the particle
    update of a tick moves each live particle by its drift and takes one
    tick off its life, which therefore never wraps, and leaves the spent
    ones alone. *)
Theorem particles_fade s :
  reachable s ->
  pool_ok MAX_PARTICLES particle_ok (particles s) /\
  (forall i, (i < MAX_PARTICLES)%nat ->
     particles (update_particles s) !! i = aged <$> particles s !! i) /\
  (forall i p, particles s !! i = Some p ->
     particle_ok (aged p) /\ pt_life (aged p) = counted_down (pt_life p)).
Proof.
  intros Hr.
  assert (Hok : pool_ok MAX_PARTICLES particle_ok (particles s)).
  { revert s Hr. apply reachable_inv.
    - intros stored opens src. cbn [race_game_start particles].
      apply pool_ok_replicate. unfold particle_ok. cbn. lia.
    - intros s _ Hok. by apply particles_ok_game_tick.
    - intros s key s' _ Hok Hk.
      assert (H1 : s' = game_init s \/ particles s' = particles s)
        by (by eapply (frame_key_step particles)).
      destruct H1 as [-> | ->]; [by apply particles_ok_game_init|done]. }
  split; [done|]. split; [intros i Hi; by apply particles_update_particles|].
  intros i p Hp. apply particle_ok_aged.
  by apply (pool_ok_lookup _ _ _ _ _ Hok Hp).
Qed.

Lemma particles_fade_witness :
  pool_ok MAX_PARTICLES particle_ok (particles first_episode) /\
  (forall i, (i < MAX_PARTICLES)%nat ->
     particles (update_particles first_episode) !! i =
     aged <$> particles first_episode !! i) /\
  (forall i p, particles first_episode !! i = Some p ->
     particle_ok (aged p) /\ pt_life (aged p) = counted_down (pt_life p)).
Proof. exact (particles_fade first_episode reachable_first_episode). Defined.

(** ** Scenery *)

Lemma scenery_ok_scenery_step i s :
  pool_ok MAX_SCENERY scenery_ok (scenery s) ->
  pool_ok MAX_SCENERY scenery_ok (scenery (scenery_step i s)).
Proof.
  intros Hok. unfold scenery_step.
  destruct (scenery s !! i) as [sc|] eqn:Hsc; [|done].
  destruct (pool_ok_lookup _ _ _ _ _ Hok Hsc) as (Hy & Hsd & Hty).
  unfold SCREEN_H in *. cbv zeta. rewrite i16_small by lia.
  destruct (Z.ltb_spec (128 + 5) (sc_y sc + 2)).
  - unfold rand. cbn [scenery set_scenery set_rand_pos rand_src rand_pos].
    apply pool_ok_insert; [done|]. unfold scenery_ok, SCREEN_H.
    cbn [sc_y sc_side sc_type].
    pose proof (draw_ranges (rand_src s (rand_pos s))) as (_ & _ & _ & H1 & _).
    pose proof (draw_ranges (rand_src s (S (rand_pos s))))
      as (_ & _ & H2 & _).
    pose proof (draw_ranges (rand_src s (S (S (rand_pos s)))))
      as (_ & _ & H3 & _).
    lia.
  - cbn [scenery set_scenery]. apply pool_ok_insert; [done|].
    unfold scenery_ok, SCREEN_H. cbn [sc_y sc_side sc_type]. lia.
Qed.

Lemma scenery_step_lookup i s sc :
  scenery s !! i = Some sc -> sc_y sc + 2 <= SCREEN_H + 5 ->
  -32768 <= sc_y sc ->
  scenery (scenery_step i s) !! i = Some (scrolled sc) /\
  rand_pos (scenery_step i s) = rand_pos s.
Proof.
  intros Hsc Hy Hlo. unfold scenery_step. rewrite Hsc. cbv zeta.
  unfold SCREEN_H in *. rewrite i16_small by lia.
  destruct (Z.ltb_spec (128 + 5) (sc_y sc + 2)); [lia|].
  cbn [scenery set_scenery rand_pos]. split; [|done].
  rewrite list_lookup_insert_eq by (by apply lookup_lt_Some in Hsc). done.
Qed.

Lemma scenery_ok_init_scenery s :
  pool_ok MAX_SCENERY scenery_ok (scenery s) ->
  pool_ok MAX_SCENERY scenery_ok (scenery (init_scenery s)).
Proof.
  intros Hok. unfold init_scenery.
  apply (for_loop_inv
    (fun s' => pool_ok MAX_SCENERY scenery_ok (scenery s'))); [done|].
  intros i s' Hs'. unfold rand.
  cbn [scenery set_scenery set_rand_pos rand_src rand_pos].
  apply pool_ok_insert; [done|]. unfold scenery_ok.
  cbn [sc_y sc_side sc_type].
  pose proof (draw_ranges (rand_src s' (rand_pos s')))
    as (_ & _ & _ & _ & H1).
  pose proof (draw_ranges (rand_src s' (S (rand_pos s'))))
    as (_ & _ & H2 & _).
  pose proof (draw_ranges (rand_src s' (S (S (rand_pos s')))))
    as (_ & _ & H3 & _).
  unfold SCREEN_H in *. lia.
Qed.

Lemma scenery_ok_game_tick s :
  pool_ok MAX_SCENERY scenery_ok (scenery s) ->
  pool_ok MAX_SCENERY scenery_ok (scenery (game_tick s)).
Proof.
  intros Hok.
  destruct (decide (state s = StatePlaying)) as [Hs|Hs];
    [|by rewrite game_tick_idle].
  rewrite frame_after_prefix by done. rewrite tick_prefix_split.
  rewrite (frame_check_collections scenery) by reflexivity.
  unfold before_pickups.
  rewrite (frame_spawn_phase scenery), (frame_move_entities scenery)
    by reflexivity.
  unfold move_scenery.
  apply (for_loop_inv
    (fun s' => pool_ok MAX_SCENERY scenery_ok (scenery s')));
    [|intros i s' Hs'; by apply scenery_ok_scenery_step].
  by rewrite (frame_update_particles scenery), (frame_tick_counters scenery).
Qed.

Lemma scenery_ok_game_init s :
  pool_ok MAX_SCENERY scenery_ok (scenery s) ->
  pool_ok MAX_SCENERY scenery_ok (scenery (game_init s)).
Proof.
  intros Hok. unfold game_init. cbv zeta. unfold furi_timer_start. frame_rw.
  apply scenery_ok_init_scenery.
  do 4 rewrite (for_loop_frame scenery) by frame_step. by frame_rw.
Qed.

(** The roadside objects stay in the band the drawing code expects.  In
    every state the loop reaches, each of the 6 objects is between 19
    pixels above the screen and 5 pixels below it, on side 0 or 1 and of
    kind 0 or 1.  One step of the scenery loop moves an object 2 pixels
    down without drawing a random number, as long as that keeps it within
    5 pixels below the screen; otherwise the object is put back above
    the screen. *)
Theorem scenery_in_bounds s :
  reachable s ->
  pool_ok MAX_SCENERY scenery_ok (scenery s) /\
  forall i sc, scenery s !! i = Some sc -> sc_y sc + 2 <= SCREEN_H + 5 ->
    scenery (scenery_step i s) !! i = Some (scrolled sc) /\
    rand_pos (scenery_step i s) = rand_pos s.
Proof.
  intros Hr.
  assert (Hok : pool_ok MAX_SCENERY scenery_ok (scenery s)).
  { revert s Hr. apply reachable_inv.
    - intros stored opens src. cbn [race_game_start scenery].
      apply pool_ok_replicate. unfold scenery_ok, SCREEN_H. cbn. lia.
    - intros s _ Hok. by apply scenery_ok_game_tick.
    - intros s key s' _ Hok Hk.
      assert (H1 : s' = game_init s \/ scenery s' = scenery s)
        by (by eapply (frame_key_step scenery)).
      destruct H1 as [-> | ->]; [by apply scenery_ok_game_init|done]. }
  split; [done|]. intros i sc Hsc Hy.
  apply scenery_step_lookup; try done.
  destruct (pool_ok_lookup _ _ _ _ _ Hok Hsc) as (Hy' & _). lia.
Qed.

Lemma scenery_in_bounds_witness :
  pool_ok MAX_SCENERY scenery_ok (scenery first_episode) /\
  forall i sc, scenery first_episode !! i = Some sc ->
    sc_y sc + 2 <= SCREEN_H + 5 ->
    scenery (scenery_step i first_episode) !! i = Some (scrolled sc) /\
    rand_pos (scenery_step i first_episode) = rand_pos first_episode.
Proof. exact (scenery_in_bounds first_episode reachable_first_episode). Defined.

(** ** How long protection lasts *)

Lemma protected_tick s :
  timers_ok s -> lives_ok s -> state s = StatePlaying ->
  2 <= invincible_ticks s \/ 2 <= shield_ticks s ->
  state (game_tick s) = StatePlaying /\
  lives s <= lives (game_tick s) /\
  invincible_ticks (game_tick s) = counted_down (invincible_ticks s) /\
  counted_down (shield_ticks s) <= shield_ticks (game_tick s).
Proof.
  intros Hok Hlv Hs Hprot.
  pose proof Hok as (Hi & Hsh & _ & _).
  assert (Hno : collision_registered (tick_prefix s) = false).
  { destruct (collision_registered (tick_prefix s)) eqn:Hc; [|done].
    apply collision_registered_iff in Hc as (H1 & H2 & _).
    destruct (timers_cover_collision_step s) as [H|H]; lia. }
  destruct (timers_tick_prefix s Hok) as (Hi' & Hsh' & _ & _).
  destruct (game_tick_cases s Hs) as [[_ He]|[(Hc' & _)|(Hc' & _)]];
    [|congruence..].
  rewrite He, state_level_up, state_tick_prefix.
  rewrite !frame_level_up by reflexivity.
  pose proof (lives_tick_prefix_bounds s (proj1 (proj1 Hlv))) as Hb.
  repeat split; try done; try lia.
  unfold restarts, counted_down in *. lia.
Qed.

Lemma timers_ok_game_tick s :
  timers_ok s -> timers_ok (game_tick s).
Proof.
  intros Hok. destruct (decide (state s = StatePlaying)) as [Hs|Hs];
    [|by rewrite game_tick_idle].
  destruct (timers_game_tick s Hok Hs) as (Hi & Hsh & Hm & Hc).
  destruct Hok as (Hi0 & Hsh0 & Hm0 & Hc0).
  unfold timers_ok; split; [|split; [|split]];
    eapply restarts_range; eauto.
Qed.

(** Protection lasts as long as its countdown says.  In play, with n less
    than the invincibility countdown or less than the shield countdown,
    the next n ticks take no life and do not end the game, whatever is on
    the road: a countdown of k covers the next k - 1 ticks, since every
    tick lowers it before it looks for a collision.  So the 20 ticks of
    invincibility set by a crash cover the 19 ticks that follow it. *)
Theorem protection_lasts n s :
  timers_ok s -> lives_ok s -> state s = StatePlaying ->
  Z.of_nat n < invincible_ticks s \/ Z.of_nat n < shield_ticks s ->
  state (after_ticks n s) = StatePlaying /\
  lives s <= lives (after_ticks n s).
Proof.
  unfold after_ticks. revert s. induction n as [|n IH];
    intros s Hok Hlv Hs Hprot; [cbn; split; [done|lia]|].
  rewrite Nat.iter_succ_r.
  destruct (protected_tick s Hok Hlv Hs) as (Hs' & Hl' & Hi' & Hsh');
    [lia|].
  destruct (IH (game_tick s)) as [Hst Hlives].
  - by apply timers_ok_game_tick.
  - by apply lives_ok_game_tick.
  - done.
  - unfold counted_down in *. lia.
  - split; [done|lia].
Qed.

Lemma protection_lasts_witness :
  state (after_ticks 2 just_hit) = StatePlaying /\
  lives just_hit <= lives (after_ticks 2 just_hit).
Proof.
  apply (protection_lasts 2 just_hit).
  - unfold timers_ok. vm_compute. intuition discriminate.
  - split; [vm_compute; split; discriminate|intros _; vm_compute; discriminate].
  - reflexivity.
  - left. vm_compute. reflexivity.
Defined.

(** ** Power-up pickups *)

(** One step of the power-up loop.  A live power-up that touches the
    player is retired, the pickup tone is played if the sound is on, and
    its effect is applied: a shield sets the shield countdown to 50, a
    magnet sets the magnet countdown to 60, fuel adds one life up to the
    maximum of 5 and is absorbed without effect at the maximum; the score
    and the combo are left alone.  A power-up that is not live or does
    not touch the player leaves the state as it is. *)
Theorem powerup_pickup_effect px i s p :
  powerups s !! i = Some p -> 0 <= lives s <= MAX_LIVES ->
  (pw_alive p = true -> touches px (pw_lane p) (pw_y p) = true ->
   let s' := powerup_step px i s in
   powerups s' = <[i := kill_powerup p]> (powerups s) /\
   cues s' = (if sound_on s then [Tone 660 40] else []) ++ cues s /\
   shield_ticks s' =
     (if decide (pw_type p = PwShield) then 50 else shield_ticks s) /\
   magnet_ticks s' =
     (if decide (pw_type p = PwMagnet) then 60 else magnet_ticks s) /\
   lives s' =
     (if decide (pw_type p = PwFuel) then Z.min (lives s + 1) MAX_LIVES
      else lives s) /\
   score s' = score s /\ combo s' = combo s) /\
  (pw_alive p = false \/ touches px (pw_lane p) (pw_y p) = false ->
   powerup_step px i s = s).
Proof.
  intros Hp Hl. split.
  - intros Ha Hto. unfold powerup_step. rewrite Hp, Ha, Hto.
    cbn [negb]. cbv zeta.
    set (s1 := play_sound 660 40
                 (set_powerups (<[i := kill_powerup p]> (powerups s)) s)).
    assert (Hs1 : powerups s1 = <[i := kill_powerup p]> (powerups s) /\
                  cues s1 = (if sound_on s then [Tone 660 40] else [])
                            ++ cues s /\
                  shield_ticks s1 = shield_ticks s /\
                  magnet_ticks s1 = magnet_ticks s /\
                  lives s1 = lives s /\ score s1 = score s /\
                  combo s1 = combo s).
    { unfold s1, play_sound, emit. cbn. by destruct (sound_on s). }
    clearbody s1. destruct Hs1 as (H1 & H2 & H3 & H4 & H5 & H6 & H7).
    unfold MAX_LIVES in *.
    destruct (pw_type p) eqn:Hty; cbn [decide]; rewrite ?H5.
    + cbn. by rewrite H1, H2, H4, H5, H6, H7.
    + cbn. by rewrite H1, H2, H3, H5, H6, H7.
    + destruct (Z.ltb_spec (lives s) 5); cbn;
        rewrite ?u8_small by lia; rewrite H1, H2, H3, H4, ?H5, H6, H7;
        repeat split; try reflexivity; (case_decide; [lia|done]).
  - intros Hno. unfold powerup_step. rewrite Hp.
    destruct (pw_alive p); cbn [negb]; [|done].
    destruct Hno as [Hno|Hno]; [done|]. by rewrite Hno.
Qed.

Lemma powerup_pickup_effect_witness :
  (pw_alive (powerup_at 1 100 true PwShield) = true ->
   touches (car_lx 1) (pw_lane (powerup_at 1 100 true PwShield))
     (pw_y (powerup_at 1 100 true PwShield)) = true ->
   let s' := powerup_step (car_lx 1) 0 shield_ahead in
   powerups s' =
     <[0%nat := kill_powerup (powerup_at 1 100 true PwShield)]>
       (powerups shield_ahead) /\
   cues s' =
     (if sound_on shield_ahead then [Tone 660 40] else [])
     ++ cues shield_ahead /\
   shield_ticks s' =
     (if decide (pw_type (powerup_at 1 100 true PwShield) = PwShield)
      then 50 else shield_ticks shield_ahead) /\
   magnet_ticks s' =
     (if decide (pw_type (powerup_at 1 100 true PwShield) = PwMagnet)
      then 60 else magnet_ticks shield_ahead) /\
   lives s' =
     (if decide (pw_type (powerup_at 1 100 true PwShield) = PwFuel)
      then Z.min (lives shield_ahead + 1) MAX_LIVES
      else lives shield_ahead) /\
   score s' = score shield_ahead /\ combo s' = combo shield_ahead) /\
  (pw_alive (powerup_at 1 100 true PwShield) = false \/
   touches (car_lx 1) (pw_lane (powerup_at 1 100 true PwShield))
     (pw_y (powerup_at 1 100 true PwShield)) = false ->
   powerup_step (car_lx 1) 0 shield_ahead = shield_ahead).
Proof.
  apply (powerup_pickup_effect (car_lx 1) 0%nat shield_ahead
           (powerup_at 1 100 true PwShield)).
  - reflexivity.
  - vm_compute. split; discriminate.
Defined.

(** ** The obstacle cadence *)

Lemma obstacles_spawn_phase_eq s :
  obstacles (spawn_phase s) =
  if tick_count s mod diff_spawn (difficulty s) =? 0
  then obstacles (spawn_obstacle s) else obstacles s.
Proof.
  unfold spawn_phase, spawn_coin, spawn_powerup. cbv zeta.
  repeat case_match;
    rewrite ?(spawn_powerup_from_frame obstacles),
      ?(spawn_coin_from_frame obstacles) by reflexivity; reflexivity.
Qed.

Lemma obstacles_move_entities s i :
  (i < MAX_OBS)%nat ->
  obstacles (move_entities s) !! i =
  moved_obstacle (3 + level s ÷ 2) <$> obstacles s !! i.
Proof.
  intros Hi. unfold move_entities. cbv zeta.
  do 2 rewrite (for_loop_frame obstacles) by frame_step.
  rewrite (for_loop_pointwise obstacles (moved_obstacle (3 + level s ÷ 2)))
    by apply obstacle_step_lookup.
  by replace (i <? MAX_OBS)%nat with true by (symmetry; by apply Nat.ltb_lt).
Qed.

(** Obstacles appear on the cadence of the difficulty and at no other
    time.  A tick in play first counts itself; if the new tick count is
    not a multiple of the spawn interval of the difficulty, the obstacles
    after the tick are exactly the obstacles before it, each live one
    moved; if it is, they are the moved obstacles with one spawn attempt
    made on them.  Collisions and pickups never touch the obstacle
    pool. *)
Theorem obstacle_cadence s :
  state s = StatePlaying ->
  let t := u32 (tick_count s + 1) in
  let base := 3 + level s ÷ 2 in
  (t mod diff_spawn (difficulty s) <> 0 ->
   forall i, (i < MAX_OBS)%nat ->
     obstacles (game_tick s) !! i = moved_obstacle base <$> obstacles s !! i) /\
  (t mod diff_spawn (difficulty s) = 0 ->
   exists x,
     (forall i, (i < MAX_OBS)%nat ->
        obstacles x !! i = moved_obstacle base <$> obstacles s !! i) /\
     obstacles (game_tick s) = obstacles (spawn_obstacle x)).
Proof.
  intros Hs. cbv zeta.
  set (x := move_entities (move_scenery (update_particles (tick_counters s)))).
  assert (Hx : forall i, (i < MAX_OBS)%nat ->
    obstacles x !! i =
    moved_obstacle (3 + level s ÷ 2) <$> obstacles s !! i).
  { intros i Hi. unfold x. rewrite obstacles_move_entities by done.
    by rewrite (frame_move_scenery level), (frame_update_particles level),
      (frame_tick_counters level), (frame_move_scenery obstacles),
      (frame_update_particles obstacles), (frame_tick_counters obstacles). }
  assert (Ht : tick_count x = u32 (tick_count s + 1)).
  { unfold x. rewrite (frame_move_entities tick_count),
      (frame_move_scenery tick_count), (frame_update_particles tick_count)
      by reflexivity. apply tick_counters_spec. }
  assert (Hd : difficulty x = difficulty s).
  { unfold x. by rewrite (frame_move_entities difficulty),
      (frame_move_scenery difficulty), (frame_update_particles difficulty),
      (frame_tick_counters difficulty). }
  assert (He : obstacles (game_tick s) = obstacles (spawn_phase x)).
  { rewrite frame_after_prefix by done. rewrite tick_prefix_split.
    by rewrite (frame_check_collections obstacles). }
  rewrite He, obstacles_spawn_phase_eq, Ht, Hd. split.
  - intros Hne i Hi.
    destruct (Z.eqb_spec (u32 (tick_count s + 1) mod diff_spawn (difficulty s))
                0); [done|by apply Hx].
  - intros Heq. rewrite Heq. exists x. by split.
Qed.

Lemma obstacle_cadence_witness :
  let t := u32 (tick_count first_episode + 1) in
  let base := 3 + level first_episode ÷ 2 in
  (t mod diff_spawn (difficulty first_episode) <> 0 ->
   forall i, (i < MAX_OBS)%nat ->
     obstacles (game_tick first_episode) !! i =
     moved_obstacle base <$> obstacles first_episode !! i) /\
  (t mod diff_spawn (difficulty first_episode) = 0 ->
   exists x,
     (forall i, (i < MAX_OBS)%nat ->
        obstacles x !! i =
        moved_obstacle base <$> obstacles first_episode !! i) /\
     obstacles (game_tick first_episode) = obstacles (spawn_obstacle x)).
Proof. exact (obstacle_cadence first_episode (state_game_init fresh_start)). Defined.
